(** * InterviewHub: checklist view, knowledge-test modal, session page

    A shallow embedding of the React components of the repository
    ([components/checklist.tsx], [components/interview-modal.tsx],
    [app/session/[id]/page.tsx]) and of the wire types of [lib/api.ts],
    followed by the server operations these components call, as their
    specification describes them.

    Conventions of the embedding:
    - component state ([useState] cells) is a record, a handler is a function
      from the state (and its props) to the next state and the list of
      effects it performs, in program order;
    - an [async] handler is cut at its [await]: [h_begin] runs up to the
      request, [h_resume] runs the continuation on the outcome of the
      request ([Resolved r] or [Rejected msg]); values read from the closure
      of the render the handler was created in are passed explicitly;
    - JSX is embedded as a view record: a conditionally rendered element is an
      [option] or a [bool], and a user event can only be dispatched on an
      element the view contains;
    - strings are [string] (text is taken to be ASCII); [Set<string>] is
      [gset string]; optional fields of the wire types are [option]. *)

From Stdlib Require Import Ascii QArith.
From Stdlib Require String.
From stdpp Require Import base option list strings gmap.

(** ** JavaScript string helpers used by the components *)

Module Js.

(** White space removed by [String.prototype.trim] (ASCII part). *)
Definition is_space (c : ascii) : bool :=
  let n := Ascii.nat_of_ascii c in
  (n =? 32)%nat || ((9 <=? n)%nat && (n <=? 13)%nat).

Fixpoint trimStart (s : string) : string :=
  match s with
  | EmptyString => EmptyString
  | String c s' => if is_space c then trimStart s' else s
  end.

Fixpoint trimEnd (s : string) : string :=
  match s with
  | EmptyString => EmptyString
  | String c s' =>
      match trimEnd s' with
      | EmptyString => if is_space c then EmptyString else String c EmptyString
      | t => String c t
      end
  end.

Definition trim (s : string) : string := trimEnd (trimStart s).

(** Truthiness of a string value: only the empty string is falsy. *)
Definition truthy (s : string) : bool :=
  match s with EmptyString => false | _ => true end.

Definition truthy_opt (o : option string) : bool :=
  match o with Some s => truthy s | None => false end.

Definition lower (c : ascii) : ascii :=
  let n := Ascii.nat_of_ascii c in
  if (65 <=? n)%nat && (n <=? 90)%nat then Ascii.ascii_of_nat (n + 32) else c.

Fixpoint toLowerCase (s : string) : string :=
  match s with
  | EmptyString => EmptyString
  | String c s' => String (lower c) (toLowerCase s')
  end.

(** [s.includes(sub)] *)
Fixpoint includes (s sub : string) : bool :=
  String.prefix sub s ||
  match s with
  | EmptyString => false
  | String _ s' => includes s' sub
  end.

(** [l.slice(0, -1)]: every element but the last. *)
Definition slice_0_m1 {A} (l : list A) : list A := take (length l - 1) l.

End Js.

(** ** Wire types ([lib/api.ts]) *)

Inductive Status := Todo | Done.
Inductive Priority := High | Med | Low.

#[global] Instance Status_eq_dec : EqDecision Status.
Proof. solve_decision. Defined.
#[global] Instance Priority_eq_dec : EqDecision Priority.
Proof. solve_decision. Defined.

Record TodoItem := mkTodoItem {
  id : string;
  group_key : string;
  text : string;
  status : Status;
  priority : option Priority;
  estimate_minutes : option Z;
  rationale : option string
}.

Record ChecklistGroup := mkGroup {
  key : string;
  label : string;
  items : list TodoItem
}.

Record ChecklistStructure := mkChecklist {
  title : string;
  event_type : string;
  assumptions : list string;
  groups : list ChecklistGroup;
  next_3_actions : list string
}.

(** Transcript entries of a session carry their role as a plain string. *)
Record Message := mkMessage { role : string; content : string }.

(** The modal's history restricts it to ["user" | "assistant"]. *)
Inductive Role := User | Assistant.

Record GetSessionResponse := mkSession {
  session_id : string;
  created_at : string;
  s_event_type : string;
  s_title : string;
  user_goal_text : string;
  context : gmap string string;
  s_checklist : option ChecklistStructure;
  messages : list Message
}.

Record SendMessageResponse := mkSendResp {
  r_session_id : string;
  r_message : Message;
  r_messages : option (list Message);
  r_checklist : option ChecklistStructure
}.

Record InterviewQuestion := mkQuestion {
  question : string;
  question_number : nat;
  total_questions : nat
}.

Record InterviewResponse := mkInterviewResp {
  ir_question : option InterviewQuestion;
  ir_feedback : option string;
  is_complete : bool;
  overall_feedback : option string;
  ir_rating : option Q;
  ir_passed : option bool
}.

(** Outcome of an awaited request. *)
Inductive Outcome (A : Type) :=
| Resolved (a : A)
| Rejected (msg : string).
Arguments Resolved {A} a.
Arguments Rejected {A} msg.

(** Effects a handler performs besides its state updates. *)
Inductive Effect :=
| Alert (msg : string)
| ConsoleError (msg : string)
| ReqUpdateTodo (sessionId todoId : string) (st : Status)
| ReqStartInterview (sessionId todoId todoText : string)
| ReqAnswerInterview (sessionId todoId answer : string)
| ReqSendMessage (sessionId content : string)
| CallOnUpdate (c : ChecklistStructure)
| CallOnClose
| CallOnComplete (passed : bool) (rating : Q)
| SetTimeout (ms : nat)
| SetInterval (ms : nat)
| ClearInterval.

(** ** The UUID guard

    [/^[0-9a-f]{8}-[0-9a-f]{4}-[0-9a-f]{4}-[0-9a-f]{4}-[0-9a-f]{12}$/i],
    the literal used by both components. *)

Module Uuid.

Inductive Atom := HexClass | Hyphen.

(** A piece [a{n}] of the pattern. *)
Definition Pattern := list (Atom * nat).

Definition uuidRegex : Pattern :=
  [ (HexClass, 8); (Hyphen, 1); (HexClass, 4); (Hyphen, 1); (HexClass, 4);
    (Hyphen, 1); (HexClass, 4); (Hyphen, 1); (HexClass, 12) ]%nat.

Definition in_range (lo hi : nat) (c : ascii) : bool :=
  let n := Ascii.nat_of_ascii c in (lo <=? n)%nat && (n <=? hi)%nat.

(** [[0-9a-f]] under the [i] flag matches both letter cases. *)
Definition is_hex (c : ascii) : bool :=
  in_range 48 57 c || in_range 97 102 c || in_range 65 70 c.

Definition atom_matches (a : Atom) (c : ascii) : bool :=
  match a with
  | HexClass => is_hex c
  | Hyphen => Ascii.eqb c "-"%char
  end.

(** Consume exactly [n] characters of class [a]. *)
Fixpoint match_rep (a : Atom) (n : nat) (s : string) : option string :=
  match n with
  | O => Some s
  | S n' =>
      match s with
      | String c s' => if atom_matches a c then match_rep a n' s' else None
      | EmptyString => None
      end
  end.

Fixpoint match_seq (p : Pattern) (s : string) : option string :=
  match p with
  | [] => Some s
  | (a, n) :: p' =>
      match match_rep a n s with
      | Some rest => match_seq p' rest
      | None => None
      end
  end.

(** [regex.test(s)] for a pattern anchored with [^] and [$]. *)
Definition test (p : Pattern) (s : string) : bool :=
  match match_seq p s with
  | Some EmptyString => true
  | _ => false
  end.

(** The canonical text form, stated by position: 36 characters, hyphens at
    offsets 8, 13, 18 and 23, hexadecimal digits everywhere else. *)
Definition hyphen_offset (i : nat) : bool :=
  (i =? 8)%nat || (i =? 13)%nat || (i =? 18)%nat || (i =? 23)%nat.

Definition uuid_shaped (s : string) : Prop :=
  String.length s = 36%nat ∧
  ∀ i c, String.get i s = Some c →
         if hyphen_offset i then c = "-"%char else is_hex c = true.

End Uuid.

(** ** The checklist component ([components/checklist.tsx]) *)

Module ChecklistView.

Record Props := mkProps {
  sessionId : string;
  has_onUpdate : bool          (* the optional [onUpdate] prop is passed *)
}.

Record State := mkState {
  checklist : ChecklistStructure;
  updatingIds : gset string;
  interviewTodoId : option string;
  interviewTodoText : option string
}.

Definition set_checklist (c : ChecklistStructure) (st : State) : State :=
  mkState c (updatingIds st) (interviewTodoId st) (interviewTodoText st).

Definition set_updatingIds (u : gset string) (st : State) : State :=
  mkState (checklist st) u (interviewTodoId st) (interviewTodoText st).

Definition set_interview (i t : option string) (st : State) : State :=
  mkState (checklist st) (updatingIds st) i t.

(** [useState(initialChecklist)] and the other initial cells. *)
Definition init (initialChecklist : ChecklistStructure) : State :=
  mkState initialChecklist ∅ None None.

(** *** [handleToggleTodo] *)

Definition with_status (s : Status) (i : TodoItem) : TodoItem :=
  mkTodoItem (id i) (group_key i) (text i) s (priority i)
             (estimate_minutes i) (rationale i).

Definition with_items (l : list TodoItem) (g : ChecklistGroup) : ChecklistGroup :=
  mkGroup (key g) (label g) l.

Definition with_groups (l : list ChecklistGroup) (c : ChecklistStructure)
  : ChecklistStructure :=
  mkChecklist (title c) (event_type c) (assumptions c) l (next_3_actions c).

(** [item.status === "done" ? "todo" : "done"] *)
Definition newStatus (item : TodoItem) : Status :=
  match status item with Done => Todo | Todo => Done end.

(** The [updatedChecklist] built after the request resolved:
    [groups.map(g => ({...g, items: g.items.map(i => i.id === item.id ? {...i, status} : i)}))]. *)
Definition updatedChecklist (c : ChecklistStructure) (item : TodoItem)
  : ChecklistStructure :=
  with_groups
    (map (λ g, with_items
                 (map (λ i, if String.eqb (id i) (id item)
                            then with_status (newStatus item) i else i)
                      (items g)) g)
         (groups c)) c.

(** What the continuation of [handleToggleTodo] keeps from its closure. *)
Record ToggleClosure := mkToggleClosure {
  tc_checklist : ChecklistStructure;
  tc_item : TodoItem
}.

(** Up to [await updateTodo(...)]. [c] is the [checklist] of the render the
    handler belongs to. *)
Definition handleToggleTodo_begin (p : Props) (c : ChecklistStructure)
    (item : TodoItem) (st : State) : State * list Effect * ToggleClosure :=
  (set_updatingIds ({[ id item ]} ∪ updatingIds st) st,
   [ReqUpdateTodo (sessionId p) (id item) (newStatus item)],
   mkToggleClosure c item).

(** After the [await]: [try] body, [catch], then [finally]. *)
Definition handleToggleTodo_resume (p : Props) (k : ToggleClosure)
    (r : Outcome TodoItem) (st : State) : State * list Effect :=
  let '(st1, eff) :=
    match r with
    | Resolved _ =>
        let u := updatedChecklist (tc_checklist k) (tc_item k) in
        (set_checklist u st, if has_onUpdate p then [CallOnUpdate u] else [])
    | Rejected msg =>
        (st, [ConsoleError "Failed to update todo:";
              Alert "Failed to update todo. Please try again."])
    end in
  (set_updatingIds (updatingIds st1 ∖ {[ id (tc_item k) ]}) st1, eff).

(** One toggle run to completion from the render of [st]: click, request,
    outcome, with no other update in between. *)
Definition handleToggleTodo (p : Props) (item : TodoItem)
    (r : Outcome TodoItem) (st : State) : State * list Effect :=
  let '(st1, eff1, k) := handleToggleTodo_begin p (checklist st) item st in
  let '(st2, eff2) := handleToggleTodo_resume p k r st1 in
  (st2, eff1 ++ eff2).

(** *** The rendered view *)

Record ItemView := mkItemView {
  iv_item : TodoItem;
  iv_toggle_disabled : bool;       (* [disabled={updatingIds.has(item.id)}] *)
  iv_test_knowledge : bool         (* the "Test Knowledge" button is rendered *)
}.

Record GroupCard := mkCard {
  card_key : string;
  card_label : string;
  card_items : list ItemView
}.

(** [group.key === "skills" && item.status !== "done"] *)
Definition offers_test_knowledge (g : ChecklistGroup) (i : TodoItem) : bool :=
  String.eqb (key g) "skills" && negb (bool_decide (status i = Done)).

Definition render_item (st : State) (g : ChecklistGroup) (i : TodoItem) : ItemView :=
  mkItemView i (bool_decide (id i ∈ updatingIds st)) (offers_test_knowledge g i).

(** The callback of [checklist.groups.map]: [null] for an empty group. *)
Definition render_group (st : State) (g : ChecklistGroup) : option GroupCard :=
  if (length (items g) =? 0)%nat then None
  else Some (mkCard (key g) (label g) (map (render_item st g) (items g))).

Definition render_groups (st : State) : list (option GroupCard) :=
  map (render_group st) (groups (checklist st)).

(** What reaches the page: React renders [null] as nothing. *)
Definition presented_cards (st : State) : list GroupCard :=
  omap (λ card, card) (render_groups st).

(** The "Next 3 Priority Actions" card: rendered when the list is non-empty,
    with one [<li>] per entry. *)
Definition render_next_actions (c : ChecklistStructure) : option (list string) :=
  if (0 <? length (next_3_actions c))%nat
  then Some (map (λ a, a) (next_3_actions c)) else None.

(** The modal is mounted when [interviewTodoId && interviewTodoText]. *)
Definition modal_mounted (st : State) : bool :=
  Js.truthy_opt (interviewTodoId st) && Js.truthy_opt (interviewTodoText st).

(** Item at group index [gi], item index [ii]. *)
Definition item_at (c : ChecklistStructure) (gi ii : nat)
  : option (ChecklistGroup * TodoItem) :=
  g ← groups c !! gi; i ← items g !! ii; Some (g, i).

(** *** Event handlers of the rendered elements *)

(** [onClick] of the "Test Knowledge" button. *)
Definition onClick_testKnowledge (item : TodoItem) (st : State)
  : State * list Effect :=
  if negb (Uuid.test Uuid.uuidRegex (id item)) then
    (st, [ConsoleError "Invalid todo ID format:";
          Alert "Invalid checklist item ID. Please refresh the page to regenerate the checklist."])
  else (set_interview (Some (id item)) (Some (text item)) st, []).

(** [onClose] passed to the modal. *)
Definition onClose (st : State) : State := set_interview None None st.

(** [onComplete] passed to the modal, up to the [setTimeout]. *)
Definition onComplete (st : State) (passed : bool) (rating : Q) : list Effect :=
  if passed && Js.truthy_opt (interviewTodoId st) then [SetTimeout 200] else [].

(** [checklist.groups.flatMap((g) => g.items)]: all the items, in order. *)
Definition all_items (c : ChecklistStructure) : list TodoItem :=
  flat_map items (groups c).

(** Body of the timer callback: the item it hands to [handleToggleTodo], if
    any. [st] is the render that created [onComplete]. *)
Definition onComplete_timer_item (st : State) : option TodoItem :=
  match find (λ i, bool_decide (Some (id i) = interviewTodoId st))
             (all_items (checklist st)) with
  | Some item => if bool_decide (status item = Done) then None else Some item
  | None => None
  end.

(** User events on the rendered view. *)
Inductive Event :=
| ClickToggle (gi ii : nat)
| ClickTestKnowledge (gi ii : nat)
| ModalClose.

(** Dispatch of a user event: [None] when the view has no enabled element
    for it. A toggle only starts here; its request is still pending. *)
Definition dispatch (p : Props) (e : Event) (st : State)
  : option (State * list Effect) :=
  match e with
  | ClickToggle gi ii =>
      '(g, i) ← item_at (checklist st) gi ii;
      if iv_toggle_disabled (render_item st g i) then None
      else let '(st', eff, _) := handleToggleTodo_begin p (checklist st) i st in
           Some (st', eff)
  | ClickTestKnowledge gi ii =>
      '(g, i) ← item_at (checklist st) gi ii;
      if iv_test_knowledge (render_item st g i)
      then Some (onClick_testKnowledge i st) else None
  | ModalClose =>
      if modal_mounted st then Some (onClose st, []) else None
  end.

End ChecklistView.

(** ** The knowledge-test modal ([components/interview-modal.tsx]) *)

Module InterviewModal.

Record Props := mkProps {
  sessionId : string;
  todoId : string;
  todoText : string;
  has_onComplete : bool       (* the optional [onComplete] prop is passed *)
}.

Record HistoryEntry := mkEntry { h_role : Role; h_content : string }.

Record State := mkState {
  currentQuestion : option InterviewQuestion;
  answer : string;
  isLoading : bool;
  feedback : option string;
  history : list HistoryEntry;
  isComplete : bool;
  rating : option Q;
  passed : option bool;
  overallFeedback : option string
}.

Definition init : State :=
  mkState None "" false None [] false None None None.

Definition setCurrentQuestion q (s : State) :=
  mkState q (answer s) (isLoading s) (feedback s) (history s) (isComplete s)
          (rating s) (passed s) (overallFeedback s).
Definition setAnswer a (s : State) :=
  mkState (currentQuestion s) a (isLoading s) (feedback s) (history s)
          (isComplete s) (rating s) (passed s) (overallFeedback s).
Definition setIsLoading b (s : State) :=
  mkState (currentQuestion s) (answer s) b (feedback s) (history s)
          (isComplete s) (rating s) (passed s) (overallFeedback s).
Definition setFeedback f (s : State) :=
  mkState (currentQuestion s) (answer s) (isLoading s) f (history s)
          (isComplete s) (rating s) (passed s) (overallFeedback s).
Definition setHistory h (s : State) :=
  mkState (currentQuestion s) (answer s) (isLoading s) (feedback s) h
          (isComplete s) (rating s) (passed s) (overallFeedback s).
Definition setIsComplete b (s : State) :=
  mkState (currentQuestion s) (answer s) (isLoading s) (feedback s)
          (history s) b (rating s) (passed s) (overallFeedback s).
Definition setRating r (s : State) :=
  mkState (currentQuestion s) (answer s) (isLoading s) (feedback s)
          (history s) (isComplete s) r (passed s) (overallFeedback s).
Definition setPassed b (s : State) :=
  mkState (currentQuestion s) (answer s) (isLoading s) (feedback s)
          (history s) (isComplete s) (rating s) b (overallFeedback s).
Definition setOverallFeedback f (s : State) :=
  mkState (currentQuestion s) (answer s) (isLoading s) (feedback s)
          (history s) (isComplete s) (rating s) (passed s) f.

(** [x || null] on the optional fields of the response. *)
Definition number_or_null (r : option Q) : option Q :=
  match r with
  | Some q => if Qeq_bool q 0 then None else Some q
  | None => None
  end.
Definition bool_or_null (b : option bool) : option bool :=
  match b with Some true => Some true | _ => None end.
Definition string_or_null (s : option string) : option string :=
  match s with Some t => if Js.truthy t then Some t else None | None => None end.

Definition alert_invalid_start : string :=
  "Invalid checklist item ID detected. Please refresh the page to regenerate the checklist with proper IDs, then try again.".
Definition alert_invalid_todo_id : string :=
  "Invalid checklist item ID. Please refresh the page to regenerate the checklist, then try again.".

(** *** [handleStart] *)

Definition handleStart_begin (p : Props) (s : State) : State * list Effect :=
  if negb (Uuid.test Uuid.uuidRegex (todoId p)) then
    (s, [Alert alert_invalid_start; CallOnClose])
  else
    (setIsLoading true s,
     [ReqStartInterview (sessionId p) (todoId p) (todoText p)]).

Definition handleStart_resume (p : Props) (r : Outcome InterviewResponse)
    (s : State) : State * list Effect :=
  let '(s1, eff) :=
    match r with
    | Resolved response =>
        match ir_question response with
        | Some q =>
            (setHistory [mkEntry Assistant (question q)]
               (setCurrentQuestion (Some q) s), [])
        | None => (s, [])
        end
    | Rejected errorMessage =>
        (s, [ConsoleError "Failed to start interview:";
             if Js.includes errorMessage "Invalid todo_id"
             then Alert alert_invalid_todo_id
             else Alert errorMessage])
    end in
  (setIsLoading false s1, eff).

(** *** [handleSubmitAnswer] *)

Definition handleSubmitAnswer_begin (p : Props) (s : State)
  : State * list Effect :=
  if negb (Js.truthy (Js.trim (answer s))) then (s, [])
  else
    let userAnswer := answer s in
    (setHistory (history s ++ [mkEntry User userAnswer])
       (setAnswer "" (setIsLoading true s)),
     [ReqAnswerInterview (sessionId p) (todoId p) userAnswer]).

(** The [is_complete] branch. *)
Definition on_complete_response (p : Props) (response : InterviewResponse)
    (s : State) : State * list Effect :=
  (setOverallFeedback (string_or_null (overall_feedback response))
     (setPassed (bool_or_null (ir_passed response))
        (setRating (number_or_null (ir_rating response))
           (setIsComplete true s))),
   match has_onComplete p, ir_passed response, ir_rating response with
   | true, Some true, Some r => [CallOnComplete true r]
   | _, _, _ => []
   end).

(** The branch for a response that carries the next question. *)
Definition on_next_response (response : InterviewResponse) (s : State) : State :=
  let s1 :=
    match ir_feedback response with
    | Some f =>
        if Js.truthy f
        then setHistory (history s ++ [mkEntry Assistant ("Feedback: " +:+ f)])
               (setFeedback (Some f) s)
        else s
    | None => s
    end in
  match ir_question response with
  | Some q =>
      setFeedback None
        (setHistory (history s1 ++ [mkEntry Assistant (question q)])
           (setCurrentQuestion (Some q) s1))
  | None => s1
  end.

Definition handleSubmitAnswer_resume (p : Props)
    (r : Outcome InterviewResponse) (s : State) : State * list Effect :=
  let '(s1, eff) :=
    match r with
    | Resolved response =>
        if is_complete response then on_complete_response p response s
        else (on_next_response response s, [])
    | Rejected _ =>
        (s, [ConsoleError "Failed to answer question:";
             Alert "Failed to submit answer. Please try again."])
    end in
  (setIsLoading false s1, eff).

(** *** [handleClose] *)

(** The state reset performed when closing after completion. *)
Definition reset (s : State) : State :=
  setOverallFeedback None (setPassed None (setRating None
    (setIsComplete false (setHistory [] (setFeedback None
       (setAnswer "" (setCurrentQuestion None s))))))).

Definition handleClose (s : State) : State * list Effect :=
  ((if isComplete s then reset s else s), [CallOnClose]).

(** *** The rendered view *)

(** Text of the [<DialogDescription>]; a label only, the number of
    questions is decided by the responses. *)
Definition dialogDescription : string :=
  "Test your understanding of this skill. Answer 3-5 questions to get rated and receive feedback.".

Record AnswerForm := mkForm {
  af_question : InterviewQuestion;
  af_textarea_disabled : bool;     (* [disabled={isLoading}] *)
  af_submit_disabled : bool        (* [disabled={!answer.trim() || isLoading}] *)
}.

Record View := mkView {
  v_start_button : option bool;    (* rendered, with its [disabled] flag *)
  v_answer_form : option AnswerForm;
  v_results : bool
}.

Definition render (s : State) : View :=
  mkView
    (match currentQuestion s with
     | None => if negb (isComplete s) then Some (isLoading s) else None
     | Some _ => None
     end)
    (match currentQuestion s with
     | Some q =>
         if negb (isComplete s)
         then Some (mkForm q (isLoading s)
                      (negb (Js.truthy (Js.trim (answer s))) || isLoading s))
         else None
     | None => None
     end)
    (isComplete s).

(** *** One mounted instance of the modal

    The parent unmounts the modal when [onClose] is called; requests that
    are still awaited then complete all the same and run their
    continuation (with its effects) on the closure they captured. *)

Inductive Pending := PendingStart | PendingAnswer.

#[global] Instance Pending_eq_dec : EqDecision Pending.
Proof. solve_decision. Defined.

Record Instance := mkInstance {
  state : State;
  mounted : bool;
  pending : list Pending
}.

Definition fresh : Instance := mkInstance init true [].

Inductive Event :=
| ClickStart
| ChangeAnswer (v : string)
| ClickSubmit
| KeyCmdEnter
| DialogClose
| StartOutcome (r : Outcome InterviewResponse)
| AnswerOutcome (r : Outcome InterviewResponse).

(** Remove one awaited request of kind [k]. *)
Fixpoint settle (k : Pending) (l : list Pending) : option (list Pending) :=
  match l with
  | [] => None
  | k' :: l' =>
      if bool_decide (k = k') then Some l'
      else l'' ← settle k l'; Some (k' :: l'')
  end.

Definition step (p : Props) (e : Event) (i : Instance)
  : option (Instance * list Effect) :=
  let s := state i in
  match e with
  | ClickStart =>
      if mounted i then
        match v_start_button (render s) with
        | Some false =>
            let '(s', eff) := handleStart_begin p s in
            if Uuid.test Uuid.uuidRegex (todoId p)
            then Some (mkInstance s' true (pending i ++ [PendingStart]), eff)
            else Some (mkInstance s' false (pending i), eff)
        | _ => None
        end
      else None
  | ChangeAnswer v =>
      if mounted i then
        match v_answer_form (render s) with
        | Some f =>
            if af_textarea_disabled f then None
            else Some (mkInstance (setAnswer v s) true (pending i), [])
        | None => None
        end
      else None
  | ClickSubmit =>
      if mounted i then
        match v_answer_form (render s) with
        | Some f =>
            if af_submit_disabled f then None
            else
              let '(s', eff) := handleSubmitAnswer_begin p s in
              Some (mkInstance s' true
                      (pending i ++ (if Js.truthy (Js.trim (answer s))
                                     then [PendingAnswer] else [])), eff)
        | None => None
        end
      else None
  | KeyCmdEnter =>
      if mounted i then
        match v_answer_form (render s) with
        | Some f =>
            if af_textarea_disabled f then None
            else
              let '(s', eff) := handleSubmitAnswer_begin p s in
              Some (mkInstance s' true
                      (pending i ++ (if Js.truthy (Js.trim (answer s))
                                     then [PendingAnswer] else [])), eff)
        | None => None
        end
      else None
  | DialogClose =>
      if mounted i then
        let '(s', eff) := handleClose s in
        Some (mkInstance s' false (pending i), eff)
      else None
  | StartOutcome r =>
      l ← settle PendingStart (pending i);
      let '(s', eff) := handleStart_resume p r s in
      Some (mkInstance s' (mounted i) l, eff)
  | AnswerOutcome r =>
      l ← settle PendingAnswer (pending i);
      let '(s', eff) := handleSubmitAnswer_resume p r s in
      Some (mkInstance s' (mounted i) l, eff)
  end.

(** A run of the instance: the events that were dispatched, with the
    effects they performed, in order. *)
Fixpoint run (p : Props) (es : list Event) (i : Instance)
  : option (Instance * list Effect) :=
  match es with
  | [] => Some (i, [])
  | e :: es' =>
      '(i1, eff1) ← step p e i;
      '(i2, eff2) ← run p es' i1;
      Some (i2, eff1 ++ eff2)
  end.

Definition is_onComplete (e : Effect) : bool :=
  match e with CallOnComplete _ _ => true | _ => false end.

Definition is_request (e : Effect) : bool :=
  match e with
  | ReqStartInterview _ _ _ | ReqAnswerInterview _ _ _ => true
  | _ => false
  end.

End InterviewModal.

(** ** The session page ([app/session/[id]/page.tsx]) *)

Module SessionPage.

Record State := mkState {
  session : option GetSessionResponse;
  isLoading : bool;
  isSending : bool;
  loadingMessage : string;
  inputValue : string
}.

Definition init : State := mkState None true false "Thinking..." "".

Definition setSession f (s : State) :=
  mkState (f (session s)) (isLoading s) (isSending s) (loadingMessage s)
          (inputValue s).
Definition setIsLoading b (s : State) :=
  mkState (session s) b (isSending s) (loadingMessage s) (inputValue s).
Definition setIsSending b (s : State) :=
  mkState (session s) (isLoading s) b (loadingMessage s) (inputValue s).
Definition setLoadingMessage m (s : State) :=
  mkState (session s) (isLoading s) (isSending s) m (inputValue s).
Definition setInputValue v (s : State) :=
  mkState (session s) (isLoading s) (isSending s) (loadingMessage s) v.

Definition with_messages (l : list Message) (x : GetSessionResponse) :=
  mkSession (session_id x) (created_at x) (s_event_type x) (s_title x)
            (user_goal_text x) (context x) (s_checklist x) l.
Definition with_checklist (c : option ChecklistStructure) (x : GetSessionResponse) :=
  mkSession (session_id x) (created_at x) (s_event_type x) (s_title x)
            (user_goal_text x) (context x) c (messages x).

(** *** [loadSession] continuation *)
Definition loadSession_resume (r : Outcome GetSessionResponse) (s : State)
  : State * list Effect :=
  let '(s1, eff) :=
    match r with
    | Resolved data => (setSession (λ _, Some data) s, [])
    | Rejected _ => (s, [ConsoleError "Failed to load session:";
                         Alert "Failed to load session"])
    end in
  (setIsLoading false s1, eff).

(** *** [handleSend] *)

(** The loading message chosen from the text of the message. *)
Definition initialMessage (messageLower : string) (has_checklist : bool) : string :=
  let inc := Js.includes messageLower in
  if inc "job description" || inc "job posting" || inc "jd"
  then "Analyzing job description..."
  else if inc "interview" && (inc "type" || inc "format" || inc "style")
  then "Understanding interview format..."
  else if inc "company" || inc "role" || inc "position"
  then "Processing role details..."
  else if inc "skill" || inc "technology" || inc "tech"
  then "Analyzing required skills..."
  else if inc "timeline" || inc "when" || inc "date"
  then "Planning timeline..."
  else if negb has_checklist then "Creating your preparation plan..."
  else "Processing your message...".

Definition handleSend_begin (sessionId : string) (s : State)
  : State * list Effect :=
  match session s with
  | Some sess =>
      if negb (Js.truthy (Js.trim (inputValue s))) || isSending s then (s, [])
      else
        let userMessage := Js.trim (inputValue s) in
        let tempUserMessage := mkMessage "user" userMessage in
        (setSession
           (λ prev, match prev with
                    | Some ps => Some (with_messages (messages ps ++ [tempUserMessage]) ps)
                    | None => None
                    end)
           (setLoadingMessage
              (initialMessage (Js.toLowerCase userMessage)
                 (bool_decide (is_Some (s_checklist sess))))
              (setIsSending true (setInputValue "" s))),
         [SetTimeout 100; SetInterval 4000; ReqSendMessage sessionId userMessage])
  | None => (s, [])
  end.

Definition handleSend_resume (r : Outcome SendMessageResponse) (s : State)
  : State * list Effect :=
  let '(s1, eff) :=
    match r with
    | Resolved response =>
        (match r_messages response with
         | Some ms =>
             setSession
               (λ prev, match prev with
                        | Some ps =>
                            Some (with_checklist
                                    (match r_checklist response with
                                     | Some c => Some c
                                     | None => s_checklist ps
                                     end)
                                    (with_messages ms ps))
                        | None => None
                        end) s
         | None => s
         end, [ClearInterval])
    | Rejected errorMessage =>
        (setSession
           (λ prev, match prev with
                    | Some ps => Some (with_messages (Js.slice_0_m1 (messages ps)) ps)
                    | None => None
                    end) s,
         [ClearInterval; ConsoleError "Failed to send message:";
          ConsoleError "Error details:";
          Alert ("Failed to send message: " +:+ errorMessage)])
    end in
  (setLoadingMessage "Thinking..." (setIsSending false s1), eff ++ [ClearInterval]).

(** [onUpdate] handed to the checklist component. *)
Definition onUpdate (updatedChecklist : ChecklistStructure) (s : State) : State :=
  setSession (λ prev, match prev with
                      | Some ps => Some (with_checklist (Some updatedChecklist) ps)
                      | None => None
                      end) s.

(** *** The rendered view *)

Record ChatInput := mkInput {
  ci_textarea_disabled : bool;     (* [disabled={isSending}] *)
  ci_submit_disabled : bool        (* [disabled={!inputValue.trim() || isSending}] *)
}.

Inductive MainContent :=
| ShowChecklist (c : ChecklistStructure)
| ShowMessages (ms : list Message) (typing : bool).

Inductive View :=
| LoadingScreen
| NotFoundScreen
| SessionView (main : MainContent) (input : option ChatInput).

Definition render (s : State) : View :=
  if isLoading s then LoadingScreen
  else match session s with
       | None => NotFoundScreen
       | Some sess =>
           SessionView
             (match s_checklist sess with
              | Some c => ShowChecklist c
              | None => ShowMessages (messages sess) (isSending s)
              end)
             (match s_checklist sess with
              | Some _ => None
              | None => Some (mkInput (isSending s)
                                (negb (Js.truthy (Js.trim (inputValue s)))
                                 || isSending s))
              end)
       end.

Definition chat_input (s : State) : option ChatInput :=
  match render s with
  | SessionView _ input => input
  | _ => None
  end.

Definition shown_checklist (s : State) : option ChecklistStructure :=
  match render s with
  | SessionView (ShowChecklist c) _ => Some c
  | _ => None
  end.

(** *** The mounted page with its awaited requests *)

Record Page := mkPage {
  state : State;
  pending_load : nat;
  pending_send : nat
}.

(** After mount: the effect on [sessionId] has called [loadSession]. *)
Definition mounted : Page := mkPage init 1 0.

Inductive Event :=
| ChangeInput (v : string)
| SubmitForm
| KeyCmdEnter
| ChecklistChanged (c : ChecklistStructure)
| LoadOutcome (r : Outcome GetSessionResponse)
| SendOutcome (r : Outcome SendMessageResponse).

Definition is_send (e : Effect) : bool :=
  match e with ReqSendMessage _ _ => true | _ => false end.

(** Number of message requests among the effects. *)
Definition sends (eff : list Effect) : nat := length (List.filter is_send eff).

Definition step (sessionId : string) (e : Event) (pg : Page)
  : option (Page * list Effect) :=
  let s := state pg in
  match e with
  | ChangeInput v =>
      match chat_input s with
      | Some ci => if ci_textarea_disabled ci then None
                   else Some (mkPage (setInputValue v s) (pending_load pg)
                                (pending_send pg), [])
      | None => None
      end
  | SubmitForm =>
      match chat_input s with
      | Some ci =>
          if ci_submit_disabled ci then None
          else let '(s', eff) := handleSend_begin sessionId s in
               Some (mkPage s' (pending_load pg) (pending_send pg + sends eff), eff)
      | None => None
      end
  | KeyCmdEnter =>
      match chat_input s with
      | Some ci =>
          if ci_textarea_disabled ci then None
          else let '(s', eff) := handleSend_begin sessionId s in
               Some (mkPage s' (pending_load pg) (pending_send pg + sends eff), eff)
      | None => None
      end
  | ChecklistChanged c =>
      match shown_checklist s with
      | Some _ => Some (mkPage (onUpdate c s) (pending_load pg) (pending_send pg), [])
      | None => None
      end
  | LoadOutcome r =>
      match pending_load pg with
      | S n => let '(s', eff) := loadSession_resume r s in
               Some (mkPage s' n (pending_send pg), eff)
      | O => None
      end
  | SendOutcome r =>
      match pending_send pg with
      | S n => let '(s', eff) := handleSend_resume r s in
               Some (mkPage s' (pending_load pg) n, eff)
      | O => None
      end
  end.

Fixpoint run (sessionId : string) (es : list Event) (pg : Page)
  : option (Page * list Effect) :=
  match es with
  | [] => Some (pg, [])
  | e :: es' =>
      '(pg1, eff1) ← step sessionId e pg;
      '(pg2, eff2) ← run sessionId es' pg1;
      Some (pg2, eff1 ++ eff2)
  end.

(** State [ready] of the session, as the page sees it. *)
Definition ready (s : State) : Prop :=
  ∃ sess c, session s = Some sess ∧ s_checklist sess = Some c.

End SessionPage.

(** ** Back-end operations the front end calls

    The server side (checklist validation, regeneration, the knowledge-test
    endpoint) is not part of the sources embedded above; the three modules
    below follow its specification. *)

Module Validator.

(** Modelled from the spec: the error kinds of the validator (section 4.1
    and section 7); the validator itself is missing from the sources. *)
Inductive Error :=
| MalformedJson
| ValidationError (msg : string).

(** Modelled from the spec: an item of the parsed model output, before
    validation; the parser is missing from the sources. *)
Record RawItem := mkRawItem {
  ri_id : option string;
  ri_text : string;
  ri_status : option Status;
  ri_priority : option Priority;
  ri_estimate_minutes : option Z;
  ri_rationale : option string
}.

(** Modelled from the spec: a group of the parsed model output. *)
Record RawGroup := mkRawGroup {
  rg_key : string;
  rg_label : string;
  rg_items : list RawItem
}.

(** Modelled from the spec: the parsed model output; the required
    top-level fields may be absent. *)
Record RawChecklist := mkRaw {
  raw_title : option string;
  raw_event_type : option string;
  raw_assumptions : option (list string);
  raw_groups : option (list RawGroup);
  raw_next_3_actions : option (list string)
}.

(** Modelled from the spec: the fixed, known group keys (section 3). *)
Definition group_keys : list string :=
  ["context"; "skills"; "evidence"; "delivery"; "logistics"].

(** Modelled from the spec: "each item must have non-empty text; missing
    optional fields default"; an item without an id is assigned the next
    fresh one. The counter of fresh ids is threaded through. *)
Definition validate_item (fresh : nat → string) (gkey : string)
    (n : nat) (r : RawItem) : Error + (TodoItem * nat) :=
  if negb (Js.truthy (ri_text r)) then inl (ValidationError "item text is empty")
  else
    let '(i, n') := match ri_id r with
                    | Some i => (i, n)
                    | None => (fresh n, S n)
                    end in
    inr (mkTodoItem i gkey (ri_text r) (default Todo (ri_status r))
           (ri_priority r) (ri_estimate_minutes r) (ri_rationale r), n').

(** Modelled from the spec: validation of the items of one group, in order. *)
Fixpoint validate_items (fresh : nat → string) (gkey : string) (n : nat)
    (l : list RawItem) : Error + (list TodoItem * nat) :=
  match l with
  | [] => inr ([], n)
  | r :: l' =>
      match validate_item fresh gkey n r with
      | inl e => inl e
      | inr (i, n1) =>
          match validate_items fresh gkey n1 l' with
          | inl e => inl e
          | inr (its, n2) => inr (i :: its, n2)
          end
      end
  end.

(** Modelled from the spec: "each group's key must be one of the fixed
    enumerated set: unknown keys are dropped with a warning, not fatal". *)
Fixpoint validate_groups (fresh : nat → string) (n : nat)
    (l : list RawGroup) : Error + (list ChecklistGroup * nat) :=
  match l with
  | [] => inr ([], n)
  | g :: l' =>
      if bool_decide (rg_key g ∈ group_keys) then
        match validate_items fresh (rg_key g) n (rg_items g) with
        | inl e => inl e
        | inr (its, n1) =>
            match validate_groups fresh n1 l' with
            | inl e => inl e
            | inr (gs, n2) => inr (mkGroup (rg_key g) (rg_label g) its :: gs, n2)
            end
        end
      else validate_groups fresh n l'
  end.

(** Modelled from the spec: "[next_3_actions] is truncated to at most 3
    entries, never padded". *)
Definition validate_next_3_actions (l : list string) : list string := take 3 l.

(** Modelled from the spec: the validator of section 4.1, on the parsed
    output ([None] when the text was not parseable JSON). *)
Definition validate (fresh : nat → string) (parsed : option RawChecklist)
  : Error + ChecklistStructure :=
  match parsed with
  | None => inl MalformedJson
  | Some raw =>
      match raw_title raw, raw_event_type raw, raw_groups raw with
      | Some t, Some ev, Some gs =>
          match validate_groups fresh 0 gs with
          | inl e => inl e
          | inr (gs', _) =>
              inr (mkChecklist t ev (default [] (raw_assumptions raw)) gs'
                     (validate_next_3_actions (default [] (raw_next_3_actions raw))))
          end
      | _, _, _ => inl (ValidationError "missing required field")
      end
  end.

End Validator.

Module Regeneration.

Section CarryForward.

(** Modelled from the spec: the text normalisation used to match items
    across regenerations; the spec does not fix it, so it is a
    parameter of the reconciliation pass. *)
Variable normalize : string → string.

(** Modelled from the spec: the index of the reconciliation pass, the
    normalised texts of the existing items that are done. *)
Definition done_index (old : ChecklistStructure) : gset string :=
  foldr (λ i acc, match status i with
                  | Done => {[ normalize (text i) ]} ∪ acc
                  | Todo => acc
                  end) ∅ (ChecklistView.all_items old).

(** Modelled from the spec: the carry-forward of one generated item,
    "copy status from old items on match". *)
Definition carry_item (idx : gset string) (i : TodoItem) : TodoItem :=
  if bool_decide (normalize (text i) ∈ idx)
  then ChecklistView.with_status Done i else i.

(** Modelled from the spec: regeneration with the carry-forward rule
    (sections 3, 4.3 and 9): the generated checklist, with done-status
    preserved from the existing one. *)
Definition regenerate (old generated : ChecklistStructure) : ChecklistStructure :=
  let idx := done_index old in
  ChecklistView.with_groups
    (map (λ g, ChecklistView.with_items (map (carry_item idx) (items g)) g)
         (groups generated))
    generated.

End CarryForward.

End Regeneration.

Module KnowledgeTest.

(** Modelled from the spec: "[total] is fixed at 4" (section 4.5). *)
Definition total : nat := 4.

(** Modelled from the spec: the pass threshold 7.0 (section 3). *)
Definition pass_threshold : Q := 7.

(** Modelled from the spec: the error kinds of section 7 the sub-dialogue
    can raise. *)
Inductive Error :=
| InvalidId
| InvalidState
| NotFound
| UpstreamUnavailable.

(** Modelled from the spec: the calls of the LLM gateway the sub-dialogue
    uses (section 4.2); [None] is a terminal failure of the call. *)
Record Gateway := mkGateway {
  generateInterviewQuestion : string → list string → option string;
  evaluateAnswer : string → string → option string;
  summarizeInterview : list (string * string * string) → option (Q * string)
}.

(** Modelled from the spec: [asking(n)] and [complete]; [not_started] is
    the absence of a sub-dialogue for the item. *)
Inductive Phase :=
| Asking (n : nat)
| Complete (rating : Q) (passed : bool).

(** Modelled from the spec: the sub-dialogue state of section 3. *)
Record SubDialogue := mkSub {
  topic : string;
  asked : list string;
  transcript : list (string * string * string);
  phase : Phase
}.

(** Modelled from the spec: the store of sub-dialogues, keyed by
    (session id, todo item id). *)
Abbreviation Store := (gmap (string * string) SubDialogue).

(** Modelled from the spec: transition [start] on a fresh sub-dialogue. *)
Definition start_dialogue (gw : Gateway) (todo_text : string)
  : Error + (SubDialogue * InterviewResponse) :=
  match generateInterviewQuestion gw todo_text [] with
  | None => inl UpstreamUnavailable
  | Some q =>
      inr (mkSub todo_text [q] [] (Asking 1),
           mkInterviewResp (Some (mkQuestion q 1 total)) None false None None None)
  end.

(** Modelled from the spec: transition [start] of section 4.5, with its
    UUID guard: "reject otherwise with InvalidId, no state created". *)
Definition start (gw : Gateway) (sid todo_id todo_text : string) (st : Store)
  : Error + (Store * InterviewResponse) :=
  if negb (Uuid.test Uuid.uuidRegex todo_id) then inl InvalidId
  else match start_dialogue gw todo_text with
       | inl e => inl e
       | inr (sd, resp) => inr (<[(sid, todo_id) := sd]> st, resp)
       end.

(** Modelled from the spec: transition [answer] on one sub-dialogue. *)
Definition answer_dialogue (gw : Gateway) (ans : string) (sd : SubDialogue)
  : Error + (SubDialogue * InterviewResponse) :=
  match phase sd with
  | Complete _ _ => inl InvalidState
  | Asking n =>
      let q := default "" (last (asked sd)) in
      match evaluateAnswer gw q ans with
      | None => inl UpstreamUnavailable
      | Some fb =>
          let tr := transcript sd ++ [(q, ans, fb)] in
          if (n <? total)%nat then
            match generateInterviewQuestion gw (topic sd) (asked sd) with
            | None => inl UpstreamUnavailable
            | Some q' =>
                inr (mkSub (topic sd) (asked sd ++ [q']) tr (Asking (S n)),
                     mkInterviewResp (Some (mkQuestion q' (S n) total))
                       (Some fb) false None None None)
            end
          else
            match summarizeInterview gw tr with
            | None => inl UpstreamUnavailable
            | Some (r, overall) =>
                let ok := Qle_bool pass_threshold r in
                inr (mkSub (topic sd) (asked sd) tr (Complete r ok),
                     mkInterviewResp None (Some fb) true (Some overall)
                       (Some r) (Some ok))
            end
      end
  end.

(** Modelled from the spec: transition [answer] of section 4.5 on the
    store; a failed call leaves the store as it was. *)
Definition answer (gw : Gateway) (sid todo_id ans : string) (st : Store)
  : Error + (Store * InterviewResponse) :=
  match st !! (sid, todo_id) with
  | None => inl NotFound
  | Some sd =>
      match answer_dialogue gw ans sd with
      | inl e => inl e
      | inr (sd', resp) => inr (<[(sid, todo_id) := sd']> st, resp)
      end
  end.

(** Modelled from the spec: a sequence of [answer] calls on one
    sub-dialogue, each with the behaviour of the gateway during that call;
    the result of every call is recorded, and a failed call leaves the
    sub-dialogue as it was. *)
Fixpoint answer_all (calls : list (Gateway * string)) (sd : SubDialogue)
  : SubDialogue * list (Error + InterviewResponse) :=
  match calls with
  | [] => (sd, [])
  | (gw, a) :: calls' =>
      match answer_dialogue gw a sd with
      | inl e => let '(sd', rs) := answer_all calls' sd in (sd', inl e :: rs)
      | inr (sd1, resp) =>
          let '(sd', rs) := answer_all calls' sd1 in (sd', inr resp :: rs)
      end
  end.

(** Modelled from the spec: the responses of the accepted calls. *)
Definition accepted (rs : list (Error + InterviewResponse)) : list InterviewResponse :=
  omap (λ r, match r with inr resp => Some resp | inl _ => None end) rs.

(** Modelled from the spec: the questions a list of responses carries. *)
Definition questions (rs : list InterviewResponse) : list InterviewQuestion :=
  omap ir_question rs.

(** Modelled from the spec: the terminal state [complete]. *)
Definition is_Complete (ph : Phase) : bool :=
  match ph with Complete _ _ => true | Asking _ => false end.

End KnowledgeTest.

(** ** How the checklist component mounts the modal *)

Module Wiring.

(** Props of the [<InterviewModal>] element in the JSX of the checklist:
    present only when [interviewTodoId && interviewTodoText]. *)
Definition modal_props (p : ChecklistView.Props) (st : ChecklistView.State)
  : option InterviewModal.Props :=
  match ChecklistView.interviewTodoId st, ChecklistView.interviewTodoText st with
  | Some tid, Some txt =>
      if Js.truthy tid && Js.truthy txt
      then Some (InterviewModal.mkProps (ChecklistView.sessionId p) tid txt true)
      else None
  | _, _ => None
  end.

(** The timer callback armed by [onComplete]: it looks the item up in the
    checklist of the render [closure] that created it and, unless the item
    is already done, calls [handleToggleTodo] of that render; [now] is the
    state of the component when the timer fires. Returns the requests
    issued. *)
Definition onComplete_timer (p : ChecklistView.Props)
    (closure now : ChecklistView.State)
  : ChecklistView.State * list Effect :=
  match ChecklistView.onComplete_timer_item closure with
  | Some item =>
      let '(st', eff, _) :=
        ChecklistView.handleToggleTodo_begin p (ChecklistView.checklist closure)
          item now in
      (st', eff)
  | None => (now, [])
  end.

(** Point updates requested as a consequence of the effects of the modal:
    every [onComplete] call that arms the timer runs the timer callback. *)
Fixpoint updates_of (p : ChecklistView.Props) (closure : ChecklistView.State)
    (eff : list Effect) : list Effect :=
  match eff with
  | [] => []
  | CallOnComplete passed rating :: eff' =>
      match ChecklistView.onComplete closure passed rating with
      | [] => updates_of p closure eff'
      | _ => (onComplete_timer p closure closure).2 ++ updates_of p closure eff'
      end
  | _ :: eff' => updates_of p closure eff'
  end.

End Wiring.

(** ** Further parts of the components *)

(** *** Progress header of the checklist ([components/checklist.tsx]) *)

Module Progress.

(** [checklist.groups.reduce((sum, group) => sum + group.items.length, 0)] *)
Definition totalItems (c : ChecklistStructure) : nat :=
  fold_left (λ sum group, sum + length (items group)) (groups c) 0.

(** [checklist.groups.reduce((sum, group) =>
       sum + group.items.filter((item) => item.status === "done").length, 0)] *)
Definition completedItems (c : ChecklistStructure) : nat :=
  fold_left
    (λ sum group,
       sum + length (List.filter (λ item, bool_decide (status item = Done))
                       (items group)))
    (groups c) 0.

End Progress.

(** *** The checklist component with the updates it awaits *)

Module ChecklistSys.

(** The component state and, in the order they were started, the
    continuations of [handleToggleTodo] that still await [updateTodo]. *)
Record Sys := mkSys {
  view : ChecklistView.State;
  awaited : list ChecklistView.ToggleClosure
}.

Definition mounted (initialChecklist : ChecklistStructure) : Sys :=
  mkSys (ChecklistView.init initialChecklist) [].

(** [handleToggleTodo] is called from two places: the toggle button of an
    item, and the timer that [onComplete] arms when a knowledge test is
    passed. The modal calls the [onComplete] of the render [k] in which the
    answer was submitted, whatever the checklist has rendered since (also
    after the dialog was closed), so the timer callback works on the
    [checklist], the [interviewTodoId] and the [handleToggleTodo] of [k]. *)
Inductive Event :=
| User (e : ChecklistView.Event)
| UpdateOutcome (n : nat) (r : Outcome TodoItem)    (* of the [n]-th awaited one *)
| CompletionTimer (k : ChecklistView.State).       (* armed by [onComplete] of [k] *)

Definition is_timer (e : Event) : bool :=
  match e with CompletionTimer _ => true | _ => false end.

Definition step (p : ChecklistView.Props) (e : Event) (s : Sys)
  : option (Sys * list Effect) :=
  match e with
  | User (ChecklistView.ClickToggle gi ii) =>
      '(g, i) ← ChecklistView.item_at (ChecklistView.checklist (view s)) gi ii;
      if ChecklistView.iv_toggle_disabled (ChecklistView.render_item (view s) g i)
      then None
      else
        let '(st', eff, k) :=
          ChecklistView.handleToggleTodo_begin p
            (ChecklistView.checklist (view s)) i (view s) in
        Some (mkSys st' (awaited s ++ [k]), eff)
  | User e' =>
      '(st', eff) ← ChecklistView.dispatch p e' (view s);
      Some (mkSys st' (awaited s), eff)
  | UpdateOutcome n r =>
      k ← awaited s !! n;
      let '(st', eff) := ChecklistView.handleToggleTodo_resume p k r (view s) in
      Some (mkSys st' (delete n (awaited s)), eff)
  | CompletionTimer k =>
      (* [onComplete] is a prop of the modal, which [k] must have rendered;
         [interviewTodoId] of [k] is then truthy, the test of [onComplete]
         on a passed completion. The callback does not look at
         [updatingIds]. *)
      if ChecklistView.modal_mounted k then
        match ChecklistView.onComplete_timer_item k with
        | Some item =>
            let '(st', eff, c) :=
              ChecklistView.handleToggleTodo_begin p (ChecklistView.checklist k)
                item (view s) in
            Some (mkSys st' (awaited s ++ [c]), eff)
        | None => Some (s, [])
        end
      else None
  end.

Fixpoint run (p : ChecklistView.Props) (es : list Event) (s : Sys)
  : option (Sys * list Effect) :=
  match es with
  | [] => Some (s, [])
  | e :: es' =>
      '(s1, eff1) ← step p e s;
      '(s2, eff2) ← run p es' s1;
      Some (s2, eff1 ++ eff2)
  end.

(** Ids of the items whose update is awaited. *)
Definition awaited_ids (s : Sys) : list string :=
  map (λ k, id (ChecklistView.tc_item k)) (awaited s).

End ChecklistSys.

(** *** Progress bars of the modal ([components/interview-modal.tsx]) *)

Module ModalProgress.

Inductive BarColour := Green | Blue | Gray.

(** Class of the bar with index [i]:
    [i < question_number ? "bg-green-500"
       : i === question_number - 1 ? "bg-blue-500" : "bg-gray-200"]. *)
Definition bar_colour (q : InterviewQuestion) (i : nat) : BarColour :=
  if (i <? question_number q)%nat then Green
  else if (Z.of_nat i =? Z.of_nat (question_number q) - 1)%Z then Blue
  else Gray.

(** [Array.from({ length: total_questions }).map((_, i) => ...)] *)
Definition progress_bars (q : InterviewQuestion) : list BarColour :=
  map (bar_colour q) (seq 0 (total_questions q)).

End ModalProgress.

(** *** Settling of the requests ([lib/api.ts]) *)

Module Api.

(** What [fetch] resolves with, as far as the wrappers look at it. *)
Record Response := mkResponse {
  ok : bool;
  statusText : string;
  body : string                 (* [await response.text()] *)
}.

Section Settle.

(** [response.json()]: the parsed body, or the error of the parser. *)
Context {A : Type} (json : string → Outcome A).

(** [startInterview] after its [fetch]: a rejected [fetch] propagates. *)
Definition startInterview (f : Outcome Response) : Outcome A :=
  match f with
  | Rejected m => Rejected m
  | Resolved response =>
      if negb (ok response)
      then Rejected ("Failed to start interview: " +:+ statusText response
                     +:+ " - " +:+ body response)
      else json (body response)
  end.

(** [sendMessage] after its [fetch]. *)
Definition sendMessage (f : Outcome Response) : Outcome A * list Effect :=
  match f with
  | Rejected m => (Rejected m, [])
  | Resolved response =>
      if negb (ok response)
      then (Rejected ("Failed to send message: " +:+ statusText response
                      +:+ " - " +:+ body response),
            [ConsoleError "API Error:"])
      else (json (body response), [])
  end.

End Settle.

End Api.

(** *** Effects of the home page and of the sidebar *)

Inductive ShellEffect :=
| ShAlert (msg : string)
| ShConsoleError (msg : string)
| ShPreventDefault
| ShStopPropagation
| ShConfirm (msg : string)
| ShRouterPush (path : string)
| ReqCreateSession (user_goal_text : string)
| ReqDeleteSession (sessionId : string)
| ReqListSessions.

Record CreateSessionResponse := mkCreateResp {
  cr_session_id : string;
  cr_event_type : string;
  cr_title : string
}.

Record SessionListItem := mkListItem {
  li_session_id : string;
  li_title : string;
  li_event_type : string;
  li_created_at : string
}.

(** *** The home page ([app/page.tsx]) *)

Module HomePage.

Record State := mkState {
  userGoal : string;
  isLoading : bool
}.

Definition init : State := mkState "" false.

Definition EXAMPLE_INTERVIEWS : list string :=
  [ "I have a frontend interview in 10 days";
    "I have a backend developer interview next week";
    "Full-stack engineer interview coming up";
    "I have a data science interview in 2 weeks";
    "Product manager interview next month";
    "UX designer interview in 5 days" ].

(** [handleSubmit] up to [await createSession(...)]. *)
Definition handleSubmit_begin (s : State) : State * list ShellEffect :=
  if negb (Js.truthy (Js.trim (userGoal s))) then (s, [ShPreventDefault])
  else (mkState (userGoal s) true, [ShPreventDefault; ReqCreateSession (userGoal s)]).

(** [handleSubmit] after the [await]. *)
Definition handleSubmit_resume (r : Outcome CreateSessionResponse) (s : State)
  : State * list ShellEffect :=
  match r with
  | Resolved response =>
      (mkState "" (isLoading s),
       [ShRouterPush ("/session/" +:+ cr_session_id response)])
  | Rejected errorMessage =>
      (mkState (userGoal s) false,
       [ShConsoleError "Failed to create session:"; ShAlert errorMessage])
  end.

(** [handleExampleClick] *)
Definition handleExampleClick (example : string) (s : State) : State :=
  mkState example (isLoading s).

Record View := mkView {
  v_examples : option (list string);   (* rendered when [!userGoal] *)
  v_textarea_disabled : bool;          (* [disabled={isLoading}] *)
  v_submit_disabled : bool             (* [disabled={!userGoal.trim() || isLoading}] *)
}.

Definition render (s : State) : View :=
  mkView (if Js.truthy (userGoal s) then None else Some EXAMPLE_INTERVIEWS)
         (isLoading s)
         (negb (Js.truthy (Js.trim (userGoal s))) || isLoading s).

(** The page with the number of [createSession] calls it awaits. *)
Record Page := mkPage { state : State; pending : nat }.

Definition mounted : Page := mkPage init 0.

Inductive Event :=
| ChangeGoal (v : string)
| ClickExample (n : nat)
| SubmitForm
| KeyCmdEnter
| CreateOutcome (r : Outcome CreateSessionResponse).

Definition creations (eff : list ShellEffect) : nat :=
  length (List.filter (λ e, match e with ReqCreateSession _ => true | _ => false end) eff).

Definition step (e : Event) (pg : Page) : option (Page * list ShellEffect) :=
  let s := state pg in
  match e with
  | ChangeGoal v =>
      if v_textarea_disabled (render s) then None
      else Some (mkPage (mkState v (isLoading s)) (pending pg), [])
  | ClickExample n =>
      match v_examples (render s) with
      | Some examples =>
          example ← examples !! n;
          Some (mkPage (handleExampleClick example s) (pending pg), [])
      | None => None
      end
  | SubmitForm =>
      if v_submit_disabled (render s) then None
      else let '(s', eff) := handleSubmit_begin s in
           Some (mkPage s' (pending pg + creations eff), eff)
  | KeyCmdEnter =>
      if v_textarea_disabled (render s) then None
      else let '(s', eff) := handleSubmit_begin s in
           Some (mkPage s' (pending pg + creations eff), ShPreventDefault :: eff)
  | CreateOutcome r =>
      match pending pg with
      | S n => let '(s', eff) := handleSubmit_resume r s in
               Some (mkPage s' n, eff)
      | O => None
      end
  end.

Fixpoint run (es : list Event) (pg : Page) : option (Page * list ShellEffect) :=
  match es with
  | [] => Some (pg, [])
  | e :: es' =>
      '(pg1, eff1) ← step e pg;
      '(pg2, eff2) ← run es' pg1;
      Some (pg2, eff1 ++ eff2)
  end.

End HomePage.

(** *** The sidebar ([components/sidebar.tsx]) *)

Module Sidebar.

Record State := mkState {
  sessions : list SessionListItem;
  isLoading : bool;
  isOpen : bool
}.

Definition init : State := mkState [] true true.

(** [loadSessions] after [await listSessions()]. *)
Definition loadSessions_resume (r : Outcome (list SessionListItem)) (s : State)
  : State * list ShellEffect :=
  match r with
  | Resolved data => (mkState data false (isOpen s), [])
  | Rejected _ =>
      (mkState (sessions s) false (isOpen s),
       [ShConsoleError "Failed to load sessions:"])
  end.

(** What the continuation of [handleDeleteSession] keeps from its render. *)
Record DeleteClosure := mkDeleteClosure {
  dc_sessions : list SessionListItem;
  dc_pathname : string;
  dc_sessionId : string
}.

(** [handleDeleteSession] up to [await deleteSession(sessionId)];
    [confirmed] is the answer to the [confirm] dialog. *)
Definition handleDeleteSession_begin (pathname sessionId : string)
    (confirmed : bool) (s : State)
  : list ShellEffect * option DeleteClosure :=
  if negb confirmed
  then ([ShStopPropagation; ShConfirm "Are you sure you want to delete this chat?"],
        None)
  else ([ShStopPropagation; ShConfirm "Are you sure you want to delete this chat?";
         ReqDeleteSession sessionId],
        Some (mkDeleteClosure (sessions s) pathname sessionId)).

(** [handleDeleteSession] after the [await]. *)
Definition handleDeleteSession_resume (k : DeleteClosure) (r : Outcome unit)
    (s : State) : State * list ShellEffect :=
  match r with
  | Resolved _ =>
      (mkState
         (filter (λ x, li_session_id x ≠ dc_sessionId k) (dc_sessions k))
         (isLoading s) (isOpen s),
       if String.eqb (dc_pathname k) ("/session/" +:+ dc_sessionId k)
       then [ShRouterPush "/"] else [])
  | Rejected _ =>
      (s, [ShConsoleError "Failed to delete session:";
           ShAlert "Failed to delete session. Please try again."])
  end.

(** [isActive] *)
Definition isActive (pathname sessionId : string) : bool :=
  String.eqb pathname ("/session/" +:+ sessionId).

Inductive DateLabel :=
| Today
| Yesterday
| DaysAgo (n : Z)
| LocaleDate.        (* [date.toLocaleDateString("en-US", ...)] *)

(** [formatDate]: [date] is [new Date(dateString).getTime()] in
    milliseconds, [None] when the string is not a date (NaN, for which every
    comparison fails); [now] is [new Date().getTime()]. The quotient of the
    two integers is exact wherever it is below 7. *)
Definition formatDate (date : option Z) (now : Z) : DateLabel :=
  match date with
  | None => LocaleDate
  | Some d =>
      let diffTime := Z.abs (now - d) in
      let diffDays := (diffTime / (1000 * 60 * 60 * 24))%Z in
      if (diffDays =? 0)%Z then Today
      else if (diffDays =? 1)%Z then Yesterday
      else if (diffDays <? 7)%Z then DaysAgo diffDays
      else LocaleDate
  end.

Inductive ListView :=
| LoadingList
| NoPreviousChats
| SessionList (rows : list (SessionListItem * bool)).   (* with [isActive] *)

Inductive View :=
| Collapsed
| Open (list_view : ListView).

Definition render (pathname : string) (s : State) : View :=
  if negb (isOpen s) then Collapsed
  else Open (if isLoading s then LoadingList
             else if (length (sessions s) =? 0)%nat then NoPreviousChats
             else SessionList
                    (map (λ x, (x, isActive pathname (li_session_id x)))
                         (sessions s))).

End Sidebar.

(** Two items that differ at most in their status. *)
Definition same_but_status (a b : TodoItem) : Prop :=
  id a = id b ∧ group_key a = group_key b ∧ text a = text b ∧
  priority a = priority b ∧ estimate_minutes a = estimate_minutes b ∧
  rationale a = rationale b.

(** ** Invariants of the event models *)

(** Invariant of a mounted modal with [n] completions reported so far: at
    most one request is awaited, the form is locked while it is, and after a
    reported completion nothing is awaited and the form is gone. *)
Definition modal_inv (i : InterviewModal.Instance) (n : nat) : Prop :=
  length (InterviewModal.pending i) ≤ 1 ∧
  (InterviewModal.mounted i = true → InterviewModal.pending i ≠ [] →
   InterviewModal.isLoading (InterviewModal.state i) = true) ∧
  (n = 0 ∨
   (n = 1 ∧ InterviewModal.pending i = [] ∧
    (InterviewModal.mounted i = false ∨
     InterviewModal.isComplete (InterviewModal.state i) = true))).

(** Invariant of the session page: the load is awaited only before the
    session is known, and a message request is awaited only while sending,
    on a session that has no checklist yet. *)
Definition page_inv (pg : SessionPage.Page) : Prop :=
  SessionPage.pending_load pg ≤ 1 ∧
  (SessionPage.pending_load pg = 1 →
   SessionPage.session (SessionPage.state pg) = None ∧
   SessionPage.pending_send pg = 0) ∧
  SessionPage.pending_send pg ≤ 1 ∧
  (SessionPage.pending_send pg = 1 →
   SessionPage.isSending (SessionPage.state pg) = true ∧
   ∃ sess, SessionPage.session (SessionPage.state pg) = Some sess ∧
           s_checklist sess = None).

(** Number of answers a sub-dialogue has accepted, read off its phase. *)
Definition answered (ph : KnowledgeTest.Phase) : nat :=
  match ph with
  | KnowledgeTest.Asking n => n - 1
  | KnowledgeTest.Complete _ _ => KnowledgeTest.total
  end.

(** Invariant of a sub-dialogue: the question index stays within 1..total. *)
Definition phase_ok (ph : KnowledgeTest.Phase) : Prop :=
  match ph with
  | KnowledgeTest.Asking n => 1 ≤ n ≤ KnowledgeTest.total
  | KnowledgeTest.Complete _ _ => True
  end.

(** A gateway none of whose calls fails. *)
Definition gateway_available (gw : KnowledgeTest.Gateway) : Prop :=
  (∀ t l, is_Some (KnowledgeTest.generateInterviewQuestion gw t l)) ∧
  (∀ q a, is_Some (KnowledgeTest.evaluateAnswer gw q a)) ∧
  (∀ tr, is_Some (KnowledgeTest.summarizeInterview gw tr)).

(** Number of completions the modal has reported among its effects. *)
Definition completions (eff : list Effect) : nat :=
  length (List.filter InterviewModal.is_onComplete eff).

(** The requests among a list of effects. *)
Definition requests (eff : list Effect) : list Effect :=
  List.filter
    (λ e, match e with
          | ReqUpdateTodo _ _ _ | ReqStartInterview _ _ _
          | ReqAnswerInterview _ _ _ | ReqSendMessage _ _ => true
          | _ => false
          end) eff.

(** * Properties *)

(** ** Presentation of groups and items *)

Lemma render_group_None st g :
  ChecklistView.render_group st g = None ↔ items g = [].
Proof.
  unfold ChecklistView.render_group.
  destruct (items g) as [|i l]; simpl; split; intros; done.
Qed.

Lemma presented_cards_spec st card :
  card ∈ ChecklistView.presented_cards st ↔
  ∃ g, g ∈ groups (ChecklistView.checklist st) ∧
       ChecklistView.render_group st g = Some card.
Proof.
  unfold ChecklistView.presented_cards, ChecklistView.render_groups.
  rewrite list_elem_of_omap. split.
  - intros (o & Ho & Hc). apply list_elem_of_fmap in Ho as (g & -> & Hg).
    exists g. split; [done|]. by rewrite Hc.
  - intros (g & Hg & Hr). exists (Some card). split; [|done].
    apply list_elem_of_fmap. exists g. by rewrite Hr.
Qed.

(** C9. A group whose item list is empty renders nothing, and every group
    with at least one item is presented as a card showing exactly its
    items; conversely every presented card comes from a non-empty group. *)
Theorem empty_groups_are_suppressed (st : ChecklistView.State) (g : ChecklistGroup) :
  g ∈ groups (ChecklistView.checklist st) →
  (items g = [] → ChecklistView.render_group st g = None) ∧
  (items g ≠ [] →
   ∃ card, ChecklistView.render_group st g = Some card ∧
           card ∈ ChecklistView.presented_cards st ∧
           ChecklistView.card_key card = key g ∧
           ChecklistView.card_label card = label g ∧
           map ChecklistView.iv_item (ChecklistView.card_items card) = items g) ∧
  (∀ card, card ∈ ChecklistView.presented_cards st →
           ∃ g', g' ∈ groups (ChecklistView.checklist st) ∧ items g' ≠ [] ∧
                 ChecklistView.render_group st g' = Some card).
Proof.
  intros Hg. split; [|split].
  - intros He. by apply render_group_None.
  - intros Hne.
    destruct (ChecklistView.render_group st g) as [card|] eqn:Hr.
    + exists card. split; [done|]. split.
      { apply presented_cards_spec. eauto. }
      unfold ChecklistView.render_group in Hr.
      destruct (length (items g) =? 0)%nat; [done|]. simplify_eq. simpl.
      split; [done|]. split; [done|].
      rewrite <- list_fmap_compose. apply list_fmap_id.
    + apply render_group_None in Hr. done.
  - intros card (g' & Hg' & Hr)%presented_cards_spec.
    exists g'. split; [done|]. split; [|done].
    intros He. pose proof (proj2 (render_group_None st g') He). congruence.
Qed.

Lemma empty_groups_are_suppressed_witness :
  let c := mkChecklist "t" "interview" []
             [mkGroup "context" "Context" [];
              mkGroup "skills" "Skills" [mkTodoItem "a" "skills" "x" Todo None None None]]
             [] in
  ChecklistView.render_group (ChecklistView.init c) (mkGroup "context" "Context" []) = None.
Proof.
  intros c.
  apply (empty_groups_are_suppressed (ChecklistView.init c) (mkGroup "context" "Context" [])).
  - simpl. apply list_elem_of_here.
  - reflexivity.
Defined.

Lemma offers_test_knowledge_spec g i :
  ChecklistView.offers_test_knowledge g i = true ↔
  key g = "skills" ∧ status i ≠ Done.
Proof.
  unfold ChecklistView.offers_test_knowledge.
  rewrite andb_true_iff, String.eqb_eq, negb_true_iff, bool_decide_eq_false.
  done.
Qed.

Lemma onClick_testKnowledge_id item st st' eff :
  ChecklistView.onClick_testKnowledge item st = (st', eff) →
  ChecklistView.interviewTodoId st' = ChecklistView.interviewTodoId st ∨
  ChecklistView.interviewTodoId st' = Some (id item).
Proof.
  unfold ChecklistView.onClick_testKnowledge.
  destruct (negb _); intros [= <- <-]; simpl; auto.
Qed.

(** C10. The "Test Knowledge" button is rendered exactly for the items of a
    group whose key is "skills" that are not done; no event of the checklist
    view selects an item for a knowledge test except a click on that
    button, and for an item of another group or a done item the click
    cannot be dispatched. *)
Theorem test_knowledge_only_for_open_skills_items
    (p : ChecklistView.Props) (st : ChecklistView.State) :
  (∀ g i, ChecklistView.iv_test_knowledge (ChecklistView.render_item st g i) = true ↔
          key g = "skills" ∧ status i ≠ Done) ∧
  (∀ e st' eff tid,
     ChecklistView.dispatch p e st = Some (st', eff) →
     ChecklistView.interviewTodoId st' = Some tid →
     ChecklistView.interviewTodoId st = Some tid ∨
     ∃ gi ii g i, e = ChecklistView.ClickTestKnowledge gi ii ∧
                  ChecklistView.item_at (ChecklistView.checklist st) gi ii = Some (g, i) ∧
                  key g = "skills" ∧ status i ≠ Done ∧ tid = id i) ∧
  (∀ gi ii g i,
     ChecklistView.item_at (ChecklistView.checklist st) gi ii = Some (g, i) →
     key g ≠ "skills" ∨ status i = Done →
     ChecklistView.dispatch p (ChecklistView.ClickTestKnowledge gi ii) st = None).
Proof.
  split; [|split].
  - intros g i. simpl. apply offers_test_knowledge_spec.
  - intros e st' eff tid Hd Htid. destruct e as [gi ii|gi ii|]; simpl in Hd.
    + destruct (ChecklistView.item_at _ gi ii) as [[g i]|]; [|done]. simpl in Hd.
      destruct (bool_decide _); [done|]. simplify_eq. simpl in Htid. auto.
    + destruct (ChecklistView.item_at _ gi ii) as [[g i]|] eqn:Hat; [|done].
      simpl in Hd.
      destruct (ChecklistView.offers_test_knowledge g i) eqn:Ho; [|done].
      apply offers_test_knowledge_spec in Ho as [Hk Hs]. simplify_eq.
      destruct (onClick_testKnowledge_id _ _ _ _ Hd) as [Heq|Heq].
      * left. congruence.
      * right. exists gi, ii, g, i. rewrite Heq in Htid. by simplify_eq.
    + destruct (ChecklistView.modal_mounted st); [|done]. simplify_eq.
  - intros gi ii g i Hat Hno. simpl. rewrite Hat. simpl.
    destruct (ChecklistView.offers_test_knowledge g i) eqn:Ho; [|done].
    apply offers_test_knowledge_spec in Ho as [Hk Hs]. destruct Hno; done.
Qed.

Lemma test_knowledge_only_for_open_skills_items_witness :
  let done_skill := mkTodoItem "11111111-2222-3333-4444-555555555555" "skills"
                      "Review closures" Done None None None in
  let c := mkChecklist "t" "interview" []
             [mkGroup "skills" "Skills / Knowledge Prep" [done_skill]] [] in
  ChecklistView.dispatch (ChecklistView.mkProps "s" true)
    (ChecklistView.ClickTestKnowledge 0 0) (ChecklistView.init c) = None.
Proof.
  intros done_skill c.
  apply (proj2 (proj2 (test_knowledge_only_for_open_skills_items
                         (ChecklistView.mkProps "s" true) (ChecklistView.init c)))
           0 0 (mkGroup "skills" "Skills / Knowledge Prep" [done_skill]) done_skill).
  - reflexivity.
  - right. reflexivity.
Defined.

(** ** Toggling an item *)

Lemma item_at_updatedChecklist c item gi ii :
  ChecklistView.item_at (ChecklistView.updatedChecklist c item) gi ii =
  (λ '(g, i),
     (ChecklistView.with_items
        (map (λ i, if String.eqb (id i) (id item)
                   then ChecklistView.with_status (ChecklistView.newStatus item) i
                   else i) (items g)) g,
      if String.eqb (id i) (id item)
      then ChecklistView.with_status (ChecklistView.newStatus item) i else i))
  <$> ChecklistView.item_at c gi ii.
Proof.
  unfold ChecklistView.item_at, ChecklistView.updatedChecklist. simpl.
  rewrite list_lookup_fmap.
  destruct (groups c !! gi) as [g|]; [|done]. simpl.
  rewrite list_lookup_fmap. by destruct (items g !! ii).
Qed.

Lemma handleToggleTodo_checklist p item r st :
  ChecklistView.checklist (ChecklistView.handleToggleTodo p item (Resolved r) st).1 =
  ChecklistView.updatedChecklist (ChecklistView.checklist st) item.
Proof. reflexivity. Qed.

Lemma with_status_same i : ChecklistView.with_status (status i) i = i.
Proof. by destruct i. Qed.



Lemma item_at_elem c gi ii g i :
  ChecklistView.item_at c gi ii = Some (g, i) → i ∈ ChecklistView.all_items c.
Proof.
  unfold ChecklistView.item_at, ChecklistView.all_items. intros H.
  destruct (groups c !! gi) as [g'|] eqn:Hg; [|done]. simpl in H.
  destruct (items g' !! ii) as [i'|] eqn:Hi; [|done]. simpl in H. simplify_eq.
  apply list_elem_of_In, in_flat_map. exists g. split; apply list_elem_of_In.
  - eapply list_elem_of_lookup_2; eassumption.
  - eapply list_elem_of_lookup_2; eassumption.
Qed.




(** ** The session page *)

Lemma slice_0_m1_snoc {A} (l : list A) (x : A) : Js.slice_0_m1 (l ++ [x]) = l.
Proof.
  unfold Js.slice_0_m1. rewrite length_app. simpl.
  replace (length l + 1 - 1) with (length l) by lia.
  by rewrite take_app_length.
Qed.

Lemma with_messages_id sess : SessionPage.with_messages (messages sess) sess = sess.
Proof. by destruct sess. Qed.

(** A dispatched message request comes from a state with a session, a
    non-blank input, and no other message being sent. *)
Lemma handleSend_begin_dispatches sid s :
  SessionPage.sends (SessionPage.handleSend_begin sid s).2 = 1 →
  ∃ sess, SessionPage.session s = Some sess ∧ SessionPage.isSending s = false ∧
          SessionPage.session (SessionPage.handleSend_begin sid s).1 =
            Some (SessionPage.with_messages
                    (messages sess ++ [mkMessage "user" (Js.trim (SessionPage.inputValue s))])
                    sess) ∧
          SessionPage.isSending (SessionPage.handleSend_begin sid s).1 = true.
Proof.
  unfold SessionPage.handleSend_begin.
  destruct (SessionPage.session s) as [sess|] eqn:Hs; [|done].
  destruct (negb _ || SessionPage.isSending s) eqn:Hg; [done|].
  apply orb_false_iff in Hg as [_ Hsend]. intros _. exists sess. simpl.
  rewrite Hs. done.
Qed.

Lemma chat_input_Some s ci :
  SessionPage.chat_input s = Some ci →
  SessionPage.isLoading s = false ∧
  ci = SessionPage.mkInput (SessionPage.isSending s)
         (negb (Js.truthy (Js.trim (SessionPage.inputValue s))) || SessionPage.isSending s) ∧
  ∃ sess, SessionPage.session s = Some sess ∧ s_checklist sess = None.
Proof.
  unfold SessionPage.chat_input, SessionPage.render.
  destruct (SessionPage.isLoading s); [done|].
  destruct (SessionPage.session s) as [sess|]; [|done].
  destruct (s_checklist sess) eqn:Hc; [done|].
  intros [= <-]. eauto.
Qed.

Lemma chat_input_ready s : SessionPage.ready s → SessionPage.chat_input s = None.
Proof.
  intros (sess & c & Hs & Hc).
  destruct (SessionPage.chat_input s) as [ci|] eqn:Hci; [|done].
  apply chat_input_Some in Hci as (_ & _ & sess' & Hs' & Hc'). congruence.
Qed.

Lemma handleSend_begin_cases sid s :
  let r := SessionPage.handleSend_begin sid s in
  (r = (s, []) ∧ SessionPage.sends r.2 = 0) ∨
  (SessionPage.sends r.2 = 1 ∧ SessionPage.isSending s = false).
Proof.
  unfold SessionPage.handleSend_begin.
  destruct (SessionPage.session s); [|by left].
  destruct (negb _ || SessionPage.isSending s) eqn:Hg; [by left|].
  apply orb_false_iff in Hg as [_ ?]. by right.
Qed.

Lemma handleSend_resume_ready r s :
  SessionPage.ready s → SessionPage.ready (SessionPage.handleSend_resume r s).1.
Proof.
  intros (sess & c & Hs & Hc). unfold SessionPage.handleSend_resume, SessionPage.ready.
  destruct r as [response|msg]; simpl.
  - destruct (r_messages response) as [ms|]; simpl; rewrite Hs.
    + destruct (r_checklist response) as [c'|]; eauto.
    + eauto.
  - rewrite Hs. eauto.
Qed.

Ltac page_inv_tac :=
  unfold page_inv; simpl;
  split; [lia|]; split; [try (intros; lia); try done|];
  split; [lia|]; try (intros; lia); auto.

Lemma page_inv_mounted : page_inv SessionPage.mounted.
Proof. page_inv_tac. Qed.

Lemma page_inv_send sid s pl ps :
  page_inv (SessionPage.mkPage s pl ps) →
  (∃ sess, SessionPage.session s = Some sess ∧ s_checklist sess = None) →
  let r := SessionPage.handleSend_begin sid s in
  page_inv (SessionPage.mkPage r.1 pl (ps + SessionPage.sends r.2)).
Proof.
  intros (Hl & Hl1 & Hp & Hp1) (sess & Hs & Hc) r. simpl in *.
  assert (pl = 0) as ->.
  { destruct pl as [|[|]]; [done| |lia]. destruct (Hl1 eq_refl). congruence. }
  destruct (handleSend_begin_cases sid s) as [[Hr H0]|[H1 Hns]]; fold r in Hr, H0 || fold r in H1.
  - rewrite H0, Hr, Nat.add_0_r. page_inv_tac.
  - assert (ps = 0) as ->.
    { destruct ps as [|[|]]; [done| |lia]. destruct (Hp1 eq_refl). congruence. }
    rewrite H1. destruct (handleSend_begin_dispatches sid s H1)
      as (sess' & Hs' & _ & Hs1 & Hsend1).
    fold r in Hs1, Hsend1. unfold page_inv. simpl.
    split; [lia|]. split; [lia|]. split; [lia|]. intros _. split; [done|].
    eexists. split; [exact Hs1|]. simpl. congruence.
Qed.

Lemma page_inv_step sid e pg pg' eff :
  page_inv pg → SessionPage.step sid e pg = Some (pg', eff) → page_inv pg'.
Proof.
  intros Hinv Hstep. destruct pg as [s pl ps].
  destruct e as [v| | |c|r|r]; simpl in Hstep.
  - destruct (SessionPage.chat_input s) as [ci|]; [|done].
    destruct (SessionPage.ci_textarea_disabled ci); [done|]. simplify_eq.
    exact Hinv.
  - destruct (SessionPage.chat_input s) as [ci|] eqn:Hci; [|done].
    destruct (SessionPage.ci_submit_disabled ci); [done|].
    apply chat_input_Some in Hci as (_ & _ & Hsess).
    pose proof (page_inv_send sid s pl ps Hinv Hsess) as Hnew.
    destruct (SessionPage.handleSend_begin sid s). by simplify_eq.
  - destruct (SessionPage.chat_input s) as [ci|] eqn:Hci; [|done].
    destruct (SessionPage.ci_textarea_disabled ci); [done|].
    apply chat_input_Some in Hci as (_ & _ & Hsess).
    pose proof (page_inv_send sid s pl ps Hinv Hsess) as Hnew.
    destruct (SessionPage.handleSend_begin sid s). by simplify_eq.
  - destruct (SessionPage.shown_checklist s) eqn:Hsh; [|done]. simplify_eq.
    unfold SessionPage.shown_checklist, SessionPage.render in Hsh.
    destruct (SessionPage.isLoading s); [done|].
    destruct (SessionPage.session s) as [sess|] eqn:Hs; [|done].
    destruct (s_checklist sess) eqn:Hc; [|done].
    destruct Hinv as (Hl & Hl1 & Hp & Hp1). simpl in *.
    unfold page_inv. simpl. split; [done|]. split.
    { intros H1. destruct (Hl1 H1). congruence. }
    split; [done|]. intros H1. destruct (Hp1 H1) as (_ & sess' & ? & ?). congruence.
  - destruct pl as [|n]; [done|].
    destruct (SessionPage.loadSession_resume r s) as [s' eff'] eqn:Hr. simplify_eq.
    destruct Hinv as (Hl & Hl1 & Hp & Hp1). simpl in *.
    assert (n = 0) as -> by lia. destruct (Hl1 eq_refl) as [Hnone ->].
    page_inv_tac.
  - destruct ps as [|n]; [done|].
    destruct (SessionPage.handleSend_resume r s) as [s' eff'] eqn:Hr. simplify_eq.
    destruct Hinv as (Hl & Hl1 & Hp & Hp1). simpl in *.
    assert (n = 0) as -> by lia. destruct (Hp1 eq_refl) as (_ & sess & Hs & _).
    assert (pl = 0) as ->.
    { destruct pl as [|[|]]; [done| |lia]. destruct (Hl1 eq_refl). congruence. }
    page_inv_tac.
Qed.

Lemma page_inv_run sid es pg pg' eff :
  page_inv pg → SessionPage.run sid es pg = Some (pg', eff) → page_inv pg'.
Proof.
  revert pg eff. induction es as [|e es IH]; intros pg eff Hinv Hrun; simpl in Hrun.
  - by simplify_eq.
  - destruct (SessionPage.step sid e pg) as [[pg1 eff1]|] eqn:Hstep; [|done].
    simpl in Hrun.
    destruct (SessionPage.run sid es pg1) as [[pg2 eff2]|] eqn:Hrest; [|done].
    simpl in Hrun. simplify_eq. eauto using page_inv_step.
Qed.

(** In state [ready] the only event the page accepts is an update coming
    from the checklist component, and it keeps the session ready. *)
Lemma ready_step sid e pg pg' eff :
  page_inv pg → SessionPage.ready (SessionPage.state pg) →
  SessionPage.step sid e pg = Some (pg', eff) →
  SessionPage.ready (SessionPage.state pg') ∧ eff = [] ∧
  ∃ c, e = SessionPage.ChecklistChanged c.
Proof.
  intros Hinv Hready Hstep. destruct pg as [s pl ps]. simpl in Hready.
  pose proof (chat_input_ready s Hready) as Hci.
  destruct Hinv as (Hl & Hl1 & Hp & Hp1). simpl in *.
  destruct Hready as (sess & c & Hs & Hc).
  destruct e as [v| | |c'|r|r]; simpl in Hstep; rewrite ?Hci in Hstep; try done.
  - destruct (SessionPage.shown_checklist s); [|done]. simplify_eq. simpl.
    split; [|eauto]. unfold SessionPage.ready. simpl. rewrite Hs. eauto.
  - destruct pl as [|[|]]; [done| |lia]. destruct (Hl1 eq_refl). congruence.
  - destruct ps as [|[|]]; [done| |lia].
    destruct (Hp1 eq_refl) as (_ & sess' & ? & ?). congruence.
Qed.

(** C7. Once the session has a checklist, the page renders no chat input;
    whatever happens next on the page (from any state reached after mount),
    no request is sent to the message endpoint and the session keeps a
    checklist; and the continuation of a message request never clears a
    checklist, whatever the response. *)
Theorem ready_session_sends_no_message
    (sid : string) (es1 es2 : list SessionPage.Event)
    (pg1 pg2 : SessionPage.Page) (eff1 eff2 : list Effect) :
  SessionPage.run sid es1 SessionPage.mounted = Some (pg1, eff1) →
  SessionPage.ready (SessionPage.state pg1) →
  SessionPage.run sid es2 pg1 = Some (pg2, eff2) →
  (∀ s, SessionPage.ready s → SessionPage.chat_input s = None) ∧
  SessionPage.pending_send pg1 = 0 ∧
  SessionPage.sends eff2 = 0 ∧
  SessionPage.ready (SessionPage.state pg2) ∧
  (∀ r s, SessionPage.ready s →
          SessionPage.ready (SessionPage.handleSend_resume r s).1).
Proof.
  intros Hrun1 Hready Hrun2.
  pose proof (page_inv_run _ _ _ _ _ page_inv_mounted Hrun1) as Hinv.
  split; [apply chat_input_ready|]. split.
  { destruct Hinv as (_ & _ & Hp & Hp1). destruct Hready as (sess & c & ? & ?).
    destruct (SessionPage.pending_send pg1) as [|[|]]; [done| |lia].
    destruct (Hp1 eq_refl) as (_ & sess' & ? & ?). congruence. }
  split; [|split; [|by intros; apply handleSend_resume_ready]].
  - clear Hrun1. revert pg1 eff2 Hinv Hready Hrun2.
    induction es2 as [|e es IH]; intros pg1 eff2 Hinv Hready Hrun2; simpl in Hrun2.
    + by simplify_eq.
    + destruct (SessionPage.step sid e pg1) as [[pga effa]|] eqn:Hstep; [|done].
      simpl in Hrun2.
      destruct (SessionPage.run sid es pga) as [[pgb effb]|] eqn:Hrest; [|done].
      simpl in Hrun2. simplify_eq.
      destruct (ready_step _ _ _ _ _ Hinv Hready Hstep) as (Hr' & -> & _).
      simpl. eapply (IH pga); eauto using page_inv_step.
  - clear Hrun1. revert pg1 eff2 Hinv Hready Hrun2.
    induction es2 as [|e es IH]; intros pg1 eff2 Hinv Hready Hrun2; simpl in Hrun2.
    + by simplify_eq.
    + destruct (SessionPage.step sid e pg1) as [[pga effa]|] eqn:Hstep; [|done].
      simpl in Hrun2.
      destruct (SessionPage.run sid es pga) as [[pgb effb]|] eqn:Hrest; [|done].
      simpl in Hrun2. simplify_eq.
      destruct (ready_step _ _ _ _ _ Hinv Hready Hstep) as (Hr' & -> & _).
      eapply (IH pga); eauto using page_inv_step.
Qed.

Lemma ready_session_sends_no_message_witness :
  let item := mkTodoItem "11111111-2222-3333-4444-555555555555" "skills"
                "Review closures" Todo None None None in
  let c := mkChecklist "Frontend interview" "interview" []
             [mkGroup "skills" "Skills / Knowledge Prep" [item]] [] in
  let c' := ChecklistView.updatedChecklist c item in
  let sess := mkSession "s1" "2024-01-01" "interview" "Frontend interview"
                "I have a frontend interview in 10 days" ∅ None
                [mkMessage "assistant" "Please share the job description."] in
  let reply := mkMessage "assistant" "Here is your checklist." in
  let es1 := [SessionPage.LoadOutcome (Resolved sess);
              SessionPage.ChangeInput "React developer, 3 years";
              SessionPage.SubmitForm;
              SessionPage.SendOutcome
                (Resolved (mkSendResp "s1" reply (Some [reply]) (Some c)))] in
  let es2 := [SessionPage.ChecklistChanged c'] in
  ∃ pg1 eff1 pg2 eff2,
    SessionPage.run "s1" es1 SessionPage.mounted = Some (pg1, eff1) ∧
    SessionPage.run "s1" es2 pg1 = Some (pg2, eff2) ∧
    SessionPage.sends eff1 = 1 ∧ SessionPage.sends eff2 = 0 ∧
    SessionPage.ready (SessionPage.state pg2).
Proof.
  intros item c c' sess reply es1 es2.
  destruct (SessionPage.run "s1" es1 SessionPage.mounted) as [[pg1 eff1]|] eqn:H1;
    [|vm_compute in H1; discriminate].
  destruct (SessionPage.run "s1" es2 pg1) as [[pg2 eff2]|] eqn:H2.
  - exists pg1, eff1, pg2, eff2.
    assert (Hready : SessionPage.ready (SessionPage.state pg1)).
    { vm_compute in H1. injection H1 as <- <-. eexists _, _. split; reflexivity. }
    destruct (ready_session_sends_no_message "s1" es1 es2 pg1 pg2 eff1 eff2
                H1 Hready H2) as (_ & _ & Hs & Hr & _).
    repeat split; try done.
    vm_compute in H1. injection H1 as <- <-. reflexivity.
  - exfalso. vm_compute in H1. injection H1 as <- <-. vm_compute in H2. discriminate.
Defined.

(** While a message request is awaited nothing else can happen on the
    page: the only event it accepts is the outcome of that request. *)
Lemma sending_step sid e pg pg' eff :
  page_inv pg → SessionPage.pending_send pg = 1 →
  SessionPage.step sid e pg = Some (pg', eff) →
  ∃ r, e = SessionPage.SendOutcome r.
Proof.
  intros (Hl & Hl1 & Hp & Hp1) H1 Hstep. destruct pg as [s pl ps]. simpl in *.
  destruct (Hp1 H1) as (Hsend & sess & Hs & Hc).
  destruct e as [v| | |c|r|r]; simpl in Hstep; eauto; exfalso.
  - destruct (SessionPage.chat_input s) as [ci|] eqn:Hci; [|done].
    apply chat_input_Some in Hci as (_ & -> & _). simpl in Hstep.
    by rewrite Hsend in Hstep.
  - destruct (SessionPage.chat_input s) as [ci|] eqn:Hci; [|done].
    apply chat_input_Some in Hci as (_ & -> & _). simpl in Hstep.
    by rewrite Hsend, orb_true_r in Hstep.
  - destruct (SessionPage.chat_input s) as [ci|] eqn:Hci; [|done].
    apply chat_input_Some in Hci as (_ & -> & _). simpl in Hstep.
    by rewrite Hsend in Hstep.
  - unfold SessionPage.shown_checklist, SessionPage.render in Hstep.
    destruct (SessionPage.isLoading s); [done|]. rewrite Hs, Hc in Hstep. done.
  - destruct pl as [|[|]]; [done| |lia]. destruct (Hl1 eq_refl). congruence.
Qed.

Lemma resume_sends_nothing r s :
  SessionPage.sends (SessionPage.handleSend_resume r s).2 = 0.
Proof. by destruct r. Qed.

(** An event whose effects contain a message request is a submission of
    the form, and the request is the one [handleSend] dispatches. *)
Lemma step_dispatches sid e pg pg1 eff1 :
  SessionPage.step sid e pg = Some (pg1, eff1) →
  SessionPage.sends eff1 = 1 →
  SessionPage.state pg1 = (SessionPage.handleSend_begin sid (SessionPage.state pg)).1 ∧
  eff1 = (SessionPage.handleSend_begin sid (SessionPage.state pg)).2 ∧
  SessionPage.pending_send pg1 = SessionPage.pending_send pg + 1.
Proof.
  intros Hstep Hs. destruct pg as [s pl ps].
  destruct e as [v| | |c|r|r]; simpl in Hstep.
  - destruct (SessionPage.chat_input s) as [ci|]; [|done].
    destruct (SessionPage.ci_textarea_disabled ci); [done|]. by simplify_eq.
  - destruct (SessionPage.chat_input s) as [ci|]; [|done].
    destruct (SessionPage.ci_submit_disabled ci); [done|].
    simpl. destruct (SessionPage.handleSend_begin sid s) as [s' eff'].
    simplify_eq. simpl. by rewrite Hs.
  - destruct (SessionPage.chat_input s) as [ci|]; [|done].
    destruct (SessionPage.ci_textarea_disabled ci); [done|].
    simpl. destruct (SessionPage.handleSend_begin sid s) as [s' eff'].
    simplify_eq. simpl. by rewrite Hs.
  - destruct (SessionPage.shown_checklist s); [|done]. by simplify_eq.
  - destruct pl as [|n]; [done|].
    destruct r as [data|m]; simpl in Hstep; by simplify_eq.
  - destruct ps as [|n]; [done|].
    pose proof (resume_sends_nothing r s) as H0.
    destruct (SessionPage.handleSend_resume r s) as [s' eff']. simplify_eq.
    simpl in H0. congruence.
Qed.

(** C6. When a message request that was dispatched fails, the session is
    the one before the call: the user message appended optimistically is
    removed, so the transcript, the checklist and every other field of the
    session are unchanged, and the page is no longer sending. On the page
    as a whole: from any state reached after mount, once the request is
    dispatched nothing but its outcome can happen, and on failure the page
    holds the session it held before. *)
Theorem failed_send_restores_session (sid msg : string) (s : SessionPage.State) :
  SessionPage.sends (SessionPage.handleSend_begin sid s).2 = 1 →
  let s1 := (SessionPage.handleSend_begin sid s).1 in
  let s2 := (SessionPage.handleSend_resume (Rejected msg) s1).1 in
  (∃ sess m, SessionPage.session s = Some sess ∧
             SessionPage.session s1 =
               Some (SessionPage.with_messages (messages sess ++ [m]) sess) ∧
             role m = "user") ∧
  SessionPage.session s2 = SessionPage.session s ∧
  SessionPage.isSending s2 = false ∧
  SessionPage.isLoading s2 = SessionPage.isLoading s ∧
  SessionPage.sends (SessionPage.handleSend_resume (Rejected msg) s1).2 = 0 ∧
  (∀ es pg eff0 e pg1 eff1,
     SessionPage.run sid es SessionPage.mounted = Some (pg, eff0) →
     SessionPage.state pg = s →
     SessionPage.step sid e pg = Some (pg1, eff1) →
     SessionPage.sends eff1 = 1 →
     (∀ e' pg' eff', SessionPage.step sid e' pg1 = Some (pg', eff') →
                     ∃ r, e' = SessionPage.SendOutcome r) ∧
     ∃ pg2 eff2,
       SessionPage.step sid (SessionPage.SendOutcome (Rejected msg)) pg1
         = Some (pg2, eff2) ∧
       SessionPage.session (SessionPage.state pg2) = SessionPage.session s ∧
       SessionPage.pending_send pg2 = 0).
Proof.
  intros Hd s1 s2.
  destruct (handleSend_begin_dispatches sid s Hd) as (sess & Hs & Hsend & Hs1 & _).
  fold s1 in Hs1.
  assert (Hsess : SessionPage.session s2 = SessionPage.session s).
  { subst s2. unfold SessionPage.handleSend_resume. simpl. rewrite Hs1, Hs.
    f_equal. destruct sess. unfold SessionPage.with_messages. simpl.
    by rewrite slice_0_m1_snoc. }
  split; [|split; [done|split; [|split; [|split]]]].
  - eexists _, _. split; [done|]. split; [exact Hs1|done].
  - reflexivity.
  - subst s2 s1. unfold SessionPage.handleSend_begin.
    rewrite Hs. by destruct (negb _ || _).
  - reflexivity.
  - intros es pg eff0 e pg1 eff1 Hrun Hst Hstep Hsends.
    pose proof (page_inv_run _ _ _ _ _ page_inv_mounted Hrun) as Hinv.
    pose proof (page_inv_step _ _ _ _ _ Hinv Hstep) as Hinv1.
    destruct (step_dispatches _ _ _ _ _ Hstep Hsends) as (Hst1 & _ & Hp1).
    rewrite Hst in Hst1. fold s1 in Hst1.
    assert (Hone : SessionPage.pending_send pg1 = 1).
    { destruct Hinv1 as (_ & _ & Hle & _). lia. }
    split.
    + intros e' pg' eff' Hstep'. by eapply sending_step.
    + destruct pg1 as [st1 pl1 ps1]. simpl in Hst1, Hone. subst ps1 st1.
      eexists _, _. split; [reflexivity|]. split; [exact Hsess|reflexivity].
Qed.

Lemma failed_send_restores_session_witness :
  let sess := mkSession "s1" "2024-01-01" "interview" "Frontend interview"
                "I have a frontend interview in 10 days" ∅ None
                [mkMessage "user" "I have a frontend interview in 10 days";
                 mkMessage "assistant" "Please share the job description."] in
  let s := SessionPage.mkState (Some sess) false false "Thinking..." " React, 3 years " in
  SessionPage.session
    (SessionPage.handleSend_resume (Rejected "500")
       (SessionPage.handleSend_begin "s1" s).1).1 = Some sess.
Proof.
  intros sess s.
  apply (failed_send_restores_session "s1" "500" s).
  vm_compute. reflexivity.
Defined.


(** ** The UUID guard *)

Lemma hyphen_eqb c : Ascii.eqb c "-"%char = true → c = "-"%char.
Proof. apply Ascii.eqb_eq. Qed.

Lemma uuid_test_shaped s :
  Uuid.test Uuid.uuidRegex s = true → Uuid.uuid_shaped s.
Proof.
  unfold Uuid.test, Uuid.uuidRegex. intros H.
  do 36 (destruct s as [|? s]; [discriminate H|];
         cbn [Uuid.match_seq Uuid.match_rep] in H;
         match type of H with
         | context [Uuid.atom_matches ?a ?c] =>
             destruct (Uuid.atom_matches a c) eqn:?; [|discriminate H]
         end).
  cbn in H. destruct s; [|discriminate H]. clear H.
  split; [reflexivity|].
  intros i c Hget.
  do 36 (destruct i as [|i];
         [cbn in Hget; injection Hget as <-; cbn;
          first [assumption | by apply hyphen_eqb]|]).
  cbn in Hget. discriminate Hget.
Qed.

Ltac specialize_upto H n :=
  lazymatch n with
  | O => idtac
  | S ?m => let Hm := fresh "Hc" in
            pose proof (H m _ eq_refl) as Hm; cbn in Hm; specialize_upto H m
  end.

Lemma uuid_shaped_test s :
  Uuid.uuid_shaped s → Uuid.test Uuid.uuidRegex s = true.
Proof.
  intros [Hlen Hget].
  do 36 (destruct s as [|? s]; [discriminate Hlen|]).
  destruct s; [|discriminate Hlen]. clear Hlen.
  specialize_upto Hget 36. clear Hget. subst.
  unfold Uuid.test, Uuid.uuidRegex.
  repeat first
    [ rewrite Ascii.eqb_refl
    | match goal with
      | H : Uuid.is_hex ?c = true |- context [Uuid.is_hex ?c] => rewrite H; clear H
      end
    | progress cbn [Uuid.match_seq Uuid.match_rep Uuid.atom_matches] ].
  reflexivity.
Qed.

Lemma uuid_test_iff s : Uuid.test Uuid.uuidRegex s = true ↔ Uuid.uuid_shaped s.
Proof. split; [apply uuid_test_shaped | apply uuid_shaped_test]. Qed.

Lemma uuid_test_false s : Uuid.test Uuid.uuidRegex s = false ↔ ¬ Uuid.uuid_shaped s.
Proof.
  rewrite <- uuid_test_iff. destruct (Uuid.test Uuid.uuidRegex s); split; intros; try done.
Qed.

(** C3. An id that is not in the UUID text form (36 characters, hyphens at
    offsets 8, 13, 18 and 23, hexadecimal digits elsewhere) is refused when
    a knowledge test is started: the modal alerts the user to regenerate the
    checklist, closes, sends no request and keeps its state, and the
    checklist view does not even open the modal; for an id in that form the
    checklist view opens the modal and the start request is sent. *)
Theorem uuid_guard_on_start
    (p : InterviewModal.Props) (s : InterviewModal.State)
    (cst : ChecklistView.State) (item : TodoItem) :
  (¬ Uuid.uuid_shaped (InterviewModal.todoId p) →
     InterviewModal.handleStart_begin p s =
       (s, [Alert InterviewModal.alert_invalid_start; CallOnClose]) ∧
     Js.includes InterviewModal.alert_invalid_start "regenerate the checklist" = true ∧
     requests (InterviewModal.handleStart_begin p s).2 = [] ∧
     (∀ i i' eff, InterviewModal.step p InterviewModal.ClickStart i = Some (i', eff) →
                  InterviewModal.mounted i' = false ∧
                  InterviewModal.state i' = InterviewModal.state i ∧
                  InterviewModal.pending i' = InterviewModal.pending i ∧
                  requests eff = [])) ∧
  (Uuid.uuid_shaped (InterviewModal.todoId p) →
     InterviewModal.handleStart_begin p s =
       (InterviewModal.setIsLoading true s,
        [ReqStartInterview (InterviewModal.sessionId p) (InterviewModal.todoId p)
           (InterviewModal.todoText p)])) ∧
  (¬ Uuid.uuid_shaped (id item) →
     ∃ msg, ChecklistView.onClick_testKnowledge item cst =
              (cst, [ConsoleError "Invalid todo ID format:"; Alert msg]) ∧
            Js.includes msg "regenerate the checklist" = true) ∧
  (Uuid.uuid_shaped (id item) →
     ChecklistView.onClick_testKnowledge item cst =
       (ChecklistView.set_interview (Some (id item)) (Some (text item)) cst, [])).
Proof.
  split; [|split; [|split]].
  - intros Hno%uuid_test_false.
    assert (Hb : InterviewModal.handleStart_begin p s =
                 (s, [Alert InterviewModal.alert_invalid_start; CallOnClose])).
    { unfold InterviewModal.handleStart_begin. by rewrite Hno. }
    split; [done|]. split; [by vm_compute|]. split; [by rewrite Hb|].
    intros i i' eff Hstep. simpl in Hstep.
    destruct (InterviewModal.mounted i); [|done].
    destruct (InterviewModal.currentQuestion (InterviewModal.state i)); [done|].
    destruct (negb _); [|done].
    destruct (InterviewModal.isLoading (InterviewModal.state i)); [done|].
    unfold InterviewModal.handleStart_begin in Hstep.
    rewrite Hno in Hstep. simpl in Hstep. by simplify_eq.
  - intros Hok%uuid_test_iff. unfold InterviewModal.handleStart_begin.
    by rewrite Hok.
  - intros Hno%uuid_test_false. eexists.
    unfold ChecklistView.onClick_testKnowledge. rewrite Hno. simpl.
    split; [reflexivity|]. by vm_compute.
  - intros Hok%uuid_test_iff. unfold ChecklistView.onClick_testKnowledge.
    by rewrite Hok.
Qed.

Lemma uuid_guard_on_start_witness :
  let p := InterviewModal.mkProps "s1" "not-a-uuid" "Review closures" true in
  InterviewModal.handleStart_begin p InterviewModal.init =
    (InterviewModal.init, [Alert InterviewModal.alert_invalid_start; CallOnClose]) ∧
  InterviewModal.handleStart_begin
    (InterviewModal.mkProps "s1" "11111111-2222-3333-4444-55555555AbCd" "Review closures" true)
    InterviewModal.init =
    (InterviewModal.setIsLoading true InterviewModal.init,
     [ReqStartInterview "s1" "11111111-2222-3333-4444-55555555AbCd" "Review closures"]).
Proof.
  intros p. split.
  - apply (uuid_guard_on_start p InterviewModal.init
             (ChecklistView.init (mkChecklist "" "" [] [] []))
             (mkTodoItem "" "" "" Todo None None None)).
    intros [Hlen _]. vm_compute in Hlen. discriminate.
  - apply (uuid_guard_on_start
             (InterviewModal.mkProps "s1" "11111111-2222-3333-4444-55555555AbCd"
                "Review closures" true)
             InterviewModal.init
             (ChecklistView.init (mkChecklist "" "" [] [] []))
             (mkTodoItem "" "" "" Todo None None None)).
    apply uuid_test_iff. vm_compute. reflexivity.
Defined.

(** ** Completion of a knowledge test *)

Lemma settle_single k l l' :
  length l ≤ 1 → InterviewModal.settle k l = Some l' → l = [k] ∧ l' = [].
Proof.
  destruct l as [|k' [|]]; simpl; intros Hlen Hs; [done| |lia].
  destruct (bool_decide (k = k')) eqn:Hk; [|done].
  apply bool_decide_eq_true in Hk. by simplify_eq.
Qed.

Lemma handleStart_resume_completions p r s :
  completions (InterviewModal.handleStart_resume p r s).2 = 0.
Proof.
  unfold InterviewModal.handleStart_resume.
  destruct r as [resp|msg]; [by destruct (ir_question resp)|].
  simpl. by destruct (Js.includes msg _).
Qed.

Lemma handleSubmitAnswer_resume_completions p r s :
  let t := InterviewModal.handleSubmitAnswer_resume p r s in
  completions t.2 = 0 ∨
  (completions t.2 = 1 ∧ InterviewModal.isComplete t.1 = true).
Proof.
  unfold InterviewModal.handleSubmitAnswer_resume.
  destruct r as [resp|msg]; [|by left].
  destruct (is_complete resp); [|by left].
  unfold InterviewModal.on_complete_response.
  destruct (InterviewModal.has_onComplete p); [|by left].
  destruct (ir_passed resp) as [[|]|]; [|by left|by left].
  destruct (ir_rating resp); [by right|by left].
Qed.

Lemma handleSubmitAnswer_begin_cases p s :
  let t := InterviewModal.handleSubmitAnswer_begin p s in
  completions t.2 = 0 ∧
  (if Js.truthy (Js.trim (InterviewModal.answer s))
   then InterviewModal.isLoading t.1 = true
   else t.1 = s).
Proof.
  unfold InterviewModal.handleSubmitAnswer_begin.
  by destruct (Js.truthy (Js.trim (InterviewModal.answer s))).
Qed.

Lemma modal_inv_step p e i i' eff n :
  modal_inv i n → InterviewModal.step p e i = Some (i', eff) →
  modal_inv i' (n + completions eff).
Proof.
  intros (Hlen & Hload & Hn) Hstep. destruct i as [s m pend]. simpl in *.
  assert (Hidle : m = true → InterviewModal.isLoading s = false → pend = []).
  { intros Hm Hl. destruct pend; [done|]. rewrite Hload in Hl; done. }
  assert (Hopen : m = true → InterviewModal.isComplete s = false → n = 0).
  { intros Hm Hc. destruct Hn as [?|(_ & _ & [?|?])]; congruence. }
  destruct e as [|v| | | |r|r]; simpl in Hstep.
  - (* ClickStart *)
    destruct m; [|done].
    destruct (InterviewModal.currentQuestion s); [done|].
    destruct (InterviewModal.isComplete s) eqn:Hc; [done|]. simpl in Hstep.
    destruct (InterviewModal.isLoading s) eqn:Hl; [done|].
    rewrite (Hidle eq_refl eq_refl) in *. rewrite (Hopen eq_refl eq_refl).
    unfold InterviewModal.handleStart_begin in Hstep.
    destruct (Uuid.test Uuid.uuidRegex (InterviewModal.todoId p)); simpl in Hstep;
      simplify_eq; unfold modal_inv; simpl; auto.
  - (* ChangeAnswer *)
    destruct m; [|done].
    destruct (InterviewModal.currentQuestion s); [|done].
    destruct (InterviewModal.isComplete s) eqn:Hc; [done|]. simpl in Hstep.
    destruct (InterviewModal.isLoading s) eqn:Hl; [done|]. simplify_eq.
    rewrite (Hidle eq_refl eq_refl), (Hopen eq_refl eq_refl).
    unfold modal_inv; simpl; auto.
  - (* ClickSubmit *)
    destruct m; [|done].
    destruct (InterviewModal.currentQuestion s); [|done].
    destruct (InterviewModal.isComplete s) eqn:Hc; [done|]. simpl in Hstep.
    destruct (InterviewModal.isLoading s) eqn:Hl;
      [by rewrite orb_true_r in Hstep|].
    rewrite (Hidle eq_refl eq_refl) in *. rewrite (Hopen eq_refl eq_refl).
    destruct (handleSubmitAnswer_begin_cases p s) as [H0 Hcase].
    destruct (InterviewModal.handleSubmitAnswer_begin p s) as [s' eff'].
    destruct (negb _ || false); [done|]. simplify_eq. simpl in *. rewrite H0.
    destruct (Js.truthy _); unfold modal_inv; simpl; auto.
  - (* KeyCmdEnter *)
    destruct m; [|done].
    destruct (InterviewModal.currentQuestion s); [|done].
    destruct (InterviewModal.isComplete s) eqn:Hc; [done|]. simpl in Hstep.
    destruct (InterviewModal.isLoading s) eqn:Hl; [done|].
    rewrite (Hidle eq_refl eq_refl) in *. rewrite (Hopen eq_refl eq_refl).
    destruct (handleSubmitAnswer_begin_cases p s) as [H0 Hcase].
    destruct (InterviewModal.handleSubmitAnswer_begin p s) as [s' eff'].
    simplify_eq. simpl in *. rewrite H0.
    destruct (Js.truthy _); unfold modal_inv; simpl; auto.
  - (* DialogClose *)
    destruct m; [|done]. simplify_eq. simpl. rewrite Nat.add_0_r.
    unfold modal_inv. simpl. split; [done|]. split; [done|].
    destruct Hn as [?|(? & ? & _)]; auto.
  - (* StartOutcome *)
    destruct (InterviewModal.settle _ pend) as [l|] eqn:Hs; [|done].
    apply settle_single in Hs as [-> ->]; [|done]. simpl in Hstep.
    pose proof (handleStart_resume_completions p r s) as H0.
    destruct (InterviewModal.handleStart_resume p r s) as [s' eff'].
    simplify_eq. simpl in H0. rewrite H0, Nat.add_0_r.
    unfold modal_inv. simpl. split; [lia|]. split; [done|].
    destruct Hn as [?|(? & ? & _)]; [auto|done].
  - (* AnswerOutcome *)
    destruct (InterviewModal.settle _ pend) as [l|] eqn:Hs; [|done].
    apply settle_single in Hs as [-> ->]; [|done]. simpl in Hstep.
    pose proof (handleSubmitAnswer_resume_completions p r s) as Hc.
    destruct (InterviewModal.handleSubmitAnswer_resume p r s) as [s' eff'].
    simplify_eq. simpl in Hc.
    destruct Hn as [->|(? & ? & _)]; [|done].
    unfold modal_inv. simpl. split; [lia|]. split; [done|].
    destruct Hc as [->|[-> Hcomp]]; auto.
Qed.

Lemma completions_app e1 e2 : completions (e1 ++ e2) = completions e1 + completions e2.
Proof. unfold completions. by rewrite List.filter_app, length_app. Qed.

Lemma modal_inv_run p es i i' eff n :
  modal_inv i n → InterviewModal.run p es i = Some (i', eff) →
  modal_inv i' (n + completions eff).
Proof.
  revert i eff n. induction es as [|e es IH]; intros i eff n Hinv Hrun; simpl in Hrun.
  - simplify_eq. by rewrite Nat.add_0_r.
  - destruct (InterviewModal.step p e i) as [[i1 eff1]|] eqn:Hstep; [|done].
    simpl in Hrun.
    destruct (InterviewModal.run p es i1) as [[i2 eff2]|] eqn:Hrest; [|done].
    simpl in Hrun. simplify_eq.
    rewrite completions_app, Nat.add_assoc.
    eapply (IH i1); eauto using modal_inv_step.
Qed.

Lemma modal_inv_fresh : modal_inv InterviewModal.fresh 0.
Proof. unfold modal_inv. simpl. auto. Qed.

(** A mounted modal reports at most one completion in its whole life. *)
Lemma completes_at_most_once p es i eff :
  InterviewModal.run p es InterviewModal.fresh = Some (i, eff) →
  completions eff ≤ 1.
Proof.
  intros Hrun.
  destruct (modal_inv_run _ _ _ _ _ _ modal_inv_fresh Hrun) as (_ & _ & Hn).
  simpl in Hn. lia.
Qed.

Lemma find_unique_id (l : list TodoItem) item :
  NoDup (map id l) → item ∈ l →
  find (λ i, bool_decide (Some (id i) = Some (id item))) l = Some item.
Proof.
  induction l as [|x l IH]; intros Hnd Hin; [by apply elem_of_nil in Hin|].
  simpl in *. apply NoDup_cons in Hnd as [Hx Hnd].
  apply elem_of_cons in Hin as [->|Hin].
  - by rewrite bool_decide_eq_true_2.
  - rewrite bool_decide_eq_false_2; [by apply IH|].
    intros [= He]. apply Hx. rewrite He. by apply list_elem_of_fmap_2.
Qed.

Lemma modal_props_Some cp cst mp :
  Wiring.modal_props cp cst = Some mp →
  ChecklistView.interviewTodoId cst = Some (InterviewModal.todoId mp) ∧
  Js.truthy (InterviewModal.todoId mp) = true ∧
  InterviewModal.sessionId mp = ChecklistView.sessionId cp ∧
  InterviewModal.has_onComplete mp = true.
Proof.
  unfold Wiring.modal_props.
  destruct (ChecklistView.interviewTodoId cst) as [tid|]; [|done].
  destruct (ChecklistView.interviewTodoText cst) as [txt|]; [|done].
  destruct (Js.truthy tid) eqn:Ht; [|done].
  destruct (Js.truthy txt); [|done]. intros [= <-]. done.
Qed.

Lemma onComplete_timer_requests cp closure now :
  (Wiring.onComplete_timer cp closure now).2 = [] ∨
  ∃ item, ChecklistView.onComplete_timer_item closure = Some item ∧
          (Wiring.onComplete_timer cp closure now).2 =
            [ReqUpdateTodo (ChecklistView.sessionId cp) (id item)
               (ChecklistView.newStatus item)].
Proof.
  unfold Wiring.onComplete_timer.
  destruct (ChecklistView.onComplete_timer_item closure) as [item|]; [|by left].
  right. by exists item.
Qed.

Lemma updates_of_length cp cst eff :
  length (Wiring.updates_of cp cst eff) ≤ completions eff.
Proof.
  induction eff as [|e eff IH]; [done|].
  destruct e; simpl; try (unfold completions in *; simpl; lia).
  destruct (ChecklistView.onComplete cst passed rating);
    [unfold completions in *; simpl; lia|].
  rewrite length_app.
  destruct (onComplete_timer_requests cp cst cst) as [->|(item & _ & ->)];
    unfold completions in *; simpl; lia.
Qed.

(** The completion of a passed test, relative to the render [cst] whose
    [onComplete] the modal calls: when the answer to the last question
    comes back complete and passed (with its rating), the modal reports the
    completion once; if the linked item is to do in the checklist of [cst],
    the timer answers with one point update that sets it to done, the
    request a manual toggle of that item sends, and once it resolves the
    item is done; if the item is done in the checklist of [cst], no update
    is requested. A mounted modal reports at most one completion. What the
    checklist holds when the timer fires plays no part. *)
Lemma completion_updates_item_of_its_render
    (cp : ChecklistView.Props) (cst : ChecklistView.State)
    (mp : InterviewModal.Props) (ms : InterviewModal.State)
    (resp : InterviewResponse) (r : Q)
    (gi ii : nat) (g : ChecklistGroup) (item : TodoItem) :
  Wiring.modal_props cp cst = Some mp →
  ChecklistView.item_at (ChecklistView.checklist cst) gi ii = Some (g, item) →
  id item = InterviewModal.todoId mp →
  NoDup (map id (ChecklistView.all_items (ChecklistView.checklist cst))) →
  is_complete resp = true → ir_passed resp = Some true → ir_rating resp = Some r →
  let t := InterviewModal.handleSubmitAnswer_resume mp (Resolved resp) ms in
  let update := ReqUpdateTodo (ChecklistView.sessionId cp) (id item) Done in
  InterviewModal.isComplete t.1 = true ∧
  t.2 = [CallOnComplete true r] ∧
  ChecklistView.onComplete cst true r = [SetTimeout 200] ∧
  (status item = Todo →
     Wiring.updates_of cp cst t.2 = [update] ∧
     (¬ (id item ∈ ChecklistView.updatingIds cst) →
      ∃ st', ChecklistView.dispatch cp (ChecklistView.ClickToggle gi ii) cst
             = Some (st', [update])) ∧
     (∀ now upd,
        let '(st1, _, k) :=
          ChecklistView.handleToggleTodo_begin cp (ChecklistView.checklist cst) item now in
        ∃ g', ChecklistView.item_at
                (ChecklistView.checklist
                   (ChecklistView.handleToggleTodo_resume cp k (Resolved upd) st1).1)
                gi ii = Some (g', ChecklistView.with_status Done item))) ∧
  (status item = Done → Wiring.updates_of cp cst t.2 = []) ∧
  (∀ es i eff,
     InterviewModal.run mp es InterviewModal.fresh = Some (i, eff) →
     completions eff ≤ 1 ∧ length (Wiring.updates_of cp cst eff) ≤ 1).
Proof.
  intros Hprops Hat Hid Hnd Hcomp Hpass Hrate t update.
  destruct (modal_props_Some _ _ _ Hprops) as (Htid & Htruthy & Hsid & Hon).
  assert (Ht2 : t.2 = [CallOnComplete true r]).
  { subst t. unfold InterviewModal.handleSubmitAnswer_resume.
    rewrite Hcomp. unfold InterviewModal.on_complete_response.
    by rewrite Hon, Hpass, Hrate. }
  assert (Harm : ChecklistView.onComplete cst true r = [SetTimeout 200]).
  { unfold ChecklistView.onComplete. rewrite Htid. simpl. by rewrite Htruthy. }
  assert (Hfind : find (λ i, bool_decide (Some (id i) = ChecklistView.interviewTodoId cst))
                    (ChecklistView.all_items (ChecklistView.checklist cst))
                  = Some item).
  { rewrite Htid, <- Hid. apply find_unique_id; [done|]. by eapply item_at_elem. }
  split; [|split; [done|split; [done|split; [|split]]]].
  - subst t. unfold InterviewModal.handleSubmitAnswer_resume. by rewrite Hcomp.
  - intros Hs.
    assert (Hitem : ChecklistView.onComplete_timer_item cst = Some item).
    { unfold ChecklistView.onComplete_timer_item. rewrite Hfind, Hs. done. }
    assert (Hnew : ChecklistView.newStatus item = Done).
    { unfold ChecklistView.newStatus. by rewrite Hs. }
    split; [|split].
    + rewrite Ht2. simpl. rewrite Harm. unfold Wiring.onComplete_timer.
      rewrite Hitem. simpl. by rewrite Hnew.
    + intros Hfree. simpl. rewrite Hat. simpl.
      rewrite bool_decide_eq_false_2 by done. rewrite Hnew. eauto.
    + intros now upd. simpl.
      rewrite item_at_updatedChecklist, Hat. simpl.
      rewrite String.eqb_refl, Hnew. eauto.
  - intros Hs. rewrite Ht2. simpl. rewrite Harm.
    unfold Wiring.onComplete_timer, ChecklistView.onComplete_timer_item.
    rewrite Hfind, Hs. done.
  - intros es i eff Hrun.
    pose proof (completes_at_most_once _ _ _ _ Hrun) as H1.
    split; [done|]. pose proof (updates_of_length cp cst eff). lia.
Qed.

Lemma completion_updates_item_of_its_render_example :
  let item := mkTodoItem "11111111-2222-3333-4444-555555555555" "skills"
                "Review closures" Todo (Some High) None None in
  let c := mkChecklist "Frontend interview" "interview" []
             [mkGroup "context" "Context Understanding" [];
              mkGroup "skills" "Skills / Knowledge Prep" [item]] [] in
  let cp := ChecklistView.mkProps "s1" true in
  let cst := ChecklistView.set_interview (Some (id item)) (Some (text item))
               (ChecklistView.init c) in
  let mp := InterviewModal.mkProps "s1" (id item) (text item) true in
  let resp := mkInterviewResp None (Some "Good.") true (Some "Well done.")
                (Some (7 # 1)) (Some true) in
  Wiring.updates_of cp cst
    (InterviewModal.handleSubmitAnswer_resume mp (Resolved resp) InterviewModal.init).2
  = [ReqUpdateTodo "s1" "11111111-2222-3333-4444-555555555555" Done].
Proof.
  intros item c cp cst mp resp.
  destruct (completion_updates_item_of_its_render cp cst mp InterviewModal.init resp (7 # 1)
              1 0 (mkGroup "skills" "Skills / Knowledge Prep" [item]) item)
    as (_ & _ & _ & Hupd & _).
  - reflexivity.
  - reflexivity.
  - reflexivity.
  - apply (bool_decide_unpack _). vm_compute. reflexivity.
  - reflexivity.
  - reflexivity.
  - reflexivity.
  - apply Hupd. reflexivity.
Defined.

(** C2. The guard against updating an item that is already done reads the
    checklist of the render in which the answer was submitted, not the one
    the component holds when the timer fires. Run: the test of an open
    skills item is started and its four answers are submitted; while the
    last answer is awaited the dialog is closed and the item is marked done
    by hand (one update, resolved); then the answer comes back passed. The
    modal reports the completion to the [onComplete] it was given, whose
    timer finds the item in its own checklist, where it is still to do, and
    sends a second update to done for an item that is done. *)
Theorem stale_completion_updates_a_done_item :
  let tid := "11111111-2222-3333-4444-555555555555" in
  let item := mkTodoItem tid "skills" "Review closures" Todo (Some High) None None in
  let c := mkChecklist "Frontend interview" "interview" []
             [mkGroup "context" "Context Understanding" [];
              mkGroup "skills" "Skills / Knowledge Prep" [item]] [] in
  let cp := ChecklistView.mkProps "s1" true in
  let mp := InterviewModal.mkProps "s1" tid "Review closures" true in
  let ask := λ n, Resolved (mkInterviewResp (Some (mkQuestion "What is a closure?" n 4))
                              None false None None None) in
  let passed := Resolved (mkInterviewResp None None true (Some "Well done.")
                            (Some (8 # 1)) (Some true)) in
  let answer := [InterviewModal.ChangeAnswer "A function with its scope.";
                 InterviewModal.ClickSubmit] in
  let test := [InterviewModal.ClickStart; InterviewModal.StartOutcome (ask 1)]
              ++ answer ++ [InterviewModal.AnswerOutcome (ask 2)]
              ++ answer ++ [InterviewModal.AnswerOutcome (ask 3)]
              ++ answer ++ [InterviewModal.AnswerOutcome (ask 4)]
              ++ answer
              ++ [InterviewModal.DialogClose; InterviewModal.AnswerOutcome passed] in
  let k := ChecklistView.set_interview (Some tid) (Some "Review closures")
             (ChecklistView.init c) in
  let opened := [ChecklistSys.User (ChecklistView.ClickTestKnowledge 1 0)] in
  let by_hand := [ChecklistSys.User ChecklistView.ModalClose;
                  ChecklistSys.User (ChecklistView.ClickToggle 1 0);
                  ChecklistSys.UpdateOutcome 0 (Resolved (ChecklistView.with_status Done item))] in
  let update := ReqUpdateTodo "s1" tid Done in
  let updates := List.filter (λ e, match e with ReqUpdateTodo _ _ _ => true | _ => false end) in
  (λ r, ChecklistSys.view r.1) <$> ChecklistSys.run cp opened (ChecklistSys.mounted c)
    = Some k ∧
  Wiring.modal_props cp k = Some mp ∧
  (λ r, List.filter InterviewModal.is_onComplete r.2)
    <$> InterviewModal.run mp test InterviewModal.fresh
    = Some [CallOnComplete true (8 # 1)] ∧
  ChecklistView.onComplete k true (8 # 1) = [SetTimeout 200] ∧
  (λ r, (λ gi, status gi.2)
          <$> ChecklistView.item_at
                (ChecklistView.checklist (ChecklistSys.view r.1)) 1 0)
    <$> ChecklistSys.run cp (opened ++ by_hand) (ChecklistSys.mounted c)
    = Some (Some Done) ∧
  (λ r, updates r.2) <$> ChecklistSys.run cp (opened ++ by_hand) (ChecklistSys.mounted c)
    = Some [update] ∧
  (λ r, updates r.2)
    <$> ChecklistSys.run cp (opened ++ by_hand ++ [ChecklistSys.CompletionTimer k])
          (ChecklistSys.mounted c)
    = Some [update; update].
Proof.
  intros tid item c cp mp ask passed answer test k opened by_hand update updates.
  repeat split; vm_compute; reflexivity.
Qed.

(** ** The knowledge-test sub-dialogue *)

Lemma start_dialogue_ok gw topic sd resp :
  KnowledgeTest.start_dialogue gw topic = inr (sd, resp) →
  KnowledgeTest.phase sd = KnowledgeTest.Asking 1 ∧
  is_complete resp = false ∧
  ∃ q, ir_question resp = Some q ∧ question_number q = 1 ∧
       total_questions q = 4.
Proof.
  unfold KnowledgeTest.start_dialogue.
  destruct (KnowledgeTest.generateInterviewQuestion gw topic []) as [q|]; [|done].
  intros [= <- <-]. simpl. split; [done|]. split; [done|].
  eexists. split; [done|]. split; reflexivity.
Qed.

Lemma answer_dialogue_accepts gw a sd sd' resp :
  phase_ok (KnowledgeTest.phase sd) →
  KnowledgeTest.answer_dialogue gw a sd = inr (sd', resp) →
  phase_ok (KnowledgeTest.phase sd') ∧
  answered (KnowledgeTest.phase sd) < 4 ∧
  answered (KnowledgeTest.phase sd') = S (answered (KnowledgeTest.phase sd)) ∧
  is_complete resp = bool_decide (answered (KnowledgeTest.phase sd) = 3) ∧
  (answered (KnowledgeTest.phase sd) < 3 →
   ∃ q, ir_question resp = Some q ∧
        question_number q = answered (KnowledgeTest.phase sd) + 2 ∧
        total_questions q = 4) ∧
  (answered (KnowledgeTest.phase sd) = 3 →
   ir_question resp = None ∧ is_Some (ir_rating resp) ∧ is_Some (ir_passed resp)).
Proof.
  unfold KnowledgeTest.answer_dialogue.
  destruct (KnowledgeTest.phase sd) as [n|] eqn:Hph; [|done]. simpl.
  intros Hn.
  destruct (KnowledgeTest.evaluateAnswer gw _ a) as [fb|]; [|done].
  unfold KnowledgeTest.total in *.
  destruct (n <? 4)%nat eqn:Hlt.
  - apply Nat.ltb_lt in Hlt.
    destruct (KnowledgeTest.generateInterviewQuestion gw _ _) as [q'|]; [|done].
    intros [= <- <-]. simpl.
    rewrite bool_decide_eq_false_2 by lia.
    repeat split; try (unfold KnowledgeTest.total; lia).
    intros _. eexists. split; [done|]. simpl. split; [lia|done].
  - apply Nat.ltb_ge in Hlt.
    destruct (KnowledgeTest.summarizeInterview gw _) as [[r overall]|]; [|done].
    intros [= <- <-]. simpl.
    rewrite bool_decide_eq_true_2 by lia.
    repeat split; try (unfold KnowledgeTest.total; lia); eauto.
Qed.

Lemma answer_dialogue_complete gw a sd :
  KnowledgeTest.is_Complete (KnowledgeTest.phase sd) = true →
  KnowledgeTest.answer_dialogue gw a sd = inl KnowledgeTest.InvalidState.
Proof.
  unfold KnowledgeTest.answer_dialogue.
  by destruct (KnowledgeTest.phase sd).
Qed.

Lemma is_Complete_answered ph :
  phase_ok ph → KnowledgeTest.is_Complete ph = true ↔ answered ph = 4.
Proof.
  destruct ph as [n|]; simpl; [|done].
  unfold KnowledgeTest.total. intros Hn. split; [done|lia].
Qed.

Lemma answer_all_spec calls sd sd' rs :
  phase_ok (KnowledgeTest.phase sd) →
  KnowledgeTest.answer_all calls sd = (sd', rs) →
  phase_ok (KnowledgeTest.phase sd') ∧
  answered (KnowledgeTest.phase sd') =
    answered (KnowledgeTest.phase sd) + length (KnowledgeTest.accepted rs) ∧
  answered (KnowledgeTest.phase sd') ≤ 4 ∧
  ∀ j resp, KnowledgeTest.accepted rs !! j = Some resp →
    let k := answered (KnowledgeTest.phase sd) + j in
    is_complete resp = bool_decide (k = 3) ∧
    (k < 3 → ∃ q, ir_question resp = Some q ∧ question_number q = k + 2 ∧
                  total_questions q = 4) ∧
    (k = 3 → ir_question resp = None ∧ is_Some (ir_rating resp) ∧
             is_Some (ir_passed resp)).
Proof.
  revert sd sd' rs. induction calls as [|[gw a] calls IH]; intros sd sd' rs Hok Hrun.
  - simpl in Hrun. simplify_eq. simpl. split; [done|]. split; [lia|]. split.
    + destruct (KnowledgeTest.phase sd'); simpl in *;
        unfold KnowledgeTest.total in *; lia.
    + intros j resp Hj. done.
  - simpl in Hrun.
    destruct (KnowledgeTest.answer_dialogue gw a sd) as [e|[sd1 resp1]] eqn:Hans.
    + destruct (KnowledgeTest.answer_all calls sd) as [sd2 rs2] eqn:Hrest.
      simplify_eq. simpl. by apply IH.
    + destruct (KnowledgeTest.answer_all calls sd1) as [sd2 rs2] eqn:Hrest.
      simplify_eq.
      destruct (answer_dialogue_accepts _ _ _ _ _ Hok Hans)
        as (Hok1 & Hlt & Hs & Hc & Hq & Hlast).
      destruct (IH _ _ _ Hok1 Hrest) as (Hok2 & Hlen & Hle & Hresp).
      simpl. split; [done|]. split; [lia|]. split; [done|].
      intros [|j] resp Hj; simpl in Hj.
      * simplify_eq. rewrite Nat.add_0_r. done.
      * specialize (Hresp j resp Hj). simpl in Hresp.
        rewrite Hs in Hresp.
        replace (answered (KnowledgeTest.phase sd) + S j)
          with (S (answered (KnowledgeTest.phase sd)) + j) by lia.
        done.
Qed.

Lemma answer_dialogue_available gw a sd :
  gateway_available gw →
  KnowledgeTest.is_Complete (KnowledgeTest.phase sd) = false →
  ∃ sd' resp, KnowledgeTest.answer_dialogue gw a sd = inr (sd', resp).
Proof.
  intros (Hq & He & Hsum) Hph. unfold KnowledgeTest.answer_dialogue.
  destruct (KnowledgeTest.phase sd) as [n|]; [|done].
  destruct (He (default "" (last (KnowledgeTest.asked sd))) a) as [fb ->].
  destruct (n <? KnowledgeTest.total)%nat.
  - destruct (Hq (KnowledgeTest.topic sd) (KnowledgeTest.asked sd)) as [q' ->]. eauto.
  - destruct (Hsum (KnowledgeTest.transcript sd ++
                    [(default "" (last (KnowledgeTest.asked sd)), a, fb)]))
      as [[r o] ->]. eauto.
Qed.

Lemma answer_all_available calls sd sd' rs :
  Forall (λ c, gateway_available c.1) calls →
  phase_ok (KnowledgeTest.phase sd) →
  KnowledgeTest.answer_all calls sd = (sd', rs) →
  length (KnowledgeTest.accepted rs) =
    length calls `min` (4 - answered (KnowledgeTest.phase sd)).
Proof.
  revert sd sd' rs. induction calls as [|[gw a] calls IH];
    intros sd sd' rs Hav Hok Hrun; [by simplify_eq/=|].
  apply Forall_cons in Hav as [Hgw Hav]. simpl in Hrun, Hgw.
  change (length ((gw, a) :: calls)) with (S (length calls)).
  destruct (KnowledgeTest.answer_dialogue gw a sd) as [e|[sd1 resp1]] eqn:Hans.
  - destruct (KnowledgeTest.answer_all calls sd) as [sd2 rs2] eqn:Hrest.
    simplify_eq.
    change (KnowledgeTest.accepted (inl e :: rs2)) with (KnowledgeTest.accepted rs2).
    rewrite (IH _ _ _ Hav Hok Hrest).
    destruct (KnowledgeTest.is_Complete (KnowledgeTest.phase sd)) eqn:Hc.
    + apply is_Complete_answered in Hc; [|done]. rewrite Hc. lia.
    + destruct (answer_dialogue_available gw a sd Hgw Hc) as (? & ? & ?). congruence.
  - destruct (KnowledgeTest.answer_all calls sd1) as [sd2 rs2] eqn:Hrest.
    simplify_eq.
    change (KnowledgeTest.accepted (inr resp1 :: rs2))
      with (resp1 :: KnowledgeTest.accepted rs2).
    destruct (answer_dialogue_accepts _ _ _ _ _ Hok Hans) as (Hok1 & Hlt & Hs & _).
    cbn [length]. rewrite (IH _ _ _ Hav Hok1 Hrest), Hs. lia.
Qed.

Lemma modal_complete_locks mp i e :
  InterviewModal.isComplete (InterviewModal.state i) = true →
  (∀ r, e ≠ InterviewModal.StartOutcome r) →
  (∀ r, e ≠ InterviewModal.AnswerOutcome r) →
  e ≠ InterviewModal.DialogClose →
  InterviewModal.step mp e i = None.
Proof.
  intros Hc Hs Ha Hd. destruct i as [s m pend]. simpl in Hc.
  destruct e as [|v| | | |r|r]; simpl; rewrite ?Hc;
    try (by destruct m, (InterviewModal.currentQuestion s)).
  - by destruct (Hs r).
  - by destruct (Ha r).
Qed.

Lemma omap_question_length n (l : list InterviewResponse) :
  (∀ j resp, l !! j = Some resp → is_Some (ir_question resp) → j < n) →
  length (omap ir_question l) ≤ n.
Proof.
  revert n. induction l as [|x l IH]; intros n Hl; [simpl; lia|].
  assert (Htl : ∀ j resp, l !! j = Some resp → is_Some (ir_question resp) →
                          j < n - 1).
  { intros j resp Hj Hs. specialize (Hl (S j) resp Hj Hs). lia. }
  specialize (IH (n - 1) Htl).
  destruct (ir_question x) eqn:Hq.
  - assert (0 < n) by (apply (Hl 0 x); [done|by rewrite Hq]).
    unfold omap in *. simpl. rewrite Hq. simpl. lia.
  - unfold omap in *. simpl. rewrite Hq. lia.
Qed.

Lemma questions_length acc :
  (∀ j resp, acc !! j = Some resp → is_Some (ir_question resp) → j < 3) →
  length (KnowledgeTest.questions acc) ≤ 3.
Proof. apply omap_question_length. Qed.

(** C4. A sub-dialogue that was started accepts at most four answers: the
    response to the fourth accepted answer, and only that one, has
    [is_complete] set (with rating and pass flag, and no question); the
    earlier ones carry questions 2, 3 and 4 of 4, so with the first
    question four questions are produced in all and never a fifth. The
    sub-dialogue is complete exactly when four answers were accepted, it
    then refuses every further answer with InvalidState, and when the
    gateway answers every call the fourth answer is reached. On its side
    the modal becomes complete exactly on such a response and then accepts
    no further submission. *)
Theorem knowledge_test_ends_after_four_answers
    (gw0 : KnowledgeTest.Gateway) (todo_text : string)
    (sd0 sd : KnowledgeTest.SubDialogue) (resp0 : InterviewResponse)
    (calls : list (KnowledgeTest.Gateway * string))
    (rs : list (KnowledgeTest.Error + InterviewResponse)) :
  KnowledgeTest.start_dialogue gw0 todo_text = inr (sd0, resp0) →
  KnowledgeTest.answer_all calls sd0 = (sd, rs) →
  let acc := KnowledgeTest.accepted rs in
  (∃ q, ir_question resp0 = Some q ∧ question_number q = 1 ∧ total_questions q = 4) ∧
  is_complete resp0 = false ∧
  length acc ≤ 4 ∧
  (∀ j resp, acc !! j = Some resp →
     is_complete resp = bool_decide (j = 3) ∧
     (j < 3 → ∃ q, ir_question resp = Some q ∧ question_number q = j + 2 ∧
                   total_questions q = 4) ∧
     (j = 3 → ir_question resp = None ∧ is_Some (ir_rating resp) ∧
              is_Some (ir_passed resp))) ∧
  length (KnowledgeTest.questions (resp0 :: acc)) ≤ 4 ∧
  (KnowledgeTest.is_Complete (KnowledgeTest.phase sd) = true ↔ length acc = 4) ∧
  (KnowledgeTest.is_Complete (KnowledgeTest.phase sd) = true →
   ∀ gw a, KnowledgeTest.answer_dialogue gw a sd = inl KnowledgeTest.InvalidState) ∧
  (Forall (λ c, gateway_available c.1) calls → length acc = length calls `min` 4) ∧
  (∀ mp ms resp,
     InterviewModal.isComplete
       (InterviewModal.handleSubmitAnswer_resume mp (Resolved resp) ms).1
     = is_complete resp || InterviewModal.isComplete ms) ∧
  (∀ mp i v, InterviewModal.isComplete (InterviewModal.state i) = true →
     InterviewModal.step mp InterviewModal.ClickSubmit i = None ∧
     InterviewModal.step mp InterviewModal.KeyCmdEnter i = None ∧
     InterviewModal.step mp (InterviewModal.ChangeAnswer v) i = None ∧
     InterviewModal.step mp InterviewModal.ClickStart i = None).
Proof.
  intros Hstart Hrun acc.
  destruct (start_dialogue_ok _ _ _ _ Hstart) as (Hph & Hc0 & q0 & Hq0 & Hn0 & Ht0).
  assert (Hok : phase_ok (KnowledgeTest.phase sd0)).
  { rewrite Hph. simpl. unfold KnowledgeTest.total. lia. }
  assert (Hz : answered (KnowledgeTest.phase sd0) = 0) by by rewrite Hph.
  destruct (answer_all_spec _ _ _ _ Hok Hrun) as (Hok' & Hlen & Hle & Hresp).
  rewrite Hz in Hlen, Hresp. simpl in Hlen, Hresp. fold acc in Hlen, Hresp.
  split; [eauto|]. split; [done|]. split; [lia|]. split; [done|].
  split; [|split; [|split; [|split; [|split]]]].
  - simpl. rewrite Hq0. simpl.
    assert (length (KnowledgeTest.questions acc) ≤ 3); [|lia].
    apply questions_length. intros j resp Hj [q Hq].
    destruct (Hresp j resp Hj) as (_ & _ & Hlast).
    destruct (decide (j < 3)) as [|Hge]; [done|].
    assert (j = 3) as ->.
    { apply lookup_lt_Some in Hj. lia. }
    destruct (Hlast eq_refl) as [Hnone _]. congruence.
  - rewrite is_Complete_answered by done. lia.
  - intros Hc gw a. by apply answer_dialogue_complete.
  - intros Hav. unfold acc.
    rewrite (answer_all_available _ _ _ _ Hav Hok Hrun), Hz. done.
  - intros mp ms resp. unfold InterviewModal.handleSubmitAnswer_resume.
    destruct (is_complete resp); [done|]. simpl.
    unfold InterviewModal.on_next_response.
    destruct (ir_feedback resp) as [f|]; [destruct (Js.truthy f)|];
      by destruct (ir_question resp).
  - intros mp i v Hc. repeat split; by apply modal_complete_locks.
Qed.

Lemma knowledge_test_ends_after_four_answers_witness :
  let gw := KnowledgeTest.mkGateway
              (λ t asked, Some (t +:+ ", question " +:+
                                String (Ascii.ascii_of_nat (49 + length asked)) ""))
              (λ q a, Some "Noted.")
              (λ tr, Some (8 # 1, "Solid answers.")) in
  let calls := [(gw, "a1"); (gw, "a2"); (gw, "a3"); (gw, "a4"); (gw, "a5")] in
  ∃ sd0 resp0 sd rs,
    KnowledgeTest.start_dialogue gw "Closures" = inr (sd0, resp0) ∧
    KnowledgeTest.answer_all calls sd0 = (sd, rs) ∧
    length (KnowledgeTest.accepted rs) = 4 ∧
    rs !! 4 = Some (inl KnowledgeTest.InvalidState) ∧
    length (KnowledgeTest.questions (resp0 :: KnowledgeTest.accepted rs)) ≤ 4.
Proof.
  intros gw calls.
  destruct (KnowledgeTest.start_dialogue gw "Closures") as [e|[sd0 resp0]] eqn:Hstart;
    [vm_compute in Hstart; discriminate|].
  destruct (KnowledgeTest.answer_all calls sd0) as [sd rs] eqn:Hrun.
  exists sd0, resp0, sd, rs.
  destruct (knowledge_test_ends_after_four_answers gw "Closures" sd0 sd resp0 calls rs
              Hstart Hrun) as (_ & _ & _ & _ & Hq & _).
  split; [done|]. split; [done|]. split; [|split; [|exact Hq]].
  - vm_compute in Hstart. injection Hstart as <- <-.
    vm_compute in Hrun. injection Hrun as <- <-. reflexivity.
  - vm_compute in Hstart. injection Hstart as <- <-.
    vm_compute in Hrun. injection Hrun as <- <-. reflexivity.
Defined.

(** ** Regeneration and validation *)

Lemma done_index_spec normalize old t :
  t ∈ Regeneration.done_index normalize old ↔
  ∃ o, o ∈ ChecklistView.all_items old ∧ status o = Done ∧ normalize (text o) = t.
Proof.
  unfold Regeneration.done_index.
  induction (ChecklistView.all_items old) as [|x l IH]; simpl.
  - split; [intros H; by apply elem_of_empty in H|].
    intros (o & Ho & _). by apply elem_of_nil in Ho.
  - destruct (status x) eqn:Hs.
    + rewrite IH. split.
      * intros (o & Ho & Hd & Ht). exists o. split; [by apply list_elem_of_further|done].
      * intros (o & Ho & Hd & Ht). apply elem_of_cons in Ho as [->|Ho]; [congruence|eauto].
    + rewrite elem_of_union, elem_of_singleton, IH. split.
      * intros [->|(o & Ho & Hd & Ht)].
        -- exists x. split; [apply list_elem_of_here|done].
        -- exists o. split; [by apply list_elem_of_further|done].
      * intros (o & Ho & Hd & Ht). apply elem_of_cons in Ho as [->|Ho]; [by left|].
        right. eauto.
Qed.

Lemma item_at_regenerate normalize old generated gi ii :
  ChecklistView.item_at (Regeneration.regenerate normalize old generated) gi ii =
  (λ '(g, i),
     (ChecklistView.with_items
        (map (Regeneration.carry_item normalize (Regeneration.done_index normalize old))
             (items g)) g,
      Regeneration.carry_item normalize (Regeneration.done_index normalize old) i))
  <$> ChecklistView.item_at generated gi ii.
Proof.
  unfold ChecklistView.item_at, Regeneration.regenerate. simpl.
  rewrite list_lookup_fmap.
  destruct (groups generated !! gi) as [g|]; [|done]. simpl.
  rewrite list_lookup_fmap. by destruct (items g !! ii).
Qed.

(** C1. Regenerating a checklist keeps done-status: when an existing item
    is done and its normalised text equals the normalised text of a
    generated item, the item at that place of the regenerated checklist has
    status done, and the text, id, group key, priority, estimate and
    rationale it was generated with. Every generated item is kept, changed
    at most in its status, and an item only becomes done through such a
    match. *)
Theorem regeneration_preserves_done
    (normalize : string → string) (old generated : ChecklistStructure)
    (o n : TodoItem) (gi ii : nat) (g : ChecklistGroup) :
  o ∈ ChecklistView.all_items old →
  status o = Done →
  ChecklistView.item_at generated gi ii = Some (g, n) →
  normalize (text o) = normalize (text n) →
  let new := Regeneration.regenerate normalize old generated in
  (∃ g' n', ChecklistView.item_at new gi ii = Some (g', n') ∧
            status n' = Done ∧ same_but_status n' n ∧
            n' = ChecklistView.with_status Done n ∧
            key g' = key g ∧ label g' = label g) ∧
  (∀ gj ij gx x,
     ChecklistView.item_at generated gj ij = Some (gx, x) →
     ∃ gx' x', ChecklistView.item_at new gj ij = Some (gx', x') ∧
               key gx' = key gx ∧
               same_but_status x' x ∧
               x' = ChecklistView.with_status (status x') x ∧
               (status x = Done → status x' = Done) ∧
               (status x' = Done → status x = Done ∨
                  ∃ o', o' ∈ ChecklistView.all_items old ∧ status o' = Done ∧
                        normalize (text o') = normalize (text x))) ∧
  (∀ gj ij, is_Some (ChecklistView.item_at new gj ij) ↔
            is_Some (ChecklistView.item_at generated gj ij)).
Proof.
  intros Ho Hdone Hat Hmatch new.
  assert (Hin : normalize (text n) ∈ Regeneration.done_index normalize old).
  { apply done_index_spec. eauto. }
  split; [|split].
  - eexists _, _. subst new. rewrite item_at_regenerate, Hat. simpl.
    unfold Regeneration.carry_item. rewrite bool_decide_eq_true_2 by done.
    split; [reflexivity|]. unfold same_but_status. simpl. done.
  - intros gj ij gx x Hx. eexists _, _. subst new.
    rewrite item_at_regenerate, Hx. simpl. split; [reflexivity|]. split; [done|].
    unfold Regeneration.carry_item, same_but_status.
    destruct (bool_decide _) eqn:Hb.
    + apply bool_decide_eq_true in Hb. apply done_index_spec in Hb. simpl.
      split; [done|]. split; [done|]. split; [done|]. intros _. by right.
    + split; [done|]. split; [by rewrite with_status_same|]. split; [done|]. by left.
  - intros gj ij. subst new. by rewrite item_at_regenerate, fmap_is_Some.
Qed.

Lemma regeneration_preserves_done_witness :
  let normalize := λ s, Js.toLowerCase (Js.trim s) in
  let star := mkTodoItem "11111111-2222-3333-4444-555555555555" "evidence"
                "Write STAR stories" Done None None None in
  let old := mkChecklist "Interview" "interview" []
               [mkGroup "evidence" "Evidence & Examples" [star]] [] in
  let star' := mkTodoItem "99999999-2222-3333-4444-555555555555" "evidence"
                 " write STAR stories" Todo (Some High) (Some 45%Z) None in
  let generated := mkChecklist "Interview" "interview" []
                     [mkGroup "context" "Context Understanding" [];
                      mkGroup "evidence" "Evidence & Examples" [star']] [] in
  ∃ g' n', ChecklistView.item_at (Regeneration.regenerate normalize old generated) 1 0
             = Some (g', n') ∧
           status n' = Done ∧ text n' = " write STAR stories".
Proof.
  intros normalize star old star' generated.
  destruct (regeneration_preserves_done normalize old generated star star' 1 0
              (mkGroup "evidence" "Evidence & Examples" [star']))
    as [(g' & n' & Hn' & Hdone & (_ & _ & Htext & _) & _) _].
  - simpl. apply list_elem_of_here.
  - reflexivity.
  - reflexivity.
  - vm_compute. reflexivity.
  - by exists g', n'.
Defined.

Lemma validate_groups_keys fresh n l gs n' :
  Validator.validate_groups fresh n l = inr (gs, n') →
  ∀ g, g ∈ gs → key g ∈ Validator.group_keys.
Proof.
  revert n gs n'. induction l as [|r l IH]; intros n gs n' Hv; simpl in Hv.
  - simplify_eq. intros g Hg. by apply elem_of_nil in Hg.
  - destruct (bool_decide (Validator.rg_key r ∈ Validator.group_keys)) eqn:Hk.
    + apply bool_decide_eq_true in Hk.
      destruct (Validator.validate_items fresh _ n _) as [e|[its n1]]; [done|].
      destruct (Validator.validate_groups fresh n1 l) as [e|[gs' n2]] eqn:Hrec; [done|].
      simplify_eq. intros g [->|Hg]%elem_of_cons; [done|]. eauto.
    + eauto.
Qed.

(** C8. A checklist that passed validation has at most three next actions:
    they are the first three of the ones the model gave (all of them when it
    gave three or fewer, so nothing is added), its groups carry only the
    fixed keys, and the checklist view shows exactly these actions. *)
Theorem next_3_actions_at_most_three
    (fresh : nat → string) (parsed : option Validator.RawChecklist)
    (c : ChecklistStructure) :
  Validator.validate fresh parsed = inr c →
  length (next_3_actions c) ≤ 3 ∧
  (∃ raw, parsed = Some raw ∧
          let given := default [] (Validator.raw_next_3_actions raw) in
          next_3_actions c = take 3 given ∧
          next_3_actions c `prefix_of` given ∧
          length (next_3_actions c) = 3 `min` length given ∧
          (length given ≤ 3 → next_3_actions c = given)) ∧
  (∀ g, g ∈ groups c → key g ∈ Validator.group_keys) ∧
  match ChecklistView.render_next_actions c with
  | Some shown => shown = next_3_actions c ∧ 0 < length shown ≤ 3
  | None => next_3_actions c = []
  end.
Proof.
  unfold Validator.validate. intros Hv.
  destruct parsed as [raw|]; [|done].
  destruct (Validator.raw_title raw) as [t|]; [|done].
  destruct (Validator.raw_event_type raw) as [ev|]; [|done].
  destruct (Validator.raw_groups raw) as [gs|]; [|done].
  destruct (Validator.validate_groups fresh 0 gs) as [e|[gs' n']] eqn:Hg; [done|].
  simplify_eq. simpl. unfold Validator.validate_next_3_actions.
  set (given := default [] (Validator.raw_next_3_actions raw)).
  assert (Hlen : length (take 3 given) = 3 `min` length given) by apply length_take.
  split; [lia|]. split; [|split].
  - exists raw. split; [done|]. simpl. fold given.
    split; [done|]. split; [apply prefix_take|]. split; [done|].
    intros Hle. by apply take_ge.
  - by eapply validate_groups_keys.
  - unfold ChecklistView.render_next_actions. simpl.
    destruct (take 3 given) as [|a l] eqn:Ht; simpl; [done|].
    rewrite !list_fmap_id. split; [done|]. cbn [length] in Hlen. lia.
Qed.

Lemma next_3_actions_at_most_three_witness :
  let raw := Validator.mkRaw (Some "Frontend interview") (Some "interview") None
               (Some [Validator.mkRawGroup "skills" "Skills / Knowledge Prep"
                        [Validator.mkRawItem None "Review closures" None None None None];
                      Validator.mkRawGroup "misc" "Other" []])
               (Some ["a"; "b"; "c"; "d"; "e"]) in
  ∃ c, Validator.validate (λ n, "id") (Some raw) = inr c ∧
       next_3_actions c = ["a"; "b"; "c"].
Proof.
  intros raw.
  destruct (Validator.validate (λ n, "id") (Some raw)) as [e|c] eqn:Hv;
    [vm_compute in Hv; discriminate|].
  exists c. split; [done|].
  destruct (next_3_actions_at_most_three _ _ _ Hv) as (_ & (raw' & Hraw & Htake & _) & _).
  injection Hraw as <-. exact Htake.
Defined.

(** The continuation of a toggle writes the checklist of the render that
    started it, whatever the component holds when the request resolves. *)
Lemma toggle_resume_uses_closure p k upd st :
  ChecklistView.checklist
    (ChecklistView.handleToggleTodo_resume p k (Resolved upd) st).1 =
  ChecklistView.updatedChecklist (ChecklistView.tc_checklist k) (ChecklistView.tc_item k).
Proof. reflexivity. Qed.

(** A rejected update leaves the checklist as it is. *)
Lemma toggle_rejected_keeps_checklist p k msg st :
  ChecklistView.checklist
    (ChecklistView.handleToggleTodo_resume p k (Rejected msg) st).1 =
  ChecklistView.checklist st.
Proof. reflexivity. Qed.

(** ** The sub-dialogue store *)

(** A malformed id is refused before anything is asked or stored. *)
Lemma start_refuses_malformed_id (gw : KnowledgeTest.Gateway)
    (sid todo_id todo_text : string)
    (st : gmap (string * string) KnowledgeTest.SubDialogue) :
  ¬ Uuid.uuid_shaped todo_id →
  KnowledgeTest.start gw sid todo_id todo_text st = inl KnowledgeTest.InvalidId.
Proof.
  intros Hno%uuid_test_false. unfold KnowledgeTest.start. by rewrite Hno.
Qed.

(** A started sub-dialogue replaces whatever was stored for the item. *)
Lemma start_is_fresh (gw : KnowledgeTest.Gateway)
    (sid todo_id todo_text : string)
    (st st' : gmap (string * string) KnowledgeTest.SubDialogue)
    (resp : InterviewResponse) :
  KnowledgeTest.start gw sid todo_id todo_text st = inr (st', resp) →
  ∃ sd, st' !! (sid, todo_id) = Some sd ∧
        KnowledgeTest.phase sd = KnowledgeTest.Asking 1 ∧
        KnowledgeTest.transcript sd = [] ∧
        ∀ k, k ≠ (sid, todo_id) → st' !! k = st !! k.
Proof.
  unfold KnowledgeTest.start. destruct (negb _); [done|].
  destruct (KnowledgeTest.start_dialogue gw todo_text) as [e|[sd r]] eqn:Hs; [done|].
  intros [= <- <-]. exists sd. rewrite lookup_insert_eq. split; [done|].
  unfold KnowledgeTest.start_dialogue in Hs.
  destruct (KnowledgeTest.generateInterviewQuestion gw todo_text []); [|done].
  simplify_eq. simpl. split; [done|]. split; [done|].
  intros k Hk. by rewrite lookup_insert_ne.
Qed.

(** An answer for an item without a sub-dialogue is refused. *)
Lemma answer_not_found (gw : KnowledgeTest.Gateway) (sid todo_id ans : string)
    (st : gmap (string * string) KnowledgeTest.SubDialogue) :
  st !! (sid, todo_id) = None →
  KnowledgeTest.answer gw sid todo_id ans st = inl KnowledgeTest.NotFound.
Proof. intros H. unfold KnowledgeTest.answer. by rewrite H. Qed.

(** * Further properties of the components *)

(** ** Progress header *)

Lemma totalItems_acc (l : list ChecklistGroup) (a : nat) :
  fold_left (λ sum group, sum + length (items group)) l a
  = a + length (flat_map items l).
Proof.
  revert a. induction l as [|g l IH]; intros a; simpl; [lia|].
  rewrite IH, length_app. lia.
Qed.

Lemma completedItems_acc (l : list ChecklistGroup) (a : nat) :
  fold_left
    (λ sum group,
       sum + length (List.filter (λ item, bool_decide (status item = Done))
                       (items group))) l a
  = a + length (List.filter (λ item, bool_decide (status item = Done))
                  (flat_map items l)).
Proof.
  revert a. induction l as [|g l IH]; intros a; simpl; [lia|].
  rewrite IH, List.filter_app, length_app. lia.
Qed.

Lemma filter_done_length (l : list TodoItem) :
  length (List.filter (λ item, bool_decide (status item = Done)) l) ≤ length l ∧
  (length (List.filter (λ item, bool_decide (status item = Done)) l) = length l ↔
   ∀ i, i ∈ l → status i = Done).
Proof.
  induction l as [|x l [IHle IHeq]]; simpl.
  - split; [lia|]. split; [|done]. intros _ i Hi. by apply elem_of_nil in Hi.
  - destruct (bool_decide (status x = Done)) eqn:Hx; simpl.
    + apply bool_decide_eq_true in Hx. split; [lia|]. split.
      * intros Hl i [->|Hi]%elem_of_cons; [done|]. apply IHeq; [lia|done].
      * intros Hall. f_equal. apply IHeq. intros i Hi. apply Hall.
        by apply list_elem_of_further.
    + apply bool_decide_eq_false in Hx. split; [lia|]. split; [lia|].
      intros Hall. destruct Hx. apply Hall. apply list_elem_of_here.
Qed.

(** X1. The two counters of the header count what they say: [totalItems]
    is the number of items of all groups, [completedItems] the number of
    those that are done; so completed never exceeds total, they are equal
    exactly when every item is done, and total is zero exactly when every
    group is empty (no card is presented). *)
Theorem progress_counts (c : ChecklistStructure) :
  Progress.totalItems c = length (ChecklistView.all_items c) ∧
  Progress.completedItems c =
    length (List.filter (λ item, bool_decide (status item = Done))
              (ChecklistView.all_items c)) ∧
  Progress.completedItems c ≤ Progress.totalItems c ∧
  (Progress.completedItems c = Progress.totalItems c ↔
   ∀ i, i ∈ ChecklistView.all_items c → status i = Done) ∧
  (Progress.totalItems c = 0 ↔ ∀ g, g ∈ groups c → items g = []).
Proof.
  unfold Progress.totalItems, Progress.completedItems, ChecklistView.all_items.
  rewrite totalItems_acc, completedItems_acc. simpl.
  destruct (filter_done_length (flat_map items (groups c))) as [Hle Heq].
  split; [done|]. split; [done|]. split; [done|]. split; [done|].
  clear Hle Heq. induction (groups c) as [|g l IH]; simpl.
  - split; [|done]. intros _ g Hg. by apply elem_of_nil in Hg.
  - rewrite length_app. split.
    + intros H0 g' Hg'. apply elem_of_cons in Hg' as [Hsame|Hg'].
      * subst g'. destruct (items g); [done|simpl in H0; lia].
      * apply IH; [lia|done].
    + intros Hall. rewrite (Hall g (list_elem_of_here _ _)). simpl.
      apply IH. intros g' Hg'. apply Hall. by apply list_elem_of_further.
Qed.






(** ** Toggles and the updates they await *)

(** X3. A rejected update leaves the component as it was before the click:
    the checklist is untouched, the parent is not notified, the user is
    alerted and, when the item was not already being updated, its toggle
    button is enabled again, so the whole state is the one before. *)
Theorem rejected_toggle_restores
    (p : ChecklistView.Props) (st : ChecklistView.State)
    (item : TodoItem) (msg : string) :
  ¬ (id item ∈ ChecklistView.updatingIds st) →
  let t := ChecklistView.handleToggleTodo p item (Rejected msg) st in
  t.1 = st ∧
  t.2 = [ReqUpdateTodo (ChecklistView.sessionId p) (id item) (ChecklistView.newStatus item);
         ConsoleError "Failed to update todo:";
         Alert "Failed to update todo. Please try again."].
Proof.
  intros Hfree t. split; [|reflexivity].
  subst t. unfold ChecklistView.handleToggleTodo. simpl.
  destruct st as [c u i txt]. unfold ChecklistView.set_updatingIds. simpl in *.
  f_equal. apply set_eq. intros x.
  rewrite elem_of_difference, elem_of_union, elem_of_singleton.
  split; [tauto|]. intros Hx. split; [by right|]. by intros ->.
Qed.

Lemma rejected_toggle_restores_witness :
  let a := mkTodoItem "a" "skills" "Review closures" Todo None None None in
  let st := ChecklistView.init
              (mkChecklist "t" "interview" [] [mkGroup "skills" "Skills" [a]] []) in
  (ChecklistView.handleToggleTodo (ChecklistView.mkProps "s" true) a
     (Rejected "Failed to update todo: Not Found") st).1 = st.
Proof.
  intros a st.
  apply (rejected_toggle_restores (ChecklistView.mkProps "s" true) st a).
  simpl. intros H. by apply elem_of_empty in H.
Defined.

Lemma elem_of_delete_NoDup (l : list string) n y :
  NoDup l → l !! n = Some y → ∀ x, x ∈ delete n l ↔ x ∈ l ∧ x ≠ y.
Proof.
  intros Hnd Hn x. rewrite delete_take_drop.
  pose proof (take_drop_middle l n y Hn) as Hl.
  assert (Hmem : x ∈ l ↔ x ∈ take n l ++ y :: drop (S n) l) by by rewrite Hl.
  rewrite Hmem. rewrite <- Hl in Hnd. clear Hmem Hl.
  apply NoDup_app in Hnd as (_ & Hdisj & Htl).
  apply NoDup_cons in Htl as [Hy _].
  rewrite !elem_of_app, elem_of_cons. split.
  - intros [Hx|Hx].
    + split; [by left|]. intros ->. apply (Hdisj _ Hx). apply list_elem_of_here.
    + split; [by right; right|]. by intros ->.
  - intros [[Hx|[->|Hx]] Hne]; [by left|done|by right].
Qed.

Lemma elem_of_delete_other (l : list string) n y x :
  l !! n = Some y → x ∈ l → x ≠ y → x ∈ delete n l.
Proof.
  intros Hn Hx Hne. rewrite delete_take_drop.
  rewrite <- (take_drop_middle l n y Hn) in Hx.
  rewrite elem_of_app, elem_of_cons in Hx. rewrite elem_of_app.
  destruct Hx as [Hx|[->|Hx]]; [by left|done|by right].
Qed.

(** Whoever calls [handleToggleTodo], an id marked as updating has an update
    that is awaited. *)
Lemma sys_step_marked p e s s' eff :
  (∀ tid, tid ∈ ChecklistView.updatingIds (ChecklistSys.view s) →
          tid ∈ ChecklistSys.awaited_ids s) →
  ChecklistSys.step p e s = Some (s', eff) →
  ∀ tid, tid ∈ ChecklistView.updatingIds (ChecklistSys.view s') →
         tid ∈ ChecklistSys.awaited_ids s'.
Proof.
  intros Hids Hstep. destruct s as [st aw].
  unfold ChecklistSys.awaited_ids in *. simpl in *.
  destruct e as [[gi ii|gi ii|]|n r|k]; simpl in Hstep.
  - destruct (ChecklistView.item_at _ gi ii) as [[g i]|]; [|done]. simpl in Hstep.
    destruct (bool_decide (id i ∈ ChecklistView.updatingIds st)); [done|].
    simplify_eq. simpl. intros tid.
    rewrite map_app, elem_of_union, elem_of_singleton, elem_of_app. simpl.
    rewrite list_elem_of_singleton. intros [->|Hin]; [by right|left; by apply Hids].
  - destruct (ChecklistView.item_at _ gi ii) as [[g i]|]; [|done]. simpl in Hstep.
    destruct (ChecklistView.offers_test_knowledge g i); [|done]. simpl in Hstep.
    unfold ChecklistView.onClick_testKnowledge in Hstep.
    destruct (negb _); simplify_eq; by simpl.
  - destruct (ChecklistView.modal_mounted st); [|done]. simpl in Hstep.
    simplify_eq. by simpl.
  - destruct (aw !! n) as [k|] eqn:Hk; [|done]. simpl in Hstep.
    assert (Hn : (map (λ k, id (ChecklistView.tc_item k)) aw) !! n
                 = Some (id (ChecklistView.tc_item k))).
    { change (map ?f aw) with (f <$> aw). by rewrite list_lookup_fmap, Hk. }
    assert (Hupd : ChecklistView.updatingIds
                     (ChecklistView.handleToggleTodo_resume p k r st).1
                   = ChecklistView.updatingIds st ∖ {[ id (ChecklistView.tc_item k) ]}).
    { unfold ChecklistView.handleToggleTodo_resume. by destruct r. }
    destruct (ChecklistView.handleToggleTodo_resume p k r st) as [st' eff'].
    simplify_eq. simpl in *. intros tid.
    change (map ?f (delete n aw)) with (f <$> delete n aw).
    rewrite list_fmap_delete, Hupd, elem_of_difference, elem_of_singleton.
    intros [Hin Hne]. eapply elem_of_delete_other; [exact Hn| |exact Hne].
    by apply Hids.
  - destruct (ChecklistView.modal_mounted k); [|done].
    destruct (ChecklistView.onComplete_timer_item k) as [item|];
      simpl in Hstep; simplify_eq; [|done].
    simpl. intros tid.
    rewrite map_app, elem_of_union, elem_of_singleton, elem_of_app. simpl.
    rewrite list_elem_of_singleton. intros [->|Hin]; [by right|left; by apply Hids].
Qed.

Lemma sys_run_marked p es s s' eff :
  (∀ tid, tid ∈ ChecklistView.updatingIds (ChecklistSys.view s) →
          tid ∈ ChecklistSys.awaited_ids s) →
  ChecklistSys.run p es s = Some (s', eff) →
  ∀ tid, tid ∈ ChecklistView.updatingIds (ChecklistSys.view s') →
         tid ∈ ChecklistSys.awaited_ids s'.
Proof.
  revert s eff. induction es as [|e es IH]; intros s eff Hids Hrun; simpl in Hrun.
  - by simplify_eq.
  - destruct (ChecklistSys.step p e s) as [[s1 eff1]|] eqn:Hstep; [|done].
    simpl in Hrun.
    destruct (ChecklistSys.run p es s1) as [[s2 eff2]|] eqn:Hrest; [|done].
    simpl in Hrun. simplify_eq.
    eapply (IH s1); [|done]. by eapply sys_step_marked.
Qed.

(** As long as only the toggle buttons call [handleToggleTodo], the ids
    under update are exactly the ids of the awaited updates, and no id is
    awaited twice. *)
Lemma sys_step_inv p e s s' eff :
  ChecklistSys.is_timer e = false →
  NoDup (ChecklistSys.awaited_ids s) →
  (∀ tid, tid ∈ ChecklistView.updatingIds (ChecklistSys.view s) ↔
          tid ∈ ChecklistSys.awaited_ids s) →
  ChecklistSys.step p e s = Some (s', eff) →
  NoDup (ChecklistSys.awaited_ids s') ∧
  (∀ tid, tid ∈ ChecklistView.updatingIds (ChecklistSys.view s') ↔
          tid ∈ ChecklistSys.awaited_ids s').
Proof.
  intros Hev Hnd Hids Hstep. destruct s as [st aw].
  unfold ChecklistSys.awaited_ids in *. simpl in *.
  destruct e as [[gi ii|gi ii|]|n r|k]; simpl in Hstep; [| | | |done].
  - destruct (ChecklistView.item_at _ gi ii) as [[g i]|]; [|done]. simpl in Hstep.
    destruct (bool_decide (id i ∈ ChecklistView.updatingIds st)) eqn:Hb; [done|].
    apply bool_decide_eq_false in Hb. simplify_eq. simpl.
    rewrite map_app. simpl. split.
    + apply NoDup_app. split; [done|]. split; [|apply NoDup_singleton].
      intros x Hx [->|Hn]%elem_of_cons; [|by apply elem_of_nil in Hn].
      apply Hb, Hids, Hx.
    + intros tid. rewrite elem_of_union, elem_of_singleton, elem_of_app,
        list_elem_of_singleton, Hids. tauto.
  - destruct (ChecklistView.item_at _ gi ii) as [[g i]|]; [|done]. simpl in Hstep.
    destruct (ChecklistView.offers_test_knowledge g i); [|done]. simpl in Hstep.
    unfold ChecklistView.onClick_testKnowledge in Hstep.
    destruct (negb _); simplify_eq; by simpl.
  - destruct (ChecklistView.modal_mounted st); [|done]. simpl in Hstep.
    simplify_eq. by simpl.
  - destruct (aw !! n) as [k|] eqn:Hk; [|done]. simpl in Hstep.
    assert (Hn : (map (λ k, id (ChecklistView.tc_item k)) aw) !! n
                 = Some (id (ChecklistView.tc_item k))).
    { change (map ?f aw) with (f <$> aw). by rewrite list_lookup_fmap, Hk. }
    assert (Hupd : ChecklistView.updatingIds
                     (ChecklistView.handleToggleTodo_resume p k r st).1
                   = ChecklistView.updatingIds st ∖ {[ id (ChecklistView.tc_item k) ]}).
    { unfold ChecklistView.handleToggleTodo_resume. by destruct r. }
    destruct (ChecklistView.handleToggleTodo_resume p k r st) as [st' eff'].
    simplify_eq. simpl in *.
    change (map ?f (delete n aw)) with (f <$> delete n aw).
    rewrite list_fmap_delete. split.
    + eapply sublist_NoDup; [exact Hnd|apply sublist_delete].
    + intros tid. rewrite Hupd, elem_of_difference, elem_of_singleton, Hids.
      symmetry. by apply elem_of_delete_NoDup.
Qed.

Lemma sys_run_inv p es s s' eff :
  Forall (λ e, ChecklistSys.is_timer e = false) es →
  NoDup (ChecklistSys.awaited_ids s) →
  (∀ tid, tid ∈ ChecklistView.updatingIds (ChecklistSys.view s) ↔
          tid ∈ ChecklistSys.awaited_ids s) →
  ChecklistSys.run p es s = Some (s', eff) →
  NoDup (ChecklistSys.awaited_ids s') ∧
  (∀ tid, tid ∈ ChecklistView.updatingIds (ChecklistSys.view s') ↔
          tid ∈ ChecklistSys.awaited_ids s').
Proof.
  revert s eff.
  induction es as [|e es IH]; intros s eff Hev Hnd Hids Hrun; simpl in Hrun.
  - by simplify_eq.
  - apply Forall_cons in Hev as [He Hev].
    destruct (ChecklistSys.step p e s) as [[s1 eff1]|] eqn:Hstep; [|done].
    simpl in Hrun.
    destruct (ChecklistSys.run p es s1) as [[s2 eff2]|] eqn:Hrest; [|done].
    simpl in Hrun. simplify_eq.
    destruct (sys_step_inv _ _ _ _ _ He Hnd Hids Hstep) as [Hnd1 Hids1].
    by eapply (IH s1).
Qed.

Lemma uuid_test_truthy s : Uuid.test Uuid.uuidRegex s = true → Js.truthy s = true.
Proof. destruct s; [intros H; vm_compute in H; discriminate|done]. Qed.

(** X4. [handleToggleTodo] has two callers, and only one of them is
    serialised per item. Whatever happened since mount, an id marked as
    updating has an update that is awaited, and the toggle button of such an
    item cannot be clicked. As long as only the toggle buttons started
    updates (clicks and request outcomes, in any order), no item has two
    updates awaited at once and the ids marked as updating are exactly the
    ids of the awaited updates. The timer of a passed knowledge test does
    not look at [updatingIds]: for an open skills item whose toggle is in
    flight when the test is opened, it sends a second update of the same
    item, and when the first of the two settles the toggle button is enabled
    although the other is still awaited. *)
Theorem toggles_are_serialised_per_item
    (p : ChecklistView.Props) (c : ChecklistStructure)
    (es : list ChecklistSys.Event) (s : ChecklistSys.Sys) (eff : list Effect) :
  ChecklistSys.run p es (ChecklistSys.mounted c) = Some (s, eff) →
  (∀ tid, tid ∈ ChecklistView.updatingIds (ChecklistSys.view s) →
          tid ∈ ChecklistSys.awaited_ids s) ∧
  (∀ gi ii g i,
     ChecklistView.item_at (ChecklistView.checklist (ChecklistSys.view s)) gi ii
       = Some (g, i) →
     id i ∈ ChecklistView.updatingIds (ChecklistSys.view s) →
     ChecklistSys.step p (ChecklistSys.User (ChecklistView.ClickToggle gi ii)) s = None) ∧
  (Forall (λ e, ChecklistSys.is_timer e = false) es →
   NoDup (ChecklistSys.awaited_ids s) ∧
   (∀ tid, tid ∈ ChecklistView.updatingIds (ChecklistSys.view s) ↔
           tid ∈ ChecklistSys.awaited_ids s) ∧
   (∀ gi ii g i,
      ChecklistView.item_at (ChecklistView.checklist (ChecklistSys.view s)) gi ii
        = Some (g, i) →
      id i ∈ ChecklistSys.awaited_ids s →
      ChecklistSys.step p (ChecklistSys.User (ChecklistView.ClickToggle gi ii)) s = None)) ∧
  (∀ gi ii g i,
     ChecklistView.item_at (ChecklistView.checklist (ChecklistSys.view s)) gi ii
       = Some (g, i) →
     NoDup (map id (ChecklistView.all_items
                      (ChecklistView.checklist (ChecklistSys.view s)))) →
     ChecklistView.offers_test_knowledge g i = true →
     Uuid.test Uuid.uuidRegex (id i) = true →
     Js.truthy (text i) = true →
     ¬ (id i ∈ ChecklistView.updatingIds (ChecklistSys.view s)) →
     let update := ReqUpdateTodo (ChecklistView.sessionId p) (id i) Done in
     ∃ s1 s2,
       ChecklistSys.run p [ChecklistSys.User (ChecklistView.ClickToggle gi ii);
                           ChecklistSys.User (ChecklistView.ClickTestKnowledge gi ii)] s
         = Some (s1, [update]) ∧
       ChecklistSys.step p (ChecklistSys.User (ChecklistView.ClickToggle gi ii)) s1
         = None ∧
       ChecklistSys.step p (ChecklistSys.CompletionTimer (ChecklistSys.view s1)) s1
         = Some (s2, [update]) ∧
       ChecklistSys.awaited_ids s2 = ChecklistSys.awaited_ids s ++ [id i; id i] ∧
       ∀ r, ∃ s3 eff3,
         ChecklistSys.step p
           (ChecklistSys.UpdateOutcome (length (ChecklistSys.awaited s)) r) s2
           = Some (s3, eff3) ∧
         ¬ (id i ∈ ChecklistView.updatingIds (ChecklistSys.view s3)) ∧
         id i ∈ ChecklistSys.awaited_ids s3).
Proof.
  intros Hrun.
  assert (Hmarked : ∀ tid, tid ∈ ChecklistView.updatingIds (ChecklistSys.view s) →
                           tid ∈ ChecklistSys.awaited_ids s).
  { eapply sys_run_marked; [|exact Hrun].
    simpl. intros tid H. by apply elem_of_empty in H. }
  split; [exact Hmarked|]. split; [|split].
  - intros gi ii g i Hat Hin. simpl. rewrite Hat. simpl.
    by rewrite bool_decide_eq_true_2.
  - intros Hclicks.
    destruct (sys_run_inv p es (ChecklistSys.mounted c) s eff) as [Hnd Hids].
    + done.
    + apply NoDup_nil_2.
    + intros tid. simpl.
      split; intros H; [by apply elem_of_empty in H|by apply elem_of_nil in H].
    + done.
    + split; [done|]. split; [done|].
      intros gi ii g i Hat Hin. simpl. rewrite Hat. simpl.
      by rewrite bool_decide_eq_true_2 by by apply Hids.
  - clear Hrun Hmarked c es eff.
    intros gi ii g i Hat Hnd Hoffer Huuid Htext Hfree update.
    destruct s as [st aw]. simpl in Hat, Hnd, Hfree.
    pose proof (uuid_test_truthy _ Huuid) as Htid.
    pose proof (proj1 (offers_test_knowledge_spec g i) Hoffer) as [_ Hopen].
    assert (Hnew : ChecklistView.newStatus i = Done).
    { unfold ChecklistView.newStatus. by destruct (status i). }
    assert (Hfind : find (λ x, bool_decide (Some (id x) = Some (id i)))
                      (ChecklistView.all_items (ChecklistView.checklist st)) = Some i).
    { apply find_unique_id; [done|]. by eapply item_at_elem. }
    set (k := ChecklistView.mkToggleClosure (ChecklistView.checklist st) i).
    set (st1 := ChecklistView.set_interview (Some (id i)) (Some (text i))
                  (ChecklistView.set_updatingIds
                     ({[ id i ]} ∪ ChecklistView.updatingIds st) st)).
    exists (ChecklistSys.mkSys st1 (aw ++ [k])).
    exists (ChecklistSys.mkSys
              (ChecklistView.set_updatingIds
                 ({[ id i ]} ∪ ChecklistView.updatingIds st1) st1)
              ((aw ++ [k]) ++ [k])).
    split; [|split; [|split; [|split]]].
    + simpl. rewrite Hat. simpl. rewrite (bool_decide_eq_false_2 _ Hfree). simpl.
      rewrite Hat. simpl. rewrite Hoffer. simpl.
      unfold ChecklistView.onClick_testKnowledge. rewrite Huuid. simpl.
      subst update. by rewrite Hnew.
    + simpl. rewrite Hat. simpl. rewrite bool_decide_eq_true_2; [done|].
      apply elem_of_union_l, elem_of_singleton. done.
    + simpl. unfold ChecklistView.modal_mounted. simpl. rewrite Htid, Htext. simpl.
      unfold ChecklistView.onComplete_timer_item. simpl. rewrite Hfind.
      rewrite (bool_decide_eq_false_2 _ Hopen). simpl.
      subst update. by rewrite Hnew.
    + unfold ChecklistSys.awaited_ids. simpl. by rewrite !map_app, <- app_assoc.
    + intros r.
      assert (Hlook : ((aw ++ [k]) ++ [k]) !! length aw = Some k).
      { rewrite <- app_assoc. rewrite lookup_app_r by lia.
        by rewrite Nat.sub_diag. }
      assert (Hrest : delete (length aw) ((aw ++ [k]) ++ [k]) !! length aw = Some k).
      { rewrite list_lookup_delete_ge by lia. rewrite <- app_assoc.
        rewrite lookup_app_r by lia. by replace (S (length aw) - length aw) with 1 by lia. }
      simpl. rewrite Hlook. simpl.
      match goal with
      | |- context [ChecklistView.handleToggleTodo_resume p k r ?x] =>
          assert (Hupd : ChecklistView.updatingIds
                           (ChecklistView.handleToggleTodo_resume p k r x).1
                         = ChecklistView.updatingIds x ∖ {[ id i ]})
            by (unfold ChecklistView.handleToggleTodo_resume; by destruct r);
          destruct (ChecklistView.handleToggleTodo_resume p k r x) as [st3 eff3]
      end.
      eexists _, _. split; [reflexivity|]. simpl in *. split.
      * rewrite Hupd, elem_of_difference, elem_of_singleton. tauto.
      * unfold ChecklistSys.awaited_ids. simpl.
        change (map ?f ?l) with (f <$> l). apply list_elem_of_fmap.
        exists k. split; [done|]. eapply list_elem_of_lookup_2. exact Hrest.
Qed.

Lemma toggles_are_serialised_per_item_witness :
  let a := mkTodoItem "a" "skills" "Review closures" Todo None None None in
  let c := mkChecklist "t" "interview" [] [mkGroup "skills" "Skills" [a]] [] in
  let p := ChecklistView.mkProps "s" true in
  ∃ s eff,
    ChecklistSys.run p [ChecklistSys.User (ChecklistView.ClickToggle 0 0)]
      (ChecklistSys.mounted c) = Some (s, eff) ∧
    NoDup (ChecklistSys.awaited_ids s) ∧
    ChecklistSys.step p (ChecklistSys.User (ChecklistView.ClickToggle 0 0)) s = None.
Proof.
  intros a c p.
  destruct (ChecklistSys.run p [ChecklistSys.User (ChecklistView.ClickToggle 0 0)]
              (ChecklistSys.mounted c)) as [[s eff]|] eqn:Hrun;
    [|vm_compute in Hrun; discriminate].
  exists s, eff. split; [done|].
  destruct (toggles_are_serialised_per_item p c _ s eff Hrun) as (_ & _ & Hclicks & _).
  destruct Hclicks as (Hnd & _ & Hlock).
  - repeat constructor.
  - split; [exact Hnd|].
    apply (Hlock 0 0 (mkGroup "skills" "Skills" [a]) a).
    + vm_compute in Hrun. injection Hrun as <- <-. reflexivity.
    + vm_compute in Hrun. injection Hrun as <- <-. simpl. apply list_elem_of_here.
Defined.

(** X5. Two toggles in flight at once lose the first one: when a second
    item is toggled before the update of the first has resolved, both
    updates are sent, the first shows when it resolves, but the
    continuation of the second writes the checklist of the render it was
    started in, so in the end the first item shows the status it had before
    its toggle although its update succeeded. *)
Theorem overlapping_toggles_lose_the_first
    (p : ChecklistView.Props) (st : ChecklistView.State)
    (ga ia gb ib : nat) (grpa grpb : ChecklistGroup) (a b ua ub : TodoItem) :
  ChecklistView.item_at (ChecklistView.checklist st) ga ia = Some (grpa, a) →
  ChecklistView.item_at (ChecklistView.checklist st) gb ib = Some (grpb, b) →
  id a ≠ id b →
  ¬ (id a ∈ ChecklistView.updatingIds st) →
  ¬ (id b ∈ ChecklistView.updatingIds st) →
  let clicks := [ChecklistSys.User (ChecklistView.ClickToggle ga ia);
                 ChecklistSys.User (ChecklistView.ClickToggle gb ib)] in
  let first := [ChecklistSys.UpdateOutcome 0 (Resolved ua)] in
  let second := [ChecklistSys.UpdateOutcome 0 (Resolved ub)] in
  ∃ s1 eff1 s2 eff2,
    ChecklistSys.run p (clicks ++ first) (ChecklistSys.mkSys st []) = Some (s1, eff1) ∧
    ChecklistSys.run p second s1 = Some (s2, eff2) ∧
    ReqUpdateTodo (ChecklistView.sessionId p) (id a) (ChecklistView.newStatus a) ∈ eff1 ∧
    ReqUpdateTodo (ChecklistView.sessionId p) (id b) (ChecklistView.newStatus b) ∈ eff1 ∧
    (∃ g', ChecklistView.item_at (ChecklistView.checklist (ChecklistSys.view s1)) ga ia
           = Some (g', ChecklistView.with_status (ChecklistView.newStatus a) a)) ∧
    (∃ g', ChecklistView.item_at (ChecklistView.checklist (ChecklistSys.view s2)) ga ia
           = Some (g', a)) ∧
    (∃ g', ChecklistView.item_at (ChecklistView.checklist (ChecklistSys.view s2)) gb ib
           = Some (g', ChecklistView.with_status (ChecklistView.newStatus b) b)) ∧
    ChecklistSys.awaited s2 = [].
Proof.
  intros Ha Hb Hne Hfa Hfb clicks first second.
  assert (Hfb' : ¬ (id b ∈ {[id a]} ∪ ChecklistView.updatingIds st)).
  { rewrite elem_of_union, elem_of_singleton. intros [?|?]; congruence. }
  assert (Hab : String.eqb (id a) (id b) = false) by by apply String.eqb_neq.
  assert (Hba : String.eqb (id b) (id a) = false)
    by (apply String.eqb_neq; congruence).
  eexists _, _, _, _.
  split.
  { subst clicks first. simpl. rewrite Ha. simpl.
    rewrite (bool_decide_eq_false_2 _ Hfa). simpl. rewrite Hb. simpl.
    rewrite (bool_decide_eq_false_2 _ Hfb'). simpl. reflexivity. }
  split; [reflexivity|].
  split; [simpl; apply list_elem_of_here|].
  split; [simpl; apply list_elem_of_further, list_elem_of_here|].
  split; [|split; [|split]].
  - eexists. simpl. rewrite item_at_updatedChecklist, Ha. simpl.
    by rewrite String.eqb_refl.
  - eexists. simpl. rewrite item_at_updatedChecklist, Ha. simpl.
    by rewrite Hab.
  - eexists. simpl. rewrite item_at_updatedChecklist, Hb. simpl.
    by rewrite String.eqb_refl.
  - reflexivity.
Qed.

Lemma overlapping_toggles_lose_the_first_witness :
  let a := mkTodoItem "a" "skills" "Review closures" Todo None None None in
  let b := mkTodoItem "b" "skills" "Practise hooks" Todo None None None in
  let ga := mkGroup "skills" "Skills" [a; b] in
  let c := mkChecklist "t" "interview" [] [ga] [] in
  let p := ChecklistView.mkProps "s" true in
  ∃ s2 eff,
    ChecklistSys.run p
      [ChecklistSys.User (ChecklistView.ClickToggle 0 0);
       ChecklistSys.User (ChecklistView.ClickToggle 0 1);
       ChecklistSys.UpdateOutcome 0 (Resolved a);
       ChecklistSys.UpdateOutcome 0 (Resolved b)]
      (ChecklistSys.mounted c) = Some (s2, eff) ∧
    Progress.completedItems (ChecklistView.checklist (ChecklistSys.view s2)) = 1.
Proof.
  intros a b ga c p.
  destruct (overlapping_toggles_lose_the_first p (ChecklistView.init c)
              0 0 0 1 ga ga a b a b)
    as (s1 & eff1 & s2 & eff2 & H1 & H2 & _).
  - reflexivity.
  - reflexivity.
  - discriminate.
  - simpl. intros H. by apply elem_of_empty in H.
  - simpl. intros H. by apply elem_of_empty in H.
  - vm_compute in H1. injection H1 as <- <-.
    vm_compute in H2. injection H2 as <- <-.
    eexists _, _. split; vm_compute; reflexivity.
Defined.

Lemma sys_step_interview p e s s' eff tid :
  ChecklistSys.step p e s = Some (s', eff) →
  ChecklistView.interviewTodoId (ChecklistSys.view s') = Some tid →
  ChecklistView.interviewTodoId (ChecklistSys.view s) = Some tid ∨
  Uuid.test Uuid.uuidRegex tid = true.
Proof.
  intros Hstep Htid. destruct s as [st aw].
  destruct e as [[gi ii|gi ii|]|n r|k]; simpl in Hstep.
  - destruct (ChecklistView.item_at _ gi ii) as [[g i]|]; [|done]. simpl in Hstep.
    destruct (bool_decide _); [done|]. simplify_eq. by left.
  - destruct (ChecklistView.item_at _ gi ii) as [[g i]|]; [|done]. simpl in Hstep.
    destruct (ChecklistView.offers_test_knowledge g i); [|done]. simpl in Hstep.
    unfold ChecklistView.onClick_testKnowledge in Hstep.
    destruct (Uuid.test Uuid.uuidRegex (id i)) eqn:Ht; simpl in Hstep; simplify_eq.
    + simpl in Htid. simplify_eq. by right.
    + by left.
  - destruct (ChecklistView.modal_mounted st); [|done]. simpl in Hstep.
    simplify_eq.
  - destruct (aw !! n) as [k|]; [|done]. simpl in Hstep.
    assert (Hid : ChecklistView.interviewTodoId
                    (ChecklistView.handleToggleTodo_resume p k r st).1
                  = ChecklistView.interviewTodoId st).
    { unfold ChecklistView.handleToggleTodo_resume. by destruct r. }
    destruct (ChecklistView.handleToggleTodo_resume p k r st) as [st' eff'].
    simplify_eq. simpl in *. left. congruence.
  - destruct (ChecklistView.modal_mounted k); [|done].
    destruct (ChecklistView.onComplete_timer_item k) as [item|];
      simpl in Hstep; simplify_eq; by left.
Qed.

Lemma sys_run_interview p es s s' eff :
  (∀ tid, ChecklistView.interviewTodoId (ChecklistSys.view s) = Some tid →
          Uuid.test Uuid.uuidRegex tid = true) →
  ChecklistSys.run p es s = Some (s', eff) →
  ∀ tid, ChecklistView.interviewTodoId (ChecklistSys.view s') = Some tid →
         Uuid.test Uuid.uuidRegex tid = true.
Proof.
  revert s eff. induction es as [|e es IH]; intros s eff Hinv Hrun; simpl in Hrun.
  - by simplify_eq.
  - destruct (ChecklistSys.step p e s) as [[s1 eff1]|] eqn:Hstep; [|done].
    simpl in Hrun.
    destruct (ChecklistSys.run p es s1) as [[s2 eff2]|] eqn:Hrest; [|done].
    simpl in Hrun. simplify_eq. eapply (IH s1); [|done].
    intros tid Htid.
    destruct (sys_step_interview _ _ _ _ _ _ Hstep Htid); auto.
Qed.

(** X6. The checklist only ever mounts the modal for an id in the UUID
    text form: whatever clicks and update outcomes happened since mount,
    the [todoId] the modal receives passes the guard, so the modal's own
    guard in [handleStart] never fires and "Start Knowledge Test" sends the
    start request. *)
Theorem modal_is_mounted_with_a_uuid
    (p : ChecklistView.Props) (c : ChecklistStructure)
    (es : list ChecklistSys.Event) (s : ChecklistSys.Sys) (eff : list Effect)
    (mp : InterviewModal.Props) :
  ChecklistSys.run p es (ChecklistSys.mounted c) = Some (s, eff) →
  Wiring.modal_props p (ChecklistSys.view s) = Some mp →
  Uuid.uuid_shaped (InterviewModal.todoId mp) ∧
  ∀ ms, InterviewModal.handleStart_begin mp ms =
          (InterviewModal.setIsLoading true ms,
           [ReqStartInterview (ChecklistView.sessionId p) (InterviewModal.todoId mp)
              (InterviewModal.todoText mp)]).
Proof.
  intros Hrun Hmp.
  destruct (modal_props_Some _ _ _ Hmp) as (Htid & _ & Hsid & _).
  assert (Ht : Uuid.test Uuid.uuidRegex (InterviewModal.todoId mp) = true).
  { eapply sys_run_interview; [|exact Hrun|exact Htid]. done. }
  split; [by apply uuid_test_iff|].
  intros ms. unfold InterviewModal.handleStart_begin. rewrite Ht, Hsid. done.
Qed.

Lemma modal_is_mounted_with_a_uuid_witness :
  let a := mkTodoItem "11111111-2222-3333-4444-555555555555" "skills"
             "Review closures" Todo None None None in
  let c := mkChecklist "t" "interview" [] [mkGroup "skills" "Skills" [a]] [] in
  let p := ChecklistView.mkProps "s" true in
  ∃ s eff mp,
    ChecklistSys.run p [ChecklistSys.User (ChecklistView.ClickTestKnowledge 0 0)]
      (ChecklistSys.mounted c) = Some (s, eff) ∧
    Wiring.modal_props p (ChecklistSys.view s) = Some mp ∧
    Uuid.uuid_shaped (InterviewModal.todoId mp).
Proof.
  intros a c p.
  destruct (ChecklistSys.run p [ChecklistSys.User (ChecklistView.ClickTestKnowledge 0 0)]
              (ChecklistSys.mounted c)) as [[s eff]|] eqn:Hrun;
    [|vm_compute in Hrun; discriminate].
  destruct (Wiring.modal_props p (ChecklistSys.view s)) as [mp|] eqn:Hmp.
  - exists s, eff, mp. split; [done|]. split; [done|].
    by destruct (modal_is_mounted_with_a_uuid p c _ s eff mp Hrun Hmp).
  - exfalso. vm_compute in Hrun. injection Hrun as <- <-.
    vm_compute in Hmp. discriminate.
Defined.

(** ** The modal *)

Lemma bar_colour_cases q i :
  ModalProgress.bar_colour q i =
  if (i <? question_number q)%nat then ModalProgress.Green else ModalProgress.Gray.
Proof.
  unfold ModalProgress.bar_colour.
  destruct (i <? question_number q)%nat eqn:Hlt; [done|].
  apply Nat.ltb_ge in Hlt.
  destruct (Z.of_nat i =? Z.of_nat (question_number q) - 1)%Z eqn:He; [|done].
  apply Z.eqb_eq in He. lia.
Qed.

Lemma green_bars_count q t :
  length (List.filter
            (λ b, match b with ModalProgress.Green => true | _ => false end)
            (map (ModalProgress.bar_colour q) (seq 0 t)))
  = question_number q `min` t.
Proof.
  induction t as [|t IH]; [simpl; lia|].
  rewrite seq_S, map_app, List.filter_app, length_app, IH. simpl.
  rewrite bar_colour_cases.
  destruct (t <? question_number q)%nat eqn:Hlt; simpl.
  - apply Nat.ltb_lt in Hlt. lia.
  - apply Nat.ltb_ge in Hlt. lia.
Qed.

(** X7. The progress bars of the modal are green or gray, never blue: the
    test for the current question comes after the test [i < question_number]
    that already covers it. There is one bar per announced question, and
    the number of green bars is the question number, capped by the total. *)
Theorem progress_bar_is_never_blue (q : InterviewQuestion) :
  (∀ i, ModalProgress.bar_colour q i ≠ ModalProgress.Blue) ∧
  length (ModalProgress.progress_bars q) = total_questions q ∧
  (∀ i b, ModalProgress.progress_bars q !! i = Some b →
          b = if (i <? question_number q)%nat
              then ModalProgress.Green else ModalProgress.Gray) ∧
  length (List.filter
            (λ b, match b with ModalProgress.Green => true | _ => false end)
            (ModalProgress.progress_bars q))
  = question_number q `min` total_questions q.
Proof.
  split; [|split; [|split]].
  - intros i. rewrite bar_colour_cases. by destruct (i <? _)%nat.
  - unfold ModalProgress.progress_bars. by rewrite length_map, length_seq.
  - intros i b Hb. unfold ModalProgress.progress_bars in Hb.
    change (map ?f ?l) with (f <$> l) in Hb.
    rewrite list_lookup_fmap in Hb.
    destruct (seq 0 (total_questions q) !! i) as [j|] eqn:Hj; [|done].
    apply lookup_seq in Hj as [-> _]. simpl in Hb. simplify_eq.
    apply bar_colour_cases.
  - apply green_bars_count.
Qed.

Lemma step_request_grows p e i i' eff :
  InterviewModal.step p e i = Some (i', eff) →
  requests eff ≠ [] →
  ∃ k, InterviewModal.pending i' = InterviewModal.pending i ++ [k] ∧
       length (requests eff) = 1.
Proof.
  intros Hstep Hreq. destruct i as [s m pend].
  destruct e as [|v| | | |r|r]; simpl in Hstep.
  - destruct m; [|done].
    destruct (InterviewModal.currentQuestion s); [done|].
    destruct (InterviewModal.isComplete s); [done|]. simpl in Hstep.
    destruct (InterviewModal.isLoading s); [done|].
    unfold InterviewModal.handleStart_begin in Hstep.
    destruct (Uuid.test Uuid.uuidRegex (InterviewModal.todoId p)); simpl in Hstep;
      simplify_eq; try done; eauto.
  - destruct m; [|done].
    destruct (InterviewModal.currentQuestion s); [|done].
    destruct (InterviewModal.isComplete s); [done|]. simpl in Hstep.
    destruct (InterviewModal.isLoading s); by simplify_eq.
  - destruct m; [|done].
    destruct (InterviewModal.currentQuestion s); [|done].
    destruct (InterviewModal.isComplete s); [done|]. simpl in Hstep.
    unfold InterviewModal.handleSubmitAnswer_begin in Hstep.
    destruct (Js.truthy (Js.trim (InterviewModal.answer s))),
      (InterviewModal.isLoading s); simpl in Hstep; simplify_eq; try done; eauto.
  - destruct m; [|done].
    destruct (InterviewModal.currentQuestion s); [|done].
    destruct (InterviewModal.isComplete s); [done|]. simpl in Hstep.
    unfold InterviewModal.handleSubmitAnswer_begin in Hstep.
    destruct (Js.truthy (Js.trim (InterviewModal.answer s))),
      (InterviewModal.isLoading s); simpl in Hstep; simplify_eq; try done; eauto.
  - destruct m; [|done]. unfold InterviewModal.handleClose in Hstep. by simplify_eq.
  - destruct (InterviewModal.settle _ pend); [|done]. simpl in Hstep.
    unfold InterviewModal.handleStart_resume in Hstep.
    destruct r as [resp|msg]; [destruct (ir_question resp)|destruct (Js.includes msg _)];
      by simplify_eq.
  - destruct (InterviewModal.settle _ pend); [|done]. simpl in Hstep.
    unfold InterviewModal.handleSubmitAnswer_resume in Hstep.
    destruct r as [resp|msg]; [|by simplify_eq].
    destruct (is_complete resp); simpl in Hstep.
    + unfold InterviewModal.on_complete_response in Hstep.
      destruct (InterviewModal.has_onComplete p), (ir_passed resp) as [[|]|],
        (ir_rating resp); by simplify_eq.
    + by simplify_eq.
Qed.

(** X8. The modal awaits at most one request at a time: in every run of a
    mounted modal at most one request is outstanding, and an event can send
    a request (exactly one) only when none is. *)
Theorem modal_awaits_one_request_at_a_time
    (p : InterviewModal.Props) (es : list InterviewModal.Event)
    (i : InterviewModal.Instance) (eff : list Effect) :
  InterviewModal.run p es InterviewModal.fresh = Some (i, eff) →
  length (InterviewModal.pending i) ≤ 1 ∧
  ∀ e i' eff', InterviewModal.step p e i = Some (i', eff') →
               requests eff' ≠ [] →
               InterviewModal.pending i = [] ∧ length (requests eff') = 1.
Proof.
  intros Hrun.
  pose proof (modal_inv_run _ _ _ _ _ _ modal_inv_fresh Hrun) as Hinv.
  split; [by destruct Hinv|].
  intros e i' eff' Hstep Hreq.
  destruct (modal_inv_step _ _ _ _ _ _ Hinv Hstep) as (Hlen & _).
  destruct (step_request_grows _ _ _ _ _ Hstep Hreq) as (k & Hk & Hone).
  rewrite Hk, length_app in Hlen. simpl in Hlen.
  split; [|done]. destruct (InterviewModal.pending i); [done|simpl in Hlen; lia].
Qed.

Lemma modal_awaits_one_request_at_a_time_witness :
  let p := InterviewModal.mkProps "s1" "11111111-2222-3333-4444-555555555555"
             "Review closures" true in
  ∃ i eff, InterviewModal.run p [InterviewModal.ClickStart] InterviewModal.fresh
           = Some (i, eff) ∧
           length (InterviewModal.pending i) ≤ 1.
Proof.
  intros p.
  destruct (InterviewModal.run p [InterviewModal.ClickStart] InterviewModal.fresh)
    as [[i eff]|] eqn:Hrun; [|vm_compute in Hrun; discriminate].
  exists i, eff. split; [done|].
  by destruct (modal_awaits_one_request_at_a_time p _ i eff Hrun).
Defined.

Lemma truthy_nonempty s : Js.truthy s = true ↔ s ≠ "".
Proof. destruct s; simpl; split; intros; done. Qed.

Lemma modal_step_requests p e i i' eff x :
  InterviewModal.step p e i = Some (i', eff) → x ∈ eff →
  match x with
  | ReqStartInterview s t txt =>
      s = InterviewModal.sessionId p ∧ t = InterviewModal.todoId p ∧
      txt = InterviewModal.todoText p ∧ Uuid.uuid_shaped t
  | ReqAnswerInterview s t a =>
      s = InterviewModal.sessionId p ∧ t = InterviewModal.todoId p ∧
      Js.trim a ≠ "" ∧ a = InterviewModal.answer (InterviewModal.state i)
  | ReqUpdateTodo _ _ _ | ReqSendMessage _ _ => False
  | _ => True
  end.
Proof.
  intros Hstep Hx. destruct i as [s m pend].
  destruct e as [|v| | | |r|r]; simpl in Hstep.
  - destruct m; [|done].
    destruct (InterviewModal.currentQuestion s); [done|].
    destruct (InterviewModal.isComplete s); [done|]. simpl in Hstep.
    destruct (InterviewModal.isLoading s); [done|].
    unfold InterviewModal.handleStart_begin in Hstep.
    destruct (Uuid.test Uuid.uuidRegex (InterviewModal.todoId p)) eqn:Ht;
      simpl in Hstep; simplify_eq.
    + apply list_elem_of_singleton in Hx as ->. by apply uuid_test_iff in Ht.
    + apply elem_of_cons in Hx as [->|Hx]; [done|].
      by apply list_elem_of_singleton in Hx as ->.
  - destruct m; [|done].
    destruct (InterviewModal.currentQuestion s); [|done].
    destruct (InterviewModal.isComplete s); [done|]. simpl in Hstep.
    destruct (InterviewModal.isLoading s); simplify_eq.
    by apply elem_of_nil in Hx.
  - destruct m; [|done].
    destruct (InterviewModal.currentQuestion s); [|done].
    destruct (InterviewModal.isComplete s); [done|]. simpl in Hstep.
    unfold InterviewModal.handleSubmitAnswer_begin in Hstep.
    destruct (Js.truthy (Js.trim (InterviewModal.answer s))) eqn:Ht,
      (InterviewModal.isLoading s); simpl in Hstep; simplify_eq.
    apply list_elem_of_singleton in Hx as ->. simpl.
    by apply truthy_nonempty in Ht.
  - destruct m; [|done].
    destruct (InterviewModal.currentQuestion s); [|done].
    destruct (InterviewModal.isComplete s); [done|]. simpl in Hstep.
    unfold InterviewModal.handleSubmitAnswer_begin in Hstep.
    destruct (Js.truthy (Js.trim (InterviewModal.answer s))) eqn:Ht,
      (InterviewModal.isLoading s); simpl in Hstep; simplify_eq.
    + apply list_elem_of_singleton in Hx as ->. simpl.
      by apply truthy_nonempty in Ht.
    + by apply elem_of_nil in Hx.
  - destruct m; [|done]. unfold InterviewModal.handleClose in Hstep. simplify_eq.
    by apply list_elem_of_singleton in Hx as ->.
  - destruct (InterviewModal.settle _ pend); [|done]. simpl in Hstep.
    unfold InterviewModal.handleStart_resume in Hstep.
    destruct r as [resp|msg]; [destruct (ir_question resp)|destruct (Js.includes msg _)];
      simplify_eq;
      repeat (apply elem_of_cons in Hx as [->|Hx]; [done|]);
      by apply elem_of_nil in Hx.
  - destruct (InterviewModal.settle _ pend); [|done]. simpl in Hstep.
    unfold InterviewModal.handleSubmitAnswer_resume in Hstep.
    destruct r as [resp|msg].
    + destruct (is_complete resp); simpl in Hstep.
      * unfold InterviewModal.on_complete_response in Hstep.
        destruct (InterviewModal.has_onComplete p), (ir_passed resp) as [[|]|],
          (ir_rating resp); simplify_eq;
          repeat (apply elem_of_cons in Hx as [->|Hx]; [done|]);
          by apply elem_of_nil in Hx.
      * simplify_eq. by apply elem_of_nil in Hx.
    + simplify_eq.
      repeat (apply elem_of_cons in Hx as [->|Hx]; [done|]);
        by apply elem_of_nil in Hx.
Qed.

(** X9. What the modal sends is well formed, from whatever state it runs:
    a start request carries the session, id and text of its props and an id
    in the UUID form; an answer request carries a non-blank answer; and the
    modal never calls the update or the message endpoint itself. *)
Theorem modal_sends_well_formed_requests
    (p : InterviewModal.Props) (es : list InterviewModal.Event)
    (i0 i : InterviewModal.Instance) (eff : list Effect) (x : Effect) :
  InterviewModal.run p es i0 = Some (i, eff) →
  x ∈ eff →
  match x with
  | ReqStartInterview s t txt =>
      s = InterviewModal.sessionId p ∧ t = InterviewModal.todoId p ∧
      txt = InterviewModal.todoText p ∧ Uuid.uuid_shaped t
  | ReqAnswerInterview s t a =>
      s = InterviewModal.sessionId p ∧ t = InterviewModal.todoId p ∧
      Js.trim a ≠ ""
  | ReqUpdateTodo _ _ _ | ReqSendMessage _ _ => False
  | _ => True
  end.
Proof.
  revert i0 eff. induction es as [|e es IH]; intros i0 eff Hrun Hx; simpl in Hrun.
  - simplify_eq. by apply elem_of_nil in Hx.
  - destruct (InterviewModal.step p e i0) as [[i1 eff1]|] eqn:Hstep; [|done].
    simpl in Hrun.
    destruct (InterviewModal.run p es i1) as [[i2 eff2]|] eqn:Hrest; [|done].
    simpl in Hrun. simplify_eq.
    apply elem_of_app in Hx as [Hx|Hx].
    + pose proof (modal_step_requests _ _ _ _ _ _ Hstep Hx) as H.
      destruct x; try done. tauto.
    + by eapply (IH i1).
Qed.

Lemma modal_sends_well_formed_requests_witness :
  let p := InterviewModal.mkProps "s1" "11111111-2222-3333-4444-555555555555"
             "Review closures" true in
  let q := mkQuestion "What is a closure?" 1 4 in
  let es := [InterviewModal.ClickStart;
             InterviewModal.StartOutcome
               (Resolved (mkInterviewResp (Some q) None false None None None));
             InterviewModal.ChangeAnswer " a function with its scope ";
             InterviewModal.ClickSubmit] in
  ∃ i eff,
    InterviewModal.run p es InterviewModal.fresh = Some (i, eff) ∧
    ReqAnswerInterview "s1" "11111111-2222-3333-4444-555555555555"
      " a function with its scope " ∈ eff ∧
    Js.trim " a function with its scope " ≠ "".
Proof.
  intros p q es.
  destruct (InterviewModal.run p es InterviewModal.fresh) as [[i eff]|] eqn:Hrun;
    [|vm_compute in Hrun; discriminate].
  exists i, eff. split; [done|].
  assert (Hin : ReqAnswerInterview "s1" "11111111-2222-3333-4444-555555555555"
                  " a function with its scope " ∈ eff).
  { vm_compute in Hrun. injection Hrun as <- <-.
    apply list_elem_of_further, list_elem_of_here. }
  split; [done|].
  by destruct (modal_sends_well_formed_requests p es _ i eff _ Hrun Hin) as (_ & _ & ?).
Defined.

(** X10. A failed request leaves the modal usable. After a failed start the
    state is exactly the one before the click, so the start button is back.
    After a failed answer the question is still shown, but the answer that
    was typed is gone from the input (it was moved to the history), so the
    submit button is disabled until something is typed again. *)
Theorem failed_modal_requests_keep_the_question
    (p : InterviewModal.Props) (s : InterviewModal.State) (msg : string) :
  InterviewModal.isLoading s = false →
  (Uuid.uuid_shaped (InterviewModal.todoId p) →
   let t := InterviewModal.handleStart_resume p (Rejected msg)
              (InterviewModal.handleStart_begin p s).1 in
   t.1 = s ∧
   t.2 = [ConsoleError "Failed to start interview:";
          if Js.includes msg "Invalid todo_id"
          then Alert InterviewModal.alert_invalid_todo_id else Alert msg]) ∧
  (Js.trim (InterviewModal.answer s) ≠ "" →
   let t := InterviewModal.handleSubmitAnswer_resume p (Rejected msg)
              (InterviewModal.handleSubmitAnswer_begin p s).1 in
   t.1 = InterviewModal.setHistory
           (InterviewModal.history s ++
              [InterviewModal.mkEntry User (InterviewModal.answer s)])
           (InterviewModal.setAnswer "" s) ∧
   InterviewModal.currentQuestion t.1 = InterviewModal.currentQuestion s ∧
   InterviewModal.isComplete t.1 = InterviewModal.isComplete s ∧
   (∀ f, InterviewModal.v_answer_form (InterviewModal.render t.1) = Some f →
         InterviewModal.af_submit_disabled f = true ∧
         InterviewModal.af_textarea_disabled f = false) ∧
   t.2 = [ConsoleError "Failed to answer question:";
          Alert "Failed to submit answer. Please try again."]).
Proof.
  intros Hl. split.
  - intros Hok%uuid_test_iff t. subst t.
    unfold InterviewModal.handleStart_begin. rewrite Hok. simpl.
    split; [|done]. destruct s. simpl in *. by subst.
  - intros Hne%truthy_nonempty t. subst t.
    unfold InterviewModal.handleSubmitAnswer_begin. rewrite Hne. simpl.
    split; [destruct s; simpl in *; by subst|]. split; [done|]. split; [done|].
    split; [|done]. intros f. unfold InterviewModal.render. simpl.
    destruct (InterviewModal.currentQuestion s); [|done].
    destruct (negb (InterviewModal.isComplete s)); [|done].
    by intros [= <-].
Qed.

Lemma failed_modal_requests_keep_the_question_witness :
  let p := InterviewModal.mkProps "s1" "11111111-2222-3333-4444-555555555555"
             "Review closures" true in
  (InterviewModal.handleStart_resume p (Rejected "Failed to start interview: 500 - ")
     (InterviewModal.handleStart_begin p InterviewModal.init).1).1
  = InterviewModal.init.
Proof.
  intros p.
  apply (failed_modal_requests_keep_the_question p InterviewModal.init).
  - reflexivity.
  - apply uuid_test_iff. vm_compute. reflexivity.
Defined.

(** ** The session page, continued *)

Lemma trimStart_head s :
  Js.trimStart s = "" ∨
  ∃ c t, Js.trimStart s = String c t ∧ Js.is_space c = false.
Proof.
  induction s as [|c s IH]; simpl; [by left|].
  destruct (Js.is_space c) eqn:Hc; [done|]. right. eauto.
Qed.

Lemma trimEnd_idem s : Js.trimEnd (Js.trimEnd s) = Js.trimEnd s.
Proof.
  induction s as [|c s IH]; simpl; [done|].
  destruct (Js.trimEnd s) as [|d r] eqn:Hr.
  - destruct (Js.is_space c) eqn:Hc; simpl; [done|]. by rewrite Hc.
  - change (Js.trimEnd (String c (String d r)))
      with (match Js.trimEnd (String d r) with
            | EmptyString => if Js.is_space c then EmptyString else String c EmptyString
            | String _ _ as t => String c t
            end).
    by rewrite IH.
Qed.

Lemma trimEnd_head c t :
  Js.is_space c = false → ∃ t', Js.trimEnd (String c t) = String c t'.
Proof.
  intros Hc. simpl. destruct (Js.trimEnd t); [rewrite Hc|]; eauto.
Qed.

(** [trim] gives a string that [trim] leaves alone. *)
Lemma trim_idem s : Js.trim (Js.trim s) = Js.trim s.
Proof.
  unfold Js.trim.
  destruct (trimStart_head s) as [->|(c & t & -> & Hc)]; [done|].
  destruct (trimEnd_head c t Hc) as [t' Ht']. rewrite Ht'.
  simpl Js.trimStart. rewrite Hc. rewrite <- Ht'. apply trimEnd_idem.
Qed.

Lemma page_step_requests sid e pg pg' eff x :
  SessionPage.step sid e pg = Some (pg', eff) → x ∈ eff →
  match x with
  | ReqSendMessage s c => s = sid ∧ c ≠ "" ∧ Js.trim c = c
  | ReqUpdateTodo _ _ _ | ReqStartInterview _ _ _ | ReqAnswerInterview _ _ _ => False
  | _ => True
  end.
Proof.
  intros Hstep Hx. destruct pg as [s pl ps].
  assert (Hbegin : ∀ s' eff', SessionPage.handleSend_begin sid s = (s', eff') →
            x ∈ eff' →
            match x with
            | ReqSendMessage s c => s = sid ∧ c ≠ "" ∧ Js.trim c = c
            | ReqUpdateTodo _ _ _ | ReqStartInterview _ _ _
            | ReqAnswerInterview _ _ _ => False
            | _ => True
            end).
  { intros s' eff'. unfold SessionPage.handleSend_begin.
    destruct (SessionPage.session s); [|intros [= <- <-] H; by apply elem_of_nil in H].
    destruct (Js.truthy (Js.trim (SessionPage.inputValue s))) eqn:Ht; simpl;
      [|intros [= <- <-] H; by apply elem_of_nil in H].
    destruct (SessionPage.isSending s); simpl;
      [intros [= <- <-] H; by apply elem_of_nil in H|].
    intros [= <- <-] H.
    repeat (apply elem_of_cons in H as [->|H]; [done|]).
    apply elem_of_cons in H as [->|H]; [|by apply elem_of_nil in H].
    split; [done|]. split; [by apply truthy_nonempty|apply trim_idem]. }
  destruct e as [v| | |c|r|r]; simpl in Hstep.
  - destruct (SessionPage.chat_input s) as [ci|]; [|done].
    destruct (SessionPage.ci_textarea_disabled ci); simplify_eq.
    by apply elem_of_nil in Hx.
  - destruct (SessionPage.chat_input s) as [ci|]; [|done].
    destruct (SessionPage.ci_submit_disabled ci); [done|].
    destruct (SessionPage.handleSend_begin sid s) as [s' eff'] eqn:Hb.
    simplify_eq. by eapply Hbegin.
  - destruct (SessionPage.chat_input s) as [ci|]; [|done].
    destruct (SessionPage.ci_textarea_disabled ci); [done|].
    destruct (SessionPage.handleSend_begin sid s) as [s' eff'] eqn:Hb.
    simplify_eq. by eapply Hbegin.
  - destruct (SessionPage.shown_checklist s); simplify_eq.
    by apply elem_of_nil in Hx.
  - destruct pl as [|n]; [done|].
    destruct r as [data|m]; simpl in Hstep; simplify_eq;
      repeat (apply elem_of_cons in Hx as [->|Hx]; [done|]);
      by apply elem_of_nil in Hx.
  - destruct ps as [|n]; [done|].
    destruct r as [resp|m]; simpl in Hstep; simplify_eq;
      repeat (apply elem_of_cons in Hx as [->|Hx]; [done|]);
      by apply elem_of_nil in Hx.
Qed.

(** X11. What the session page sends is well formed, from whatever state it
    runs: a message request goes to the session of the page with a content
    that is not empty and has no white space at either end (it is the
    trimmed input), and the page itself never calls the update or the
    interview endpoints. *)
Theorem page_sends_trimmed_messages
    (sid : string) (es : list SessionPage.Event)
    (pg0 pg : SessionPage.Page) (eff : list Effect) (x : Effect) :
  SessionPage.run sid es pg0 = Some (pg, eff) →
  x ∈ eff →
  match x with
  | ReqSendMessage s c => s = sid ∧ c ≠ "" ∧ Js.trim c = c
  | ReqUpdateTodo _ _ _ | ReqStartInterview _ _ _ | ReqAnswerInterview _ _ _ => False
  | _ => True
  end.
Proof.
  revert pg0 eff. induction es as [|e es IH]; intros pg0 eff Hrun Hx; simpl in Hrun.
  - simplify_eq. by apply elem_of_nil in Hx.
  - destruct (SessionPage.step sid e pg0) as [[pg1 eff1]|] eqn:Hstep; [|done].
    simpl in Hrun.
    destruct (SessionPage.run sid es pg1) as [[pg2 eff2]|] eqn:Hrest; [|done].
    simpl in Hrun. simplify_eq.
    apply elem_of_app in Hx as [Hx|Hx]; [by eapply page_step_requests|by eapply (IH pg1)].
Qed.

Lemma page_sends_trimmed_messages_witness :
  let sess := mkSession "s1" "2024-01-01" "interview" "Frontend interview"
                "I have a frontend interview in 10 days" ∅ None [] in
  let es := [SessionPage.LoadOutcome (Resolved sess);
             SessionPage.ChangeInput "  React, 3 years  ";
             SessionPage.KeyCmdEnter] in
  ∃ pg eff, SessionPage.run "s1" es SessionPage.mounted = Some (pg, eff) ∧
            ReqSendMessage "s1" "React, 3 years" ∈ eff ∧
            Js.trim "React, 3 years" = "React, 3 years".
Proof.
  intros sess es.
  destruct (SessionPage.run "s1" es SessionPage.mounted) as [[pg eff]|] eqn:Hrun;
    [|vm_compute in Hrun; discriminate].
  exists pg, eff. split; [done|].
  assert (Hin : ReqSendMessage "s1" "React, 3 years" ∈ eff).
  { vm_compute in Hrun. injection Hrun as <- <-.
    do 2 apply list_elem_of_further. apply list_elem_of_here. }
  split; [done|].
  by destruct (page_sends_trimmed_messages "s1" es _ pg eff _ Hrun Hin) as (_ & _ & ?).
Defined.

(** X12. The page starts on the loading screen and accepts nothing but the
    outcome of the load. When the load fails the user is alerted, the page
    shows "Session not found", and from then on it accepts no event at
    all: there is no retry. *)
Theorem load_comes_first_and_its_failure_is_final (sid msg : string) :
  SessionPage.render (SessionPage.state SessionPage.mounted) = SessionPage.LoadingScreen ∧
  (∀ e pg eff, SessionPage.step sid e SessionPage.mounted = Some (pg, eff) →
               ∃ r, e = SessionPage.LoadOutcome r) ∧
  ∃ pg eff,
    SessionPage.step sid (SessionPage.LoadOutcome (Rejected msg)) SessionPage.mounted
      = Some (pg, eff) ∧
    Alert "Failed to load session" ∈ eff ∧
    SessionPage.render (SessionPage.state pg) = SessionPage.NotFoundScreen ∧
    ∀ es pg' eff', SessionPage.run sid es pg = Some (pg', eff') → es = [].
Proof.
  split; [reflexivity|]. split.
  - intros e pg eff Hstep. destruct e as [v| | |c|r|r]; try done. eauto.
  - eexists _, _. split; [reflexivity|]. split.
    { simpl. apply list_elem_of_further, list_elem_of_here. }
    split; [reflexivity|].
    intros [|e es] pg' eff' Hrun; [done|]. exfalso. simpl in Hrun.
    by destruct e.
Qed.

Lemma handleSend_begin_ready sid s :
  SessionPage.ready (SessionPage.handleSend_begin sid s).1 → SessionPage.ready s.
Proof.
  intros H. unfold SessionPage.handleSend_begin in H.
  destruct (SessionPage.session s) as [sess|] eqn:Hs; [|exact H].
  destruct (negb _ || _); [exact H|].
  destruct H as (x & c & Hx & Hc). simpl in Hx. rewrite Hs in Hx.
  simplify_eq. simpl in Hc. exists sess, c. done.
Qed.

(** X13. A session becomes ready on the page only through the server: by
    the loaded session already having a checklist, or by the response to a
    message carrying both a messages array and a checklist. No user event
    does it, and a response without a messages array does not either, even
    if it carries a checklist. *)
Theorem session_becomes_ready_only_from_the_server
    (sid : string) (e : SessionPage.Event)
    (pg pg' : SessionPage.Page) (eff : list Effect) :
  SessionPage.step sid e pg = Some (pg', eff) →
  ¬ SessionPage.ready (SessionPage.state pg) →
  SessionPage.ready (SessionPage.state pg') →
  (∃ data c, e = SessionPage.LoadOutcome (Resolved data) ∧
             s_checklist data = Some c ∧
             SessionPage.session (SessionPage.state pg') = Some data) ∨
  (∃ resp ms c sess, e = SessionPage.SendOutcome (Resolved resp) ∧
                     r_messages resp = Some ms ∧ r_checklist resp = Some c ∧
                     SessionPage.session (SessionPage.state pg') = Some sess ∧
                     s_checklist sess = Some c ∧ messages sess = ms).
Proof.
  intros Hstep Hnot Hready. destruct pg as [s pl ps]. simpl in Hnot.
  destruct e as [v| | |c|r|r]; simpl in Hstep.
  - destruct (SessionPage.chat_input s) as [ci|]; [|done].
    destruct (SessionPage.ci_textarea_disabled ci); simplify_eq. done.
  - destruct (SessionPage.chat_input s) as [ci|] eqn:Hci; [|done].
    destruct (SessionPage.ci_submit_disabled ci); [done|].
    exfalso. apply Hnot. apply (handleSend_begin_ready sid).
    destruct (SessionPage.handleSend_begin sid s). by simplify_eq.
  - destruct (SessionPage.chat_input s) as [ci|] eqn:Hci; [|done].
    destruct (SessionPage.ci_textarea_disabled ci); [done|].
    exfalso. apply Hnot. apply (handleSend_begin_ready sid).
    destruct (SessionPage.handleSend_begin sid s). by simplify_eq.
  - exfalso. apply Hnot.
    unfold SessionPage.shown_checklist, SessionPage.render in Hstep.
    destruct (SessionPage.isLoading s); [done|].
    destruct (SessionPage.session s) as [sess|] eqn:Hs; [|done].
    destruct (s_checklist sess) eqn:Hc; [|done].
    unfold SessionPage.ready. eauto.
  - destruct pl as [|n]; [done|].
    destruct r as [data|m]; simpl in Hstep; simplify_eq; simpl in Hready.
    + left. destruct Hready as (x & c & [= <-] & Hc). eauto.
    + by destruct Hnot.
  - destruct ps as [|n]; [done|].
    destruct r as [resp|m]; simpl in Hstep; simplify_eq; simpl in Hready.
    + right. destruct Hready as (x & c & Hx & Hc). simpl in Hx.
      destruct (r_messages resp) as [ms|] eqn:Hms; simpl in Hx.
      * destruct (SessionPage.session s) as [sess|] eqn:Hs; [|done].
        simplify_eq. simpl in Hc.
        destruct (r_checklist resp) as [c'|] eqn:Hrc.
        -- simplify_eq. eexists _, _, _, _.
           split; [reflexivity|]. split; [exact Hms|]. split; [exact Hrc|].
           simpl. rewrite Hs. split; [reflexivity|]. split; reflexivity.
        -- destruct Hnot. unfold SessionPage.ready. eauto.
      * destruct Hnot. unfold SessionPage.ready. eauto.
    + exfalso. apply Hnot. destruct Hready as (x & c & Hx & Hc). simpl in Hx.
      destruct (SessionPage.session s) as [sess|] eqn:Hs; [|done].
      simplify_eq. simpl in Hc. unfold SessionPage.ready. eauto.
Qed.

Lemma session_becomes_ready_only_from_the_server_witness :
  let c := mkChecklist "Frontend interview" "interview" [] [] [] in
  let data := mkSession "s1" "2024-01-01" "interview" "Frontend interview"
                "goal" ∅ (Some c) [] in
  ∃ pg' eff,
    SessionPage.step "s1" (SessionPage.LoadOutcome (Resolved data)) SessionPage.mounted
      = Some (pg', eff) ∧
    SessionPage.session (SessionPage.state pg') = Some data.
Proof.
  intros c data. eexists _, _. split; [reflexivity|].
  destruct (session_becomes_ready_only_from_the_server "s1"
              (SessionPage.LoadOutcome (Resolved data)) SessionPage.mounted
              (SessionPage.mkPage
                 (SessionPage.loadSession_resume (Resolved data) SessionPage.init).1 0 0)
              []) as [(d & c' & He & _ & Hs)|(resp & ms & c' & sess & He & _)].
  - reflexivity.
  - intros (sess & c' & Hs & _). discriminate Hs.
  - exists data, c. split; reflexivity.
  - injection He as <-. exact Hs.
  - discriminate He.
Defined.

Lemma initialMessage_gathering m :
  SessionPage.initialMessage m false ≠ "Processing your message...".
Proof.
  unfold SessionPage.initialMessage. change (negb false) with true.
  repeat match goal with
         | |- (if ?b then _ else _) ≠ _ => destruct b
         end; discriminate.
Qed.

(** X14. The loading message "Processing your message..." is never
    chosen: [handleSend] can only run from the chat form, which exists
    only while the session has no checklist, and without a checklist the
    last alternative is "Creating your preparation plan...". *)
Theorem processing_message_is_never_chosen
    (sid : string) (s : SessionPage.State) (ci : SessionPage.ChatInput) :
  SessionPage.chat_input s = Some ci →
  SessionPage.sends (SessionPage.handleSend_begin sid s).2 = 1 →
  let s1 := (SessionPage.handleSend_begin sid s).1 in
  SessionPage.loadingMessage s1
    = SessionPage.initialMessage
        (Js.toLowerCase (Js.trim (SessionPage.inputValue s))) false ∧
  SessionPage.loadingMessage s1 ≠ "Processing your message...".
Proof.
  intros Hci Hd s1.
  apply chat_input_Some in Hci as (_ & _ & sess & Hs & Hc).
  assert (Hm : SessionPage.loadingMessage s1
               = SessionPage.initialMessage
                   (Js.toLowerCase (Js.trim (SessionPage.inputValue s))) false).
  { subst s1. revert Hd. unfold SessionPage.handleSend_begin. rewrite Hs.
    destruct (negb _ || _); [done|]. intros _. simpl. by rewrite Hc. }
  split; [done|]. rewrite Hm. apply initialMessage_gathering.
Qed.

Lemma processing_message_is_never_chosen_witness :
  let sess := mkSession "s1" "2024-01-01" "interview" "Frontend interview"
                "goal" ∅ None [] in
  let s := SessionPage.mkState (Some sess) false false "Thinking..." "Hello there" in
  SessionPage.loadingMessage (SessionPage.handleSend_begin "s1" s).1
  = "Creating your preparation plan...".
Proof.
  intros sess s.
  destruct (processing_message_is_never_chosen "s1" s
              (SessionPage.mkInput false false)) as [Hm _].
  - reflexivity.
  - reflexivity.
  - rewrite Hm. vm_compute. reflexivity.
Defined.

(** ** The settled requests *)

Lemma includes_app_r a b sub :
  Js.includes b sub = true → Js.includes (a +:+ b) sub = true.
Proof.
  intros Hb. induction a as [|c a IH]; [done|].
  change (String c a +:+ b) with (String c (a +:+ b)).
  simpl. rewrite IH. apply orb_true_r.
Qed.

(** X15. A refusal of the start endpoint that names the id reaches the
    user as guidance: when the response is not ok and its body contains
    "Invalid todo_id", [startInterview] rejects and the modal alerts that
    the checklist must be regenerated (not the raw error), stops loading
    and keeps its state otherwise. Any other failure is alerted with the
    message of the error. *)
Theorem server_refusal_of_the_id_reaches_the_user
    (json : string → Outcome InterviewResponse)
    (p : InterviewModal.Props) (s : InterviewModal.State)
    (response : Api.Response) :
  Api.ok response = false →
  let r := Api.startInterview json (Resolved response) in
  let t := InterviewModal.handleStart_resume p r s in
  r = Rejected ("Failed to start interview: " +:+ Api.statusText response
                +:+ " - " +:+ Api.body response) ∧
  t.1 = InterviewModal.setIsLoading false s ∧
  (Js.includes (Api.body response) "Invalid todo_id" = true →
   t.2 = [ConsoleError "Failed to start interview:";
          Alert InterviewModal.alert_invalid_todo_id]) ∧
  (∀ msg, r = Rejected msg → Js.includes msg "Invalid todo_id" = false →
          t.2 = [ConsoleError "Failed to start interview:"; Alert msg]).
Proof.
  intros Hok r t.
  set (m := "Failed to start interview: " +:+ Api.statusText response
            +:+ " - " +:+ Api.body response).
  assert (Hr : r = Rejected m).
  { subst r. unfold Api.startInterview. by rewrite Hok. }
  split; [done|]. subst t. rewrite Hr. split; [done|]. split.
  - intros Hinc.
    assert (Hm : Js.includes m "Invalid todo_id" = true).
    { subst m. do 3 apply includes_app_r. exact Hinc. }
    clearbody m. unfold InterviewModal.handleStart_resume. simpl.
    by rewrite Hm.
  - intros msg [= <-] Hno. clearbody m.
    unfold InterviewModal.handleStart_resume. simpl. by rewrite Hno.
Qed.

Lemma server_refusal_of_the_id_reaches_the_user_witness :
  let p := InterviewModal.mkProps "s1" "11111111-2222-3333-4444-555555555555"
             "Review closures" true in
  let response := Api.mkResponse false "Bad Request"
                    "{ detail: Invalid todo_id format }" in
  (InterviewModal.handleStart_resume p
     (Api.startInterview (λ _, Rejected "SyntaxError") (Resolved response))
     InterviewModal.init).2
  = [ConsoleError "Failed to start interview:";
     Alert InterviewModal.alert_invalid_todo_id].
Proof.
  intros p response.
  destruct (server_refusal_of_the_id_reaches_the_user (λ _, Rejected "SyntaxError")
              p InterviewModal.init response) as (_ & _ & H & _).
  - reflexivity.
  - apply H. vm_compute. reflexivity.
Defined.

(** X16. The alert of a refused message states its prefix twice:
    [sendMessage] rejects with "Failed to send message: <status text> -
    <body>" and the page prepends "Failed to send message: " again; the
    body of the response is also logged to the console. *)
Theorem refused_message_alert_repeats_its_prefix
    (json : string → Outcome SendMessageResponse)
    (s : SessionPage.State) (response : Api.Response) :
  Api.ok response = false →
  let r := Api.sendMessage json (Resolved response) in
  r.2 = [ConsoleError "API Error:"] ∧
  Alert ("Failed to send message: Failed to send message: "
         +:+ Api.statusText response +:+ " - " +:+ Api.body response)
    ∈ (SessionPage.handleSend_resume r.1 s).2 ∧
  SessionPage.isSending (SessionPage.handleSend_resume r.1 s).1 = false.
Proof.
  intros Hok r. subst r. unfold Api.sendMessage. rewrite Hok. simpl.
  split; [done|]. split; [|done].
  do 3 apply list_elem_of_further. apply list_elem_of_here.
Qed.

Lemma refused_message_alert_repeats_its_prefix_witness :
  let sess := mkSession "s1" "2024-01-01" "interview" "t" "goal" ∅ None [] in
  let s := SessionPage.mkState (Some sess) false true "Thinking..." "" in
  Alert "Failed to send message: Failed to send message: Not Found - {}"
    ∈ (SessionPage.handleSend_resume
         (Api.sendMessage (λ _, Rejected "SyntaxError")
            (Resolved (Api.mkResponse false "Not Found" "{}"))).1 s).2.
Proof.
  intros sess s.
  apply (refused_message_alert_repeats_its_prefix (λ _, Rejected "SyntaxError") s
           (Api.mkResponse false "Not Found" "{}")).
  reflexivity.
Defined.

(** ** The sidebar *)

(** X17. Deleting a session removes exactly that session from the list the
    handler was started with: the others stay, in their order, and the id
    is gone; the page navigates home exactly when the deleted session is
    the one being viewed. A declined confirmation sends nothing, and a
    failed deletion leaves the list as it is and alerts. *)
Theorem delete_removes_exactly_that_session
    (k : Sidebar.DeleteClosure) (s : Sidebar.State) (msg pathname sid : string) :
  let t := Sidebar.handleDeleteSession_resume k (Resolved ()) s in
  (∀ x, x ∈ Sidebar.sessions t.1 ↔
        x ∈ Sidebar.dc_sessions k ∧ li_session_id x ≠ Sidebar.dc_sessionId k) ∧
  Sidebar.sessions t.1 `sublist_of` Sidebar.dc_sessions k ∧
  ¬ (Sidebar.dc_sessionId k ∈ map li_session_id (Sidebar.sessions t.1)) ∧
  (ShRouterPush "/" ∈ t.2 ↔
   Sidebar.dc_pathname k = "/session/" +:+ Sidebar.dc_sessionId k) ∧
  Sidebar.handleDeleteSession_resume k (Rejected msg) s
    = (s, [ShConsoleError "Failed to delete session:";
           ShAlert "Failed to delete session. Please try again."]) ∧
  (Sidebar.handleDeleteSession_begin pathname sid false s).2 = None ∧
  ¬ (ReqDeleteSession sid ∈ (Sidebar.handleDeleteSession_begin pathname sid false s).1) ∧
  (Sidebar.handleDeleteSession_begin pathname sid true s).2
    = Some (Sidebar.mkDeleteClosure (Sidebar.sessions s) pathname sid).
Proof.
  intros t. subst t. simpl.
  split; [|split; [|split; [|split; [|split; [|split]]]]].
  - intros x. by rewrite list_elem_of_filter, (comm and).
  - apply sublist_filter.
  - intros Hin. apply list_elem_of_fmap in Hin as (x & Hid & Hx).
    apply list_elem_of_filter in Hx as [Hne _]. by destruct Hne.
  - destruct (String.eqb _ _) eqn:He.
    + apply String.eqb_eq in He. split; [done|]. intros _. apply list_elem_of_here.
    + apply String.eqb_neq in He. split; [|done].
      intros Hin. by apply elem_of_nil in Hin.
  - done.
  - done.
  - split; [|done]. intros Hin.
    repeat (apply elem_of_cons in Hin as [?|Hin]; [done|]).
    by apply elem_of_nil in Hin.
Qed.

(** X18. A failed load of the session list is not told apart from an empty
    list: nothing is alerted, and when no sessions were loaded before, the
    open sidebar shows "No previous chats", as it does when the server
    answers with no sessions. *)
Theorem failed_list_load_shows_no_previous_chats
    (pathname msg : string) (s : Sidebar.State) :
  Sidebar.sessions s = [] →
  Sidebar.isOpen s = true →
  let failed := Sidebar.loadSessions_resume (Rejected msg) s in
  let empty := Sidebar.loadSessions_resume (Resolved []) s in
  Sidebar.render pathname failed.1 = Sidebar.Open Sidebar.NoPreviousChats ∧
  Sidebar.render pathname failed.1 = Sidebar.render pathname empty.1 ∧
  (∀ m, ¬ (ShAlert m ∈ failed.2)).
Proof.
  intros Hs Ho failed empty. subst failed empty.
  unfold Sidebar.render. simpl. rewrite Hs, Ho. simpl.
  split; [done|]. split; [done|].
  intros m Hin. apply elem_of_cons in Hin as [?|Hin]; [done|].
  by apply elem_of_nil in Hin.
Qed.

Lemma failed_list_load_shows_no_previous_chats_witness :
  Sidebar.render "/"
    (Sidebar.loadSessions_resume (Rejected "Failed to list sessions: ") Sidebar.init).1
  = Sidebar.Open Sidebar.NoPreviousChats.
Proof.
  apply (failed_list_load_shows_no_previous_chats "/" "Failed to list sessions: "
           Sidebar.init); reflexivity.
Defined.

Lemma div_day_spec (a q : Z) :
  (0 ≤ a)%Z → (a / (1000 * 60 * 60 * 24) = q ↔ q * 86400000 ≤ a < (q + 1) * 86400000)%Z.
Proof.
  intros Ha. change (1000 * 60 * 60 * 24)%Z with 86400000%Z.
  pose proof (Z.div_mod a 86400000 ltac:(lia)) as Hdm.
  pose proof (Z.mod_pos_bound a 86400000 ltac:(lia)) as Hmod.
  split; [intros <-; lia|]. intros Hq.
  assert (a / 86400000 < q + 1)%Z by nia.
  assert (q < a / 86400000 + 1)%Z by nia. lia.
Qed.

(** X19. The date label of a session counts elapsed periods of 24 hours,
    not calendar days, and does not look at the direction: "Today" means
    less than 24 hours away from now, "Yesterday" from 24 to 48 hours,
    "n days ago" (n from 2 to 6) from n to n+1 days, and anything from 7
    days on, or a date that cannot be read, falls back to the locale date;
    a date as far in the future gets the same label. *)
Theorem formatDate_counts_elapsed_days (date now : Z) :
  let gap := Z.abs (now - date) in
  (Sidebar.formatDate (Some date) now = Sidebar.Today ↔ (gap < 86400000)%Z) ∧
  (Sidebar.formatDate (Some date) now = Sidebar.Yesterday ↔
   (86400000 ≤ gap < 2 * 86400000)%Z) ∧
  (∀ n, Sidebar.formatDate (Some date) now = Sidebar.DaysAgo n ↔
        (2 ≤ n < 7 ∧ n * 86400000 ≤ gap < (n + 1) * 86400000)%Z) ∧
  (Sidebar.formatDate (Some date) now = Sidebar.LocaleDate ↔
   (7 * 86400000 ≤ gap)%Z) ∧
  Sidebar.formatDate None now = Sidebar.LocaleDate ∧
  Sidebar.formatDate (Some (now + (now - date))%Z) now
    = Sidebar.formatDate (Some date) now.
Proof.
  intros gap.
  assert (Hgap : (0 ≤ gap)%Z) by (subst gap; lia).
  assert (Hsym : Z.abs (now - (now + (now - date)))%Z = gap) by (subst gap; lia).
  unfold Sidebar.formatDate. rewrite Hsym. fold gap.
  pose proof (div_day_spec gap (gap / (1000 * 60 * 60 * 24)) Hgap) as [Hd _].
  specialize (Hd eq_refl).
  set (d := (gap / (1000 * 60 * 60 * 24))%Z) in *.
  destruct (d =? 0)%Z eqn:H0; [apply Z.eqb_eq in H0|apply Z.eqb_neq in H0].
  { repeat split; try done; try lia; intros; try discriminate; lia. }
  destruct (d =? 1)%Z eqn:H1; [apply Z.eqb_eq in H1|apply Z.eqb_neq in H1].
  { repeat split; try done; try lia; intros; try discriminate; lia. }
  destruct (d <? 7)%Z eqn:H7; [apply Z.ltb_lt in H7|apply Z.ltb_ge in H7].
  - split; [split; [done|lia]|]. split; [split; [done|lia]|]. split.
    + intros n. split.
      * intros [= <-]. lia.
      * intros [Hn Hb]. f_equal. lia.
    + split; [split; [done|lia]|done].
  - split; [split; [done|lia]|]. split; [split; [done|lia]|]. split.
    + intros n. split; [done|]. lia.
    + split; [split; [lia|done]|done].
Qed.

(** ** The home page *)

Lemma home_begin_cases s :
  let t := HomePage.handleSubmit_begin s in
  (Js.trim (HomePage.userGoal s) = "" ∧ t = (s, [ShPreventDefault])) ∨
  (Js.trim (HomePage.userGoal s) ≠ "" ∧
   t = (HomePage.mkState (HomePage.userGoal s) true,
        [ShPreventDefault; ReqCreateSession (HomePage.userGoal s)])).
Proof.
  unfold HomePage.handleSubmit_begin.
  destruct (Js.truthy (Js.trim (HomePage.userGoal s))) eqn:Ht; simpl.
  - right. split; [by apply truthy_nonempty|done].
  - left. split; [|done]. by destruct (Js.trim (HomePage.userGoal s)).
Qed.

Lemma home_step_inv e pg pg' eff :
  HomePage.step e pg = Some (pg', eff) →
  HomePage.pending pg ≤ 1 →
  (HomePage.pending pg = 1 → HomePage.isLoading (HomePage.state pg) = true) →
  HomePage.pending pg' ≤ 1 ∧
  (HomePage.pending pg' = 1 → HomePage.isLoading (HomePage.state pg') = true) ∧
  (∀ g, ReqCreateSession g ∈ eff →
        Js.trim g ≠ "" ∧ g = HomePage.userGoal (HomePage.state pg) ∧
        HomePage.pending pg = 0).
Proof.
  intros Hstep Hle Hload. destruct pg as [s n]. simpl in *.
  assert (Hidle : HomePage.isLoading s = false → n = 0).
  { intros Hl. destruct n as [|[|]]; [done| |lia]. rewrite Hload in Hl; done. }
  assert (Hbegin : HomePage.isLoading s = false →
            ∀ s' eff', HomePage.handleSubmit_begin s = (s', eff') →
            n + HomePage.creations eff' ≤ 1 ∧
            (n + HomePage.creations eff' = 1 → HomePage.isLoading s' = true) ∧
            (∀ g, ReqCreateSession g ∈ eff' →
                  Js.trim g ≠ "" ∧ g = HomePage.userGoal s ∧ n = 0)).
  { intros Hl s' eff' Hb. rewrite (Hidle Hl).
    destruct (home_begin_cases s) as [[Hblank Ht]|[Hgoal Ht]];
      rewrite Ht in Hb; simplify_eq; unfold HomePage.creations; simpl.
    - split; [lia|]. split; [lia|]. intros g Hin.
      apply list_elem_of_singleton in Hin. done.
    - split; [lia|]. split; [done|]. intros g Hin.
      apply elem_of_cons in Hin as [?|Hin]; [done|].
      apply list_elem_of_singleton in Hin. by simplify_eq. }
  destruct e as [v|k| | |r]; simpl in Hstep.
  - destruct (HomePage.isLoading s) eqn:Hl; [done|]. simplify_eq. simpl.
    rewrite (Hidle eq_refl). split; [lia|]. split; [lia|].
    intros g Hin. by apply elem_of_nil in Hin.
  - destruct (Js.truthy (HomePage.userGoal s)); [done|].
    destruct (HomePage.EXAMPLE_INTERVIEWS !! k) as [ex|]; [|done].
    simpl in Hstep. simplify_eq. simpl. split; [done|]. split; [done|].
    intros g Hin. by apply elem_of_nil in Hin.
  - destruct (HomePage.isLoading s) eqn:Hl;
      [by rewrite orb_true_r in Hstep|].
    destruct (negb _ || false); [done|].
    destruct (HomePage.handleSubmit_begin s) as [s' eff'] eqn:Hb.
    simplify_eq. simpl. by apply Hbegin.
  - destruct (HomePage.isLoading s) eqn:Hl; [done|].
    destruct (HomePage.handleSubmit_begin s) as [s' eff'] eqn:Hb.
    simplify_eq. simpl.
    destruct (Hbegin eq_refl _ _ eq_refl) as (Hle' & Hload' & Hreq').
    split; [done|]. split; [done|]. intros g Hin.
    apply elem_of_cons in Hin as [?|Hin]; [done|]. by apply Hreq'.
  - destruct n as [|n]; [done|]. assert (n = 0) as -> by lia.
    destruct r as [resp|m]; simpl in Hstep; simplify_eq; simpl;
      (split; [lia|]; split; [lia|]); intros g Hin;
      repeat (apply elem_of_cons in Hin as [?|Hin]; [done|]);
      by apply elem_of_nil in Hin.
Qed.

(** X20. The home page creates sessions one at a time and never from a
    blank goal: in every run since mount at most one creation is awaited,
    and every creation request carries a goal that is not blank. *)
Theorem home_creates_one_session_at_a_time
    (es : list HomePage.Event) (pg : HomePage.Page) (eff : list ShellEffect) :
  HomePage.run es HomePage.mounted = Some (pg, eff) →
  HomePage.pending pg ≤ 1 ∧
  (HomePage.pending pg = 1 → HomePage.isLoading (HomePage.state pg) = true) ∧
  ∀ g, ReqCreateSession g ∈ eff → Js.trim g ≠ "".
Proof.
  assert (Hgen : ∀ es pg0 pg eff,
    HomePage.run es pg0 = Some (pg, eff) →
    HomePage.pending pg0 ≤ 1 →
    (HomePage.pending pg0 = 1 → HomePage.isLoading (HomePage.state pg0) = true) →
    HomePage.pending pg ≤ 1 ∧
    (HomePage.pending pg = 1 → HomePage.isLoading (HomePage.state pg) = true) ∧
    ∀ g, ReqCreateSession g ∈ eff → Js.trim g ≠ "").
  { clear. induction es as [|e es IH]; intros pg0 pg eff Hrun Hle Hload; simpl in Hrun.
    - simplify_eq. split; [done|]. split; [done|].
      intros g Hin. by apply elem_of_nil in Hin.
    - destruct (HomePage.step e pg0) as [[pg1 eff1]|] eqn:Hstep; [|done].
      simpl in Hrun.
      destruct (HomePage.run es pg1) as [[pg2 eff2]|] eqn:Hrest; [|done].
      simpl in Hrun. simplify_eq.
      destruct (home_step_inv _ _ _ _ Hstep Hle Hload) as (Hle1 & Hload1 & Hreq1).
      destruct (IH _ _ _ Hrest Hle1 Hload1) as (Hle2 & Hload2 & Hreq2).
      split; [done|]. split; [done|]. intros g [Hin|Hin]%elem_of_app.
      + by destruct (Hreq1 g Hin).
      + by apply Hreq2. }
  intros Hrun. apply (Hgen es HomePage.mounted pg eff Hrun); simpl; [lia|lia].
Qed.

Lemma home_creates_one_session_at_a_time_witness :
  let es := [HomePage.ClickExample 0; HomePage.SubmitForm] in
  ∃ pg eff, HomePage.run es HomePage.mounted = Some (pg, eff) ∧
            ReqCreateSession "I have a frontend interview in 10 days" ∈ eff ∧
            HomePage.pending pg ≤ 1.
Proof.
  intros es.
  destruct (HomePage.run es HomePage.mounted) as [[pg eff]|] eqn:Hrun;
    [|vm_compute in Hrun; discriminate].
  exists pg, eff. split; [done|]. split.
  - vm_compute in Hrun. injection Hrun as <- <-.
    apply list_elem_of_further, list_elem_of_here.
  - by destruct (home_creates_one_session_at_a_time es pg eff Hrun).
Defined.

Lemma home_locked_step e pg pg' eff :
  HomePage.isLoading (HomePage.state pg) = true → HomePage.pending pg = 0 →
  HomePage.step e pg = Some (pg', eff) →
  HomePage.isLoading (HomePage.state pg') = true ∧ HomePage.pending pg' = 0 ∧
  eff = [].
Proof.
  intros Hl Hp Hstep. destruct pg as [s n]. simpl in *. subst n.
  destruct e as [v|k| | |r]; simpl in Hstep; rewrite ?Hl, ?orb_true_r in Hstep;
    try done.
  destruct (Js.truthy (HomePage.userGoal s)); [done|].
  destruct (HomePage.EXAMPLE_INTERVIEWS !! k) as [ex|]; [|done].
  simpl in Hstep. by simplify_eq.
Qed.

(** X21. When the creation succeeds the page clears the goal, navigates to
    the new session and stays locked: whatever the user still does on it,
    nothing more is sent. When it fails the error is alerted, the goal
    that was typed is kept and the form is enabled again. *)
Theorem home_outcome_of_a_creation
    (es1 es2 : list HomePage.Event) (pg1 pg3 : HomePage.Page)
    (eff1 eff3 : list ShellEffect) (response : CreateSessionResponse) (msg : string) :
  HomePage.run es1 HomePage.mounted = Some (pg1, eff1) →
  HomePage.pending pg1 = 1 →
  let ok := HomePage.handleSubmit_resume (Resolved response) (HomePage.state pg1) in
  let ko := HomePage.handleSubmit_resume (Rejected msg) (HomePage.state pg1) in
  HomePage.run es2 (HomePage.mkPage ok.1 0) = Some (pg3, eff3) →
  ok.2 = [ShRouterPush ("/session/" +:+ cr_session_id response)] ∧
  HomePage.userGoal ok.1 = "" ∧
  eff3 = [] ∧
  HomePage.isLoading (HomePage.state pg3) = true ∧
  ko.1 = HomePage.mkState (HomePage.userGoal (HomePage.state pg1)) false ∧
  ShAlert msg ∈ ko.2.
Proof.
  intros Hrun1 Hp ok ko Hrun2.
  destruct (home_creates_one_session_at_a_time es1 pg1 eff1 Hrun1) as (_ & Hload & _).
  specialize (Hload Hp).
  split; [done|]. split; [done|].
  assert (Hlocked : ∀ es pg pg' eff,
            HomePage.isLoading (HomePage.state pg) = true → HomePage.pending pg = 0 →
            HomePage.run es pg = Some (pg', eff) →
            eff = [] ∧ HomePage.isLoading (HomePage.state pg') = true).
  { clear. induction es as [|e es IH]; intros pg pg' eff Hl Hp Hrun; simpl in Hrun.
    - by simplify_eq.
    - destruct (HomePage.step e pg) as [[pga effa]|] eqn:Hstep; [|done].
      simpl in Hrun.
      destruct (HomePage.run es pga) as [[pgb effb]|] eqn:Hrest; [|done].
      simpl in Hrun. simplify_eq.
      destruct (home_locked_step _ _ _ _ Hl Hp Hstep) as (Hl' & Hp' & ->).
      by apply (IH pga). }
  destruct (Hlocked es2 (HomePage.mkPage ok.1 0) pg3 eff3 Hload eq_refl Hrun2)
    as [-> Hl3].
  split; [done|]. split; [done|]. split; [done|].
  subst ko. simpl. apply list_elem_of_further, list_elem_of_here.
Qed.

Lemma home_outcome_of_a_creation_witness :
  let es1 := [HomePage.ChangeGoal "Backend interview on Friday"; HomePage.SubmitForm] in
  let response := mkCreateResp "abc" "interview" "Backend interview" in
  ∃ pg1 eff1,
    HomePage.run es1 HomePage.mounted = Some (pg1, eff1) ∧
    (HomePage.handleSubmit_resume (Resolved response) (HomePage.state pg1)).2
      = [ShRouterPush "/session/abc"].
Proof.
  intros es1 response.
  destruct (HomePage.run es1 HomePage.mounted) as [[pg1 eff1]|] eqn:Hrun;
    [|vm_compute in Hrun; discriminate].
  exists pg1, eff1. split; [done|].
  destruct (home_outcome_of_a_creation es1 [] pg1
              (HomePage.mkPage
                 (HomePage.handleSubmit_resume (Resolved response) (HomePage.state pg1)).1 0)
              eff1 [] response "x" Hrun) as (Hnav & _).
  - vm_compute in Hrun. injection Hrun as <- <-. reflexivity.
  - reflexivity.
  - exact Hnav.
Defined.
